(** * file-categorizer: the Electron main process, the renderer, and the
      categorizer backend's contract

    The development follows the layout of the repository:
    - [JS]        the JavaScript values and string built-ins the code uses;
    - [Main]      src/main/main.js: [runPython], the IPC handlers and the
                  child-process listeners, as a state machine over events;
    - [Renderer]  src/renderer/js/renderer.js: the progress listener;
    - [UI]        src/renderer/js/renderer.js: the script's state, the page
                  and the listeners, as a state machine over events, with
                  the calls src/main/preload.js passes on ([switchTab],
                  which selects elements of index.html by a CSS selector,
                  and the arithmetic of [formatSize] are left out);
    - [Backend]   the Python backend (categorizer.py, similarity.py,
                  undo_manager.py), which the JavaScript side only spawns. *)

From Stdlib Require Import ZArith Lia Ascii String List Bool.
From stdpp Require Import base option list strings pretty sorting functions gmap.

Local Open Scope string_scope.
Local Open Scope list_scope.
#[local] Set Warnings "-register-all".

(* ===================================================================== *)
(** * JavaScript values and built-ins *)
(* ===================================================================== *)

Module JS.

(** A JavaScript value as it crosses the IPC boundary or comes out of
    [JSON.parse].  A number is kept as its canonical decimal rendering
    (what [String(n)] gives): the code never does arithmetic on one, it
    only tests, concatenates and forwards them.  Strings are sequences of
    code units below 256. *)
Inductive value : Type :=
| VUndefined
| VNull
| VBool (b : bool)
| VNum (repr : string)
| VStr (s : string)
| VArr (items : list value)
| VObj (fields : list (string * value)).

(** A thrown [Error]; only [error.message] is ever read. *)
Record exn : Type := Error { message : string }.

(** The settled state of a promise. *)
Inductive outcome : Type :=
| Resolved (v : value)
| Rejected (e : exn).

(** Results of synchronous code that may throw. *)
Inductive result (A : Type) : Type :=
| Ok (a : A)
| Throw (e : exn).
Arguments Ok {A} a.
Arguments Throw {A} e.

#[global] Instance result_bind : MBind result := fun A B k r =>
  match r with
  | Ok a => k a
  | Throw e => Throw e
  end.

(** [ToBoolean]. *)
Definition truthy (v : value) : bool :=
  match v with
  | VUndefined | VNull => false
  | VBool b => b
  | VNum r => negb (String.eqb r "0" || String.eqb r "NaN")
  | VStr s => negb (String.eqb s "")
  | VArr _ | VObj _ => true
  end.

(** [a || b]. *)
Definition or_else (a b : value) : value := if truthy a then a else b.

Fixpoint assoc (k : string) (fields : list (string * value)) : option value :=
  match fields with
  | [] => None
  | (k', v) :: rest => if String.eqb k k' then Some v else assoc k rest
  end.

(** [v.k] for a key that is no built-in property: a [TypeError] on
    [undefined] and [null], the field of an object, [undefined] otherwise. *)
Definition get (type_error : value -> string -> string)
    (v : value) (k : string) : result value :=
  match v with
  | VUndefined | VNull => Throw (Error (type_error v k))
  | VObj fields => Ok (default VUndefined (assoc k fields))
  | _ => Ok VUndefined
  end.

Definition join (sep : string) (parts : list string) : string :=
  match parts with
  | [] => ""
  | p :: rest => fold_left (fun acc q => acc +:+ sep +:+ q) rest p
  end.

(** [ToString]; an array joins its elements with commas, [null] and
    [undefined] elements giving the empty string. *)
Fixpoint to_string (v : value) : string :=
  match v with
  | VUndefined => "undefined"
  | VNull => "null"
  | VBool true => "true"
  | VBool false => "false"
  | VNum r => r
  | VStr s => s
  | VArr items =>
      join "," (map (fun x => match x with
                              | VUndefined | VNull => ""
                              | _ => to_string x
                              end) items)
  | VObj _ => "[object Object]"
  end.

(** ** String built-ins *)

(** [s.startsWith(p)] *)
Definition startsWith (p s : string) : bool := String.prefix p s.

(** [s.substring(i)] *)
Definition substring_from (i : nat) (s : string) : string :=
  String.substring i (String.length s - i) s.

(** [s.endsWith(p)] *)
Definition endsWith (p s : string) : bool :=
  (String.length p <=? String.length s)%nat &&
  String.eqb (substring_from (String.length s - String.length p) s) p.

(** [s.indexOf(p)] *)
Definition indexOf (p s : string) : option nat := String.index 0 p s.

(** [p] occurs in [s]. *)
Definition occurs (p s : string) : Prop :=
  exists pre post : string, s = pre +:+ p +:+ post.

(** [s.replace(p, r)] with a string pattern: the first occurrence only. *)
Definition replace (p r s : string) : string :=
  match indexOf p s with
  | None => s
  | Some i =>
      String.substring 0 i s +:+ r +:+ substring_from (i + String.length p) s
  end.

(** [s.split(sep)] for a one-character separator; never the empty list. *)
Fixpoint split_go (sep : ascii) (cur : string) (s : string) : list string :=
  match s with
  | EmptyString => [String.rev cur]
  | String c s' =>
      if Ascii.eqb c sep then String.rev cur :: split_go sep "" s'
      else split_go sep (String c cur) s'
  end.
Definition split (sep : ascii) (s : string) : list string := split_go sep "" s.

(** [s.lastIndexOf(c)] for a one-character needle. *)
Fixpoint lastIndexOf_go (c : ascii) (i : nat) (found : option nat) (s : string)
  : option nat :=
  match s with
  | EmptyString => found
  | String c' s' =>
      lastIndexOf_go c (S i) (if Ascii.eqb c' c then Some i else found) s'
  end.
Definition lastIndexOf (c : ascii) (s : string) : option nat :=
  lastIndexOf_go c 0 None s.

(** White space in the sense of [String.prototype.trim], below 256:
    TAB, LF, VT, FF, CR, SP and NBSP. *)
Definition is_white (c : ascii) : bool :=
  let n := nat_of_ascii c in
  ((9 <=? n) && (n <=? 13) || (n =? 32) || (n =? 160))%nat.

Fixpoint trim_start (s : string) : string :=
  match s with
  | EmptyString => ""
  | String c s' => if is_white c then trim_start s' else s
  end.

(** [s.trim()] *)
Definition trim (s : string) : string :=
  String.rev (trim_start (String.rev (trim_start s))).

(** [a.sort()] on strings: ascending in code-unit order. *)
Definition sort (l : list string) : list string := merge_sort String.le l.

End JS.

(* ===================================================================== *)
(** * src/main/main.js *)
(* ===================================================================== *)

Module Main.
Import JS.

(** What the code takes from Electron, Node and the JavaScript engine. *)
Record platform : Type := {
  isPackaged : bool;                          (* app.isPackaged *)
  resourcesPath : string;                     (* process.resourcesPath *)
  dirname : string;                           (* __dirname *)
  userData : string;                          (* app.getPath('userData') *)
  path_join : list string -> string;          (* path.join *)
  JSON_parse : string -> option value;        (* None: a SyntaxError *)
  JSON_stringify : value -> value;            (* a string, or undefined *)
  type_error : value -> string -> string;     (* text of a TypeError *)
  spawn_throws : string -> list value -> option exn
                                              (* spawn failing synchronously *)
}.

(** Children are numbered in the order they are spawned. *)
Abbreviation pid := nat.

(** The logs directory as [fs.readdirSync] and [fs.readFileSync] see it;
    [None] stands for a thrown error. *)
Record logs_dir : Type := {
  entries : option (list string);
  contents : string -> option string
}.

(** The closure of one [runPython] call.  [exited] is not a variable of the
    program: it records that the child's 'close' or 'error' event has
    fired, so that "in flight" can be stated. *)
Record run : Type := {
  owner : nat;               (* the IPC invocation awaiting the promise *)
  file : string;             (* spawn's first argument *)
  argv : list value;         (* fullArgs *)
  stdout : string;
  stderr : string;
  settled : option outcome;
  exited : bool
}.

Record state : Type := {
  pythonProcess : option pid;          (* let pythonProcess = null *)
  runs : list run;                     (* one per spawn, indexed by pid *)
  kills : list pid;                    (* calls of child.kill() *)
  sent : list (string * value);        (* mainWindow.webContents.send *)
  replies : list (nat * value);        (* values the handlers returned *)
  invocations : nat;
  window_ok : bool;                    (* the window is not destroyed *)
  logs : logs_dir
}.

Definition init (l : logs_dir) : state :=
  {| pythonProcess := None; runs := []; kills := []; sent := [];
     replies := []; invocations := 0; window_ok := true; logs := l |}.

Definition with_pythonProcess (v : option pid) (st : state) : state :=
  {| pythonProcess := v; runs := runs st; kills := kills st; sent := sent st;
     replies := replies st; invocations := invocations st;
     window_ok := window_ok st; logs := logs st |}.

Definition with_runs (v : list run) (st : state) : state :=
  {| pythonProcess := pythonProcess st; runs := v; kills := kills st;
     sent := sent st; replies := replies st; invocations := invocations st;
     window_ok := window_ok st; logs := logs st |}.

Definition with_kills (v : list pid) (st : state) : state :=
  {| pythonProcess := pythonProcess st; runs := runs st; kills := v;
     sent := sent st; replies := replies st; invocations := invocations st;
     window_ok := window_ok st; logs := logs st |}.

Definition with_sent (v : list (string * value)) (st : state) : state :=
  {| pythonProcess := pythonProcess st; runs := runs st; kills := kills st;
     sent := v; replies := replies st; invocations := invocations st;
     window_ok := window_ok st; logs := logs st |}.

Definition with_replies (v : list (nat * value)) (st : state) : state :=
  {| pythonProcess := pythonProcess st; runs := runs st; kills := kills st;
     sent := sent st; replies := v; invocations := invocations st;
     window_ok := window_ok st; logs := logs st |}.

Definition with_invocations (v : nat) (st : state) : state :=
  {| pythonProcess := pythonProcess st; runs := runs st; kills := kills st;
     sent := sent st; replies := replies st; invocations := v;
     window_ok := window_ok st; logs := logs st |}.

Definition with_window_ok (v : bool) (st : state) : state :=
  {| pythonProcess := pythonProcess st; runs := runs st; kills := kills st;
     sent := sent st; replies := replies st; invocations := invocations st;
     window_ok := v; logs := logs st |}.

Definition with_logs (v : logs_dir) (st : state) : state :=
  {| pythonProcess := pythonProcess st; runs := runs st; kills := kills st;
     sent := sent st; replies := replies st; invocations := invocations st;
     window_ok := window_ok st; logs := v |}.

Definition with_stdout (s : string) (r : run) : run :=
  {| owner := owner r; file := file r; argv := argv r; stdout := s;
     stderr := stderr r; settled := settled r; exited := exited r |}.

Definition with_stderr (s : string) (r : run) : run :=
  {| owner := owner r; file := file r; argv := argv r; stdout := stdout r;
     stderr := s; settled := settled r; exited := exited r |}.

Definition with_settled (o : option outcome) (r : run) : run :=
  {| owner := owner r; file := file r; argv := argv r; stdout := stdout r;
     stderr := stderr r; settled := o; exited := exited r |}.

Definition with_exited (b : bool) (r : run) : run :=
  {| owner := owner r; file := file r; argv := argv r; stdout := stdout r;
     stderr := stderr r; settled := settled r; exited := b |}.

Section WithPlatform.
Variable P : platform.

(** [getPythonPath]: both branches return the same name. *)
Definition getPythonPath : string :=
  if isPackaged P then "python" else "python".

Definition getCategorizerPath : string :=
  if isPackaged P
  then path_join P [resourcesPath P; "python"; "categorizer.py"]
  else path_join P [dirname P; ".."; "python"; "categorizer.py"].

Definition getLogsPath : string :=
  if isPackaged P
  then path_join P [userData P; "logs"]
  else path_join P [dirname P; ".."; ".."; "logs"].

(** [mainWindow.webContents.send(channel, payload)]; throws once the
    window is gone. *)
Definition send (channel : string) (payload : value) (st : state)
  : option state :=
  if window_ok st then Some (with_sent (sent st ++ [(channel, payload)]) st)
  else None.

(** The body of the 'data' listener on stdout after [stdout += ...]: the
    [forEach] over the chunk's lines inside one [try]; the first exception
    (from [JSON.parse] or from [send]) leaves the loop and is swallowed. *)
Fixpoint forward_progress (lines : list string) (st : state) : state :=
  match lines with
  | [] => st
  | line :: rest =>
      if startsWith "PROGRESS:" line then
        match JSON_parse P (replace "PROGRESS:" "" line) with
        | None => st
        | Some progress =>
            match send "progress-update" progress st with
            | None => st
            | Some st' => forward_progress rest st'
            end
        end
      else forward_progress rest st
  end.

(** A line that begins with "PROGRESS:" and whose rest [JSON.parse]
    rejects. *)
Definition malformed (line : string) : Prop :=
  startsWith "PROGRESS:" line = true /\
  JSON_parse P (replace "PROGRESS:" "" line) = None.

Definition newline : ascii := ascii_of_nat 10.

Definition on_stdout_data (p : pid) (data : string) (st : state) : state :=
  match runs st !! p with
  | None => st
  | Some r =>
      let st1 := with_runs (<[p := with_stdout (stdout r +:+ data) r]> (runs st)) st in
      forward_progress (split newline data) st1
  end.

(** The 'data' listener on stderr; its [send] is not guarded, so a throw
    ends the listener after [stderr += ...]. *)
Definition on_stderr_data (p : pid) (data : string) (st : state) : state :=
  match runs st !! p with
  | None => st
  | Some r =>
      let st1 := with_runs (<[p := with_stderr (stderr r +:+ data) r]> (runs st)) st in
      let payload := VObj [("type", VStr "error"); ("message", VStr data)] in
      default st1 (send "log-message" payload st1)
  end.

(** [stdout.match(/RESULT:([\s\S]*?)(?:$|PROGRESS:)/)], the first group:
    from the leftmost "RESULT:" the lazy group stops at the first
    "PROGRESS:" that follows, or at the end of the text. *)
Definition match_RESULT (out : string) : option string :=
  match indexOf "RESULT:" out with
  | None => None
  | Some i =>
      let rest := substring_from (i + 7) out in
      match indexOf "PROGRESS:" rest with
      | Some j => Some (String.substring 0 j rest)
      | None => Some rest
      end
  end.

Definition exit_code_text (code : option Z) : string :=
  match code with
  | None => "null"
  | Some z => pretty z
  end.

(** What the 'close' listener passes to [resolve] or [reject]. *)
Definition close_outcome (code : option Z) (out err : string) : outcome :=
  if decide (code = Some 0%Z) then
    match match_RESULT out with
    | Some json =>
        match JSON_parse P (trim json) with
        | Some v => Resolved v
        | None => Resolved (VObj [("success", VBool true); ("raw", VStr out)])
        end
    | None =>
        match lastIndexOf "{" out with
        | Some lastJsonStart =>
            match JSON_parse P (substring_from lastJsonStart out) with
            | Some v => Resolved v
            | None =>
                Resolved (VObj [("success", VBool true); ("raw", VStr out)])
            end
        | None =>
            Resolved (VObj [("success", VBool true); ("message", VStr out)])
        end
    end
  else
    Rejected (Error (to_string
      (or_else (VStr err)
         (VStr ("Python process exited with code " +:+ exit_code_text code))))).

(** The group [json] of the pattern, followed by [post] in the text: it
    ends at the first "PROGRESS:" after the marker, or with the text. *)
Definition ends_group (json post : string) : Prop :=
  (post = "" /\ ~ occurs "PROGRESS:" json) \/
  (startsWith "PROGRESS:" post = true /\
   forall a b, json +:+ post = a +:+ "PROGRESS:" +:+ b ->
     String.length json <= String.length a).


(** The [catch] clause shared, textually, by the four backend handlers. *)
Definition failure (e : exn) : value :=
  VObj [("success", VBool false); ("error", VStr (message e))].

(** [try { ...; return await runPython(args) } catch (error) { ... }] seen
    from the caller of the handler. *)
Definition handler_return (o : outcome) : value :=
  match o with
  | Resolved v => v
  | Rejected e => failure e
  end.

Definition reply (id : nat) (v : value) (st : state) : state :=
  with_replies (replies st ++ [(id, v)]) st.

(** [resolve]/[reject] of the promise of run [p]: the first call settles
    it and resumes the awaiting handler, later calls do nothing. *)
Definition settle (p : pid) (o : outcome) (st : state) : state :=
  match runs st !! p with
  | None => st
  | Some r =>
      match settled r with
      | Some _ => st
      | None =>
          reply (owner r) (handler_return o)
            (with_runs (<[p := with_settled (Some o) r]> (runs st)) st)
      end
  end.

Definition mark_exited (p : pid) (st : state) : state :=
  with_runs (alter (with_exited true) p (runs st)) st.

Definition on_close (p : pid) (code : option Z) (st : state) : state :=
  match runs st !! p with
  | None => st
  | Some r =>
      let st1 := with_pythonProcess None (mark_exited p st) in
      settle p (close_outcome code (stdout r) (stderr r)) st1
  end.

Definition on_error (p : pid) (err : exn) (st : state) : state :=
  match runs st !! p with
  | None => st
  | Some r =>
      let st1 := with_pythonProcess None (mark_exited p st) in
      settle p (Rejected err) st1
  end.

(** [runPython(args)] up to the point where the promise is returned, on
    behalf of invocation [id]. *)
Definition runPython (id : nat) (args : list value) (st : state) : state :=
  let pythonPath := getPythonPath in
  let categorizerPath := getCategorizerPath in
  let fullArgs := VStr categorizerPath :: args in
  match spawn_throws P pythonPath fullArgs with
  | Some e => reply id (handler_return (Rejected e)) st
  | None =>
      let p := length (runs st) in
      let r := {| owner := id; file := pythonPath; argv := fullArgs;
                  stdout := ""; stderr := ""; settled := None;
                  exited := false |} in
      with_pythonProcess (Some p) (with_runs (runs st ++ [r]) st)
  end.

(** The argument lists the handlers build inside their [try]. *)
Definition scan_args (folderPath : value) : result (list value) :=
  Ok [VStr "--scan"; folderPath].

Definition simulate_args (options : value) : result (list value) :=
  folderPath ← get (type_error P) options "folderPath";
  modes ← get (type_error P) options "modes";
  advancedOptions ← get (type_error P) options "advancedOptions";
  Ok [VStr "--simulate";
      VStr "--folder"; folderPath;
      VStr "--modes"; JSON_stringify P modes;
      VStr "--options"; JSON_stringify P (or_else advancedOptions (VObj []));
      VStr "--logs-path"; VStr getLogsPath].

Definition categorize_args (options : value) : result (list value) :=
  folderPath ← get (type_error P) options "folderPath";
  modes ← get (type_error P) options "modes";
  advancedOptions ← get (type_error P) options "advancedOptions";
  Ok [VStr "--execute";
      VStr "--folder"; folderPath;
      VStr "--modes"; JSON_stringify P modes;
      VStr "--options"; JSON_stringify P (or_else advancedOptions (VObj []));
      VStr "--logs-path"; VStr getLogsPath].

(** What 'simulate' and 'categorize' pass after their flag, for stating
    that they agree. *)
Definition shared_args (folderPath modes advancedOptions : value)
  : list value :=
  [VStr "--folder"; folderPath;
   VStr "--modes"; JSON_stringify P modes;
   VStr "--options"; JSON_stringify P (or_else advancedOptions (VObj []));
   VStr "--logs-path"; VStr getLogsPath].

Definition undo_args : result (list value) :=
  Ok [VStr "--undo"; VStr "--logs-path"; VStr getLogsPath].

(** The common shape of the four handlers: build the arguments, start the
    run; a throw while building them goes to the [catch] at once. *)
Definition try_run (id : nat) (args : result (list value)) (st : state)
  : state :=
  match args with
  | Ok a => runPython id a st
  | Throw e => reply id (failure e) st
  end.

Definition is_operation_log (f : string) : bool :=
  startsWith "operation_" f && endsWith ".json" f.

(** The names the pattern operation_*.json describes. *)
Definition operation_log_name (f : string) : Prop :=
  exists mid : string, f = "operation_" +:+ mid +:+ ".json".

(** ipcMain.handle('get-last-operation') *)
Definition get_last_operation (l : logs_dir) : value :=
  match entries l with
  | None => VNull
  | Some names =>
      let logFiles := reverse (sort (filter (fun f => is_operation_log f = true) names)) in
      match logFiles with
      | [] => VNull
      | first :: _ =>
          match contents l (path_join P [getLogsPath; first]) with
          | None => VNull
          | Some lastLog => default VNull (JSON_parse P lastLog)
          end
      end
  end.

(** ipcMain.handle('cancel-operation') *)
Definition cancel_operation (id : nat) (st : state) : state :=
  match pythonProcess st with
  | Some p =>
      reply id (VObj [("success", VBool true)])
        (with_pythonProcess None (with_kills (kills st ++ [p]) st))
  | None =>
      reply id (VObj [("success", VBool false);
                      ("message", VStr "No operation running")]) st
  end.

Inductive channel : Type :=
| ScanFolder | Simulate | Categorize | Undo | GetLastOperation
| CancelOperation.

Definition handle (ch : channel) (arg : value) (st : state) : state :=
  let id := invocations st in
  let st := with_invocations (S id) st in
  match ch with
  | ScanFolder => try_run id (scan_args arg) st
  | Simulate => try_run id (simulate_args arg) st
  | Categorize => try_run id (categorize_args arg) st
  | Undo => try_run id undo_args st
  | GetLastOperation => reply id (get_last_operation (logs st)) st
  | CancelOperation => cancel_operation id st
  end.

(** What can happen to the main process. *)
Inductive event : Type :=
| Invoke (ch : channel) (arg : value)       (* ipcRenderer.invoke *)
| StdoutData (p : pid) (data : string)
| StderrData (p : pid) (data : string)
| Close (p : pid) (code : option Z)         (* null after a signal *)
| ChildError (p : pid) (err : exn)
| WindowDestroyed
| LogsChanged (l : logs_dir).

Definition step (st : state) (ev : event) : state :=
  match ev with
  | Invoke ch arg => handle ch arg st
  | StdoutData p data => on_stdout_data p data st
  | StderrData p data => on_stderr_data p data st
  | Close p code => on_close p code st
  | ChildError p err => on_error p err st
  | WindowDestroyed => with_window_ok false st
  | LogsChanged l => with_logs l st
  end.

Definition exec (evs : list event) (st : state) : state :=
  fold_left step evs st.

(** The text child [p] wrote to stdout, resp. stderr, in a list of events. *)
Fixpoint stdout_of (p : pid) (evs : list event) : string :=
  match evs with
  | [] => ""
  | StdoutData q data :: rest =>
      if Nat.eqb q p then data +:+ stdout_of p rest else stdout_of p rest
  | _ :: rest => stdout_of p rest
  end.

Fixpoint stderr_of (p : pid) (evs : list event) : string :=
  match evs with
  | [] => ""
  | StderrData q data :: rest =>
      if Nat.eqb q p then data +:+ stderr_of p rest else stderr_of p rest
  | _ :: rest => stderr_of p rest
  end.

(** Output of the children and the loss of the window: the events during
    which progress is delivered, or fails to be. *)
Definition output_event (ev : event) : Prop :=
  match ev with
  | StdoutData _ _ | StderrData _ _ | WindowDestroyed => True
  | _ => False
  end.

(** What it means for the handler of channel [ch] to report a failed
    backend run instead of throwing: called in any state, it either fails
    before a child exists and returns the failure object at once, or it
    spawns the next child and awaits it, and then in every later state in
    which that promise is rejected with [e] the handler has returned the
    failure object for [e]. *)
Definition reports_failure (ch : channel) : Prop :=
  forall (arg : value) (st : state),
    (exists e,
       runs (handle ch arg st) = runs st /\
       replies (handle ch arg st) =
         replies st ++ [(invocations st, failure e)]) \/
    (exists r,
       runs (handle ch arg st) = runs st ++ [r] /\
       owner r = invocations st /\ settled r = None /\
       forall (evs : list event) (r' : run) (e : exn),
         runs (exec evs (handle ch arg st)) !! length (runs st) = Some r' ->
         settled r' = Some (Rejected e) ->
         (invocations st,
          VObj [("success", VBool false); ("error", VStr (message e))])
           ∈ replies (exec evs (handle ch arg st))).

(** A run is in flight from its spawn until its 'close' or 'error'. *)
Definition in_flight (st : state) (p : pid) : Prop :=
  exists r, runs st !! p = Some r /\ exited r = false.

(** The invariant behind the shared reference: when [pythonProcess] is
    set, it is the child spawned last, and that child has not closed. *)
Definition tracked (st : state) : Prop :=
  forall p, pythonProcess st = Some p ->
    S p = length (runs st) /\ in_flight st p.

(** ** The rest of the main process *)

(** app.on('before-quit'): the referenced child is killed, the reference
    stays. *)
Definition before_quit (st : state) : state :=
  match pythonProcess st with
  | Some p => with_kills (kills st ++ [p]) st
  | None => st
  end.

(** The result of [dialog.showOpenDialog]. *)
Record open_dialog : Type := {
  canceled : bool;
  filePaths : list string
}.

(** ipcMain.handle('select-folder') *)
Definition select_folder (result : open_dialog) : value :=
  if canceled result then VNull
  else
    match filePaths result with
    | [] => VUndefined
    | first :: _ => VStr first
    end.

(** The logs directory holds an operation log whose name is the
    greatest, which can be read and parses to [v]. *)
Definition latest_log (l : logs_dir) (v : value) : Prop :=
  exists names latest text,
    entries l = Some names /\
    latest ∈ names /\
    operation_log_name latest /\
    (forall f, f ∈ names -> operation_log_name f -> (f ≤ latest)%string) /\
    contents l (path_join P [getLogsPath; latest]) = Some text /\
    JSON_parse P text = Some v.

(** What the event [ev] passes to the promise of child [p] when it is the
    'close' or the 'error' event of that child; [out] and [err] are the
    texts the closure has accumulated. *)
Definition exit_outcome (p : pid) (ev : event) (out err : string)
  : option outcome :=
  match ev with
  | Close q code =>
      if Nat.eqb q p then Some (close_outcome code out err) else None
  | ChildError q e => if Nat.eqb q p then Some (Rejected e) else None
  | _ => None
  end.

(** The handler of invocation [i] has returned. *)
Definition answered (st : state) (i : nat) : Prop :=
  exists v, (i, v) ∈ replies st.

(** The handler of invocation [i] is suspended at [await runPython(...)],
    on a child that has neither closed nor failed. *)
Definition awaiting (st : state) (i : nat) : Prop :=
  exists p r, runs st !! p = Some r /\ owner r = i /\ exited r = false.

(** The text of the error a backend handler reports for a child that
    exits with [code] after writing [err] to stderr. *)
Definition exit_message (code : option Z) (err : string) : string :=
  if String.eqb err "" then
    "Python process exited with code " +:+ exit_code_text code
  else err.

(** A message to the renderer that stems from the output of a child: a
    line of a stdout chunk that begins with "PROGRESS:" and parses, or a
    chunk of stderr. *)
Definition forwarded_from (evs : list event) (msg : string * value) : Prop :=
  (fst msg = "progress-update" /\
   exists p data line,
     StdoutData p data ∈ evs /\ line ∈ split newline data /\
     startsWith "PROGRESS:" line = true /\
     JSON_parse P (replace "PROGRESS:" "" line) = Some (snd msg)) \/
  (fst msg = "log-message" /\
   exists p data,
     StderrData p data ∈ evs /\
     snd msg = VObj [("type", VStr "error"); ("message", VStr data)]).

(** How the invocations, the runs and the replies hang together in the
    states the main process reaches. *)
Record calls_ok (st : state) : Prop := {
  replies_known : forall i v, (i, v) ∈ replies st -> i < invocations st;
  replies_once : NoDup (replies st).*1;
  owners_known : forall p r, runs st !! p = Some r -> owner r < invocations st;
  owners_differ : forall p q r s,
    runs st !! p = Some r -> runs st !! q = Some s -> owner r = owner s -> p = q;
  settled_exited : forall p r,
    runs st !! p = Some r -> (settled r = None <-> exited r = false);
  pending_unanswered : forall p r,
    runs st !! p = Some r -> settled r = None -> ~ answered st (owner r);
  settled_answered : forall p r o,
    runs st !! p = Some r -> settled r = Some o ->
    (owner r, handler_return o) ∈ replies st;
  calls_accounted : forall i, i < invocations st ->
    answered st i \/ awaiting st i
}.

(** What [kill] has been called on, as long as the application is not
    quitting. *)
Record kills_ok (st : state) : Prop := {
  kills_once : NoDup (kills st);
  kills_spawned : forall p, p ∈ kills st -> p < length (runs st);
  kills_released : forall p, p ∈ kills st -> pythonProcess st <> Some p
}.

(** The events of the main process together with the application's
    'before-quit', which may fire more than once (a quit can be
    prevented) and after which calls and child events still arrive. *)
Inductive app_event : Type :=
| Process (ev : event)
| BeforeQuit.

Definition app_step (st : state) (ev : app_event) : state :=
  match ev with
  | Process ev => step st ev
  | BeforeQuit => before_quit st
  end.

Definition app_exec (evs : list app_event) (st : state) : state :=
  fold_left app_step evs st.

End WithPlatform.

End Main.

(* ===================================================================== *)
(** * src/renderer/js/renderer.js: the progress listener *)
(* ===================================================================== *)

Module Renderer.
Import JS.

(** The two DOM properties the listener writes. *)
Record dom : Type := {
  progressFill_width : string;         (* dom.progressFill.style.width *)
  progressText_textContent : string    (* dom.progressText.textContent *)
}.

(** [style.width = text]: the setter parses the text as a CSS width and
    does nothing when it is none ("null%", "-5%", "NaN%"); otherwise the
    property holds the width as the engine writes it.  [css_width] is
    that parser, [None] for a text that is no width. *)
Definition assign_width (css_width : string -> option string)
    (text : string) (d : dom) : dom :=
  match css_width text with
  | Some w => {| progressFill_width := w;
                 progressText_textContent := progressText_textContent d |}
  | None => d
  end.

(** The callback given to [window.electronAPI.onProgressUpdate]. *)
Definition onProgressUpdate (type_error : value -> string -> string)
    (css_width : string -> option string)
    (data : value) (d : dom) : result dom :=
  percent ← get type_error data "percent";
  let d1 :=
    match percent with
    | VUndefined => d
    | _ => assign_width css_width (to_string percent +:+ "%") d
    end in
  message ← get type_error data "message";
  Ok (if truthy message
      then {| progressFill_width := progressFill_width d1;
              progressText_textContent := to_string message |}
      else d1).

(** Delivery of what the main process sent: the preload script hands the
    payload of every 'progress-update' message to the callback; a throw
    inside the callback leaves the DOM as it was. *)
Definition deliver (type_error : value -> string -> string)
    (css_width : string -> option string)
    (d : dom) (msg : string * value) : dom :=
  if String.eqb (fst msg) "progress-update" then
    match onProgressUpdate type_error css_width (snd msg) d with
    | Ok d' => d'
    | Throw _ => d
    end
  else d.

End Renderer.

(* ===================================================================== *)
(** * src/renderer/js/renderer.js: the state, the page and the handlers *)
(* ===================================================================== *)

Module UI.
Import JS.

(** ** The script's variables *)

Record multi_criteria : Type := {
  criteria1 : string;
  criteria2 : string;
  operator : string
}.

(** [state.options]; the selects and the slider deliver strings,
    [similarityThreshold] holds the number [parseInt] made of one. *)
Record advanced_options : Type := {
  language : string;
  dateFormat : string;
  conflictResolution : string;
  similarityThreshold : value;
  multiCriteria : multi_criteria
}.

Definition with_criteria1 (v : string) (m : multi_criteria) : multi_criteria :=
  {| criteria1 := v; criteria2 := criteria2 m; operator := operator m |}.

Definition with_criteria2 (v : string) (m : multi_criteria) : multi_criteria :=
  {| criteria1 := criteria1 m; criteria2 := v; operator := operator m |}.

Definition with_operator (v : string) (m : multi_criteria) : multi_criteria :=
  {| criteria1 := criteria1 m; criteria2 := criteria2 m; operator := v |}.

Definition with_language (v : string) (o : advanced_options)
  : advanced_options :=
  {| language := v; dateFormat := dateFormat o;
     conflictResolution := conflictResolution o;
     similarityThreshold := similarityThreshold o;
     multiCriteria := multiCriteria o |}.

Definition with_dateFormat (v : string) (o : advanced_options)
  : advanced_options :=
  {| language := language o; dateFormat := v;
     conflictResolution := conflictResolution o;
     similarityThreshold := similarityThreshold o;
     multiCriteria := multiCriteria o |}.

Definition with_conflictResolution (v : string) (o : advanced_options)
  : advanced_options :=
  {| language := language o; dateFormat := dateFormat o;
     conflictResolution := v;
     similarityThreshold := similarityThreshold o;
     multiCriteria := multiCriteria o |}.

Definition with_similarityThreshold (v : value) (o : advanced_options)
  : advanced_options :=
  {| language := language o; dateFormat := dateFormat o;
     conflictResolution := conflictResolution o;
     similarityThreshold := v;
     multiCriteria := multiCriteria o |}.

Definition with_multiCriteria (m : multi_criteria) (o : advanced_options)
  : advanced_options :=
  {| language := language o; dateFormat := dateFormat o;
     conflictResolution := conflictResolution o;
     similarityThreshold := similarityThreshold o;
     multiCriteria := m |}.

(** [const state = {...}] *)
Record state : Type := {
  folder : value;
  modes : list string;
  options : advanced_options;
  hasUndo : bool
}.

(** The object literal the script starts with. *)
Definition initial_state : state :=
  {| folder := VNull;
     modes := [];
     options :=
       {| language := "en"; dateFormat := "YYYY";
          conflictResolution := "number";
          similarityThreshold := VNum "80";
          multiCriteria :=
            {| criteria1 := "extension"; criteria2 := "year";
               operator := "AND" |} |};
     hasUndo := false |}.

Definition with_modes (l : list string) (s : state) : state :=
  {| folder := folder s; modes := l; options := options s;
     hasUndo := hasUndo s |}.

Definition with_folder (v : value) (s : state) : state :=
  {| folder := v; modes := modes s; options := options s;
     hasUndo := hasUndo s |}.

Definition with_hasUndo (b : bool) (s : state) : state :=
  {| folder := folder s; modes := modes s; options := options s;
     hasUndo := b |}.

Definition with_options (o : advanced_options) (s : state) : state :=
  {| folder := folder s; modes := modes s; options := o;
     hasUndo := hasUndo s |}.

(** [state.options] as the value that crosses the IPC boundary, its keys
    in the order of the literal. *)
Definition options_value (o : advanced_options) : value :=
  VObj [("language", VStr (language o));
        ("dateFormat", VStr (dateFormat o));
        ("conflictResolution", VStr (conflictResolution o));
        ("similarityThreshold", similarityThreshold o);
        ("multiCriteria",
         VObj [("criteria1", VStr (criteria1 (multiCriteria o)));
               ("criteria2", VStr (criteria2 (multiCriteria o)));
               ("operator", VStr (operator (multiCriteria o)))])].

(** ** The page *)

(** A child node of an element of the page: text that index.html put
    there, or an element; for one the script created, the class name and
    the [innerHTML] or [textContent] it assigned, and what it appended. *)
Inductive node : Type :=
| Text (data : string)
| Element (className : string) (innerHTML : option string)
    (textContent : option value) (childNodes : list node).

Definition is_element (n : node) : bool :=
  match n with
  | Text _ => false
  | Element _ _ _ _ => true
  end.

(** An element index.html defines, with the properties the script reads
    or writes.  A property holds the value last assigned to it; the
    width, a CSS property, holds the last width assigned (see
    [css_width]). *)
Record element : Type := {
  hidden : bool;               (* classList has 'hidden' *)
  disabled : bool;             (* .disabled *)
  input_value : value;         (* .value *)
  text : value;                (* .textContent *)
  width : string;              (* .style.width *)
  display : string;            (* .style.display *)
  nodes : list node            (* .childNodes *)
}.

Definition with_hidden (b : bool) (e : element) : element :=
  {| hidden := b; disabled := disabled e; input_value := input_value e;
     text := text e; width := width e; display := display e;
     nodes := nodes e |}.

Definition with_disabled (b : bool) (e : element) : element :=
  {| hidden := hidden e; disabled := b; input_value := input_value e;
     text := text e; width := width e; display := display e;
     nodes := nodes e |}.

Definition with_input_value (v : value) (e : element) : element :=
  {| hidden := hidden e; disabled := disabled e; input_value := v;
     text := text e; width := width e; display := display e;
     nodes := nodes e |}.

Definition with_text (v : value) (e : element) : element :=
  {| hidden := hidden e; disabled := disabled e; input_value := input_value e;
     text := v; width := width e; display := display e; nodes := nodes e |}.

Definition with_width (s : string) (e : element) : element :=
  {| hidden := hidden e; disabled := disabled e; input_value := input_value e;
     text := text e; width := s; display := display e; nodes := nodes e |}.

Definition with_display (s : string) (e : element) : element :=
  {| hidden := hidden e; disabled := disabled e; input_value := input_value e;
     text := text e; width := width e; display := s; nodes := nodes e |}.

Definition with_nodes (l : list node) (e : element) : element :=
  {| hidden := hidden e; disabled := disabled e; input_value := input_value e;
     text := text e; width := width e; display := display e; nodes := l |}.

(** [const dom = {...}]: the elements by the name the script gives them
    (index.html is taken to define each of them), and the mode
    checkboxes with their [value] and [checked]. *)
Record dom : Type := {
  elements : string -> element;
  modeCheckboxes : list (string * bool)
}.

(** The point at which an async function of the script is suspended. *)
Inductive continuation : Type :=
| after_selectFolder          (* selectFolder: await selectFolder() *)
| after_scanFolder            (* selectFolder: await scanFolder(folder) *)
| after_getLastOperation      (* checkUndo *)
| after_simulate
| after_categorize
| after_undo
| after_cancelOperation.

(** The renderer process: the script's state, the page, the calls of
    [ipcRenderer.invoke] so far (a call is known by its position), the
    suspended functions with the call each awaits, and whether [init] has
    registered the listeners. *)
Record world : Type := {
  st : state;
  page : dom;
  invoked : list (string * list value);
  suspended : list (nat * continuation);
  listening : bool
}.

Definition with_st (s : state) (w : world) : world :=
  {| st := s; page := page w; invoked := invoked w;
     suspended := suspended w; listening := listening w |}.

Definition with_page (d : dom) (w : world) : world :=
  {| st := st w; page := d; invoked := invoked w;
     suspended := suspended w; listening := listening w |}.

Definition with_suspended (l : list (nat * continuation)) (w : world) : world :=
  {| st := st w; page := page w; invoked := invoked w;
     suspended := l; listening := listening w |}.

Definition with_listening (b : bool) (w : world) : world :=
  {| st := st w; page := page w; invoked := invoked w;
     suspended := suspended w; listening := b |}.

(** ** Code that changes the world and may throw *)

(** A piece of the script: it returns or throws, and leaves the world as
    it is at that point. *)
Definition action (A : Type) : Type := world -> result A * world.

#[global] Instance action_ret : MRet action := fun A a w => (Ok a, w).

#[global] Instance action_bind : MBind action := fun A B k m w =>
  match m w with
  | (Ok a, w') => k a w'
  | (Throw e, w') => (Throw e, w')
  end.

Definition lift {A : Type} (r : result A) : action A := fun w => (r, w).

(** Reading [state] and [dom]. *)
Definition get_state : action state := fun w => (Ok (st w), w).
Definition get_page : action dom := fun w => (Ok (page w), w).

(** [state.field = ...] *)
Definition modify_state (f : state -> state) : action unit :=
  fun w => (Ok tt, with_st (f (st w)) w).

(** [dom.id.property = ...] *)
Definition set (id : string) (f : element -> element) : action unit :=
  fun w =>
    (Ok tt,
     with_page {| elements := alter f id (elements (page w));
                  modeCheckboxes := modeCheckboxes (page w) |} w).

(** [dom.id.appendChild(n)] *)
Definition appendChild (id : string) (n : node) : action unit :=
  set id (fun e => with_nodes (nodes e ++ [n]) e).

(** [window.electronAPI.method(...args)] followed by [await]: the call is
    made and the function is suspended at [k]. *)
Definition invoke (channel : string) (args : list value) (k : continuation)
  : action unit :=
  fun w =>
    (Ok tt,
     {| st := st w; page := page w;
        invoked := invoked w ++ [(channel, args)];
        suspended := suspended w ++ [(length (invoked w), k)];
        listening := listening w |}).

(** [array.forEach(f)] and [for (... of list)] with a body that may
    throw. *)
Fixpoint for_each {A : Type} (f : A -> action unit) (l : list A)
  : action unit :=
  match l with
  | [] => mret tt
  | x :: rest => f x ;; for_each f rest
  end.

(** What the script takes from the browser and the engine. *)
Record browser : Type := {
  type_error : value -> string -> string;
                       (* the text of the TypeError for v.k on null *)
  not_a_function : string -> string;
                       (* the text of the TypeError for calling f *)
  parseInt : string -> value;           (* a number *)
  toFixed_2 : string -> string;         (* n.toFixed(2), n as rendered *)
  string_to_number : string -> string;  (* ToNumber, the result rendered *)
  format_scaled : value -> string;      (* see [formatSize] *)
  css_width : string -> option string
                       (* a text parsed as a CSS width and written back;
                          None when it is no width, as "null%" or "-5%" *)
}.

(** The double quote, and the two characters outside Latin-1 that the
    script writes, as their UTF-8 bytes. *)
Definition dq : string := String (ascii_of_nat 34) "".
Definition folder_icon : string :=
  String (ascii_of_nat 240) (String (ascii_of_nat 159)
    (String (ascii_of_nat 147) (String (ascii_of_nat 129) ""))).
Definition corner : string :=
  String (ascii_of_nat 226) (String (ascii_of_nat 148)
    (String (ascii_of_nat 148) "")).

Section WithBrowser.
Variable B : browser.

(** [v.k] *)
Definition read (v : value) (k : string) : action value :=
  lift (get (type_error B) v k).

(** [v.length] *)
Definition get_length (v : value) : result value :=
  match v with
  | VUndefined | VNull => Throw (Error (type_error B v "length"))
  | VArr items => Ok (VNum (pretty (length items)))
  | VStr s => Ok (VNum (pretty (String.length s)))
  | VObj fields => Ok (default VUndefined (assoc "length" fields))
  | _ => Ok VUndefined
  end.

(** A number, as rendered, is greater than 0. *)
Definition positive (repr : string) : bool :=
  negb (String.eqb repr "0" || String.eqb repr "NaN" || startsWith "-" repr).

(** [v > 0] *)
Definition greater_than_zero (v : value) : bool :=
  match v with
  | VUndefined | VNull | VObj _ => false
  | VBool b => b
  | VNum repr => positive repr
  | VStr s => positive (string_to_number B s)
  | VArr _ => positive (string_to_number B (to_string v))
  end.

(** [Object.entries(v)] for a value other than null and undefined. *)
Definition entries (v : value) : list (string * value) :=
  match v with
  | VObj fields => fields
  | VArr items => imap (fun i x => (pretty i, x)) items
  | VStr s =>
      imap (fun i c => (pretty i, VStr (String c ""))) (list_ascii_of_string s)
  | _ => []
  end.

(** [formatSize(bytes)].  The branch for [bytes === 0] is as written;
    the other one is floating-point arithmetic ([Math.log], [Math.pow],
    [toFixed], [parseFloat]) and is left to the engine. *)
Definition formatSize (bytes : value) : string :=
  match bytes with
  | VNum "0" => "0 B"
  | _ => format_scaled B bytes
  end.

(** ** Progress and log *)

Definition showProgress (text_ : string) : action unit :=
  set "progressText" (with_text (VStr text_)) ;;
  set "progressFill" (with_width "0%") ;;   (* '0%' is a width *)
  set "progressBar" (with_hidden false).

Definition hideProgress : action unit :=
  set "progressBar" (with_hidden true).

(** [dom.logContent.children.length] *)
Definition children_length (l : list node) : nat :=
  length (filter (fun n => is_element n = true) l).

(** [while (children.length > 100) removeChild(lastChild)], with the
    number of rounds it may take. *)
Fixpoint remove_excess (rounds : nat) (l : list node) : list node :=
  match rounds with
  | 0 => l
  | S n =>
      if (100 <? children_length l)%nat then remove_excess n (removelast l)
      else l
  end.

(** [log(message, type = 'info')] at the time [now] that
    [new Date().toLocaleTimeString('en-US')] gives. *)
Definition log (now : string) (message type : value) : action unit :=
  let type :=
    match type with
    | VUndefined => VStr "info"
    | _ => type
    end in
  let entry :=
    Element ("log-entry " +:+ to_string type) None
      (Some (VStr ("[" +:+ now +:+ "] " +:+ to_string message))) [] in
  set "logContent"
    (fun e =>
       let l := entry :: nodes e in
       with_nodes (remove_excess (length l) l) e).

(** [dom.progressFill.style.width = text] for a computed text: the
    setter does nothing when the text is no CSS width. *)
Definition assign_width (text_ : string) (e : element) : element :=
  match css_width B text_ with
  | Some w => with_width w e
  | None => e
  end.

(** The callback of [onProgressUpdate]. *)
Definition onProgressUpdate (data : value) : action unit :=
  percent ← read data "percent";
  match percent with
  | VUndefined => mret tt
  | _ => set "progressFill" (assign_width (to_string percent +:+ "%"))
  end ;;
  message ← read data "message";
  if truthy message then set "progressText" (with_text message)
  else mret tt.

(** The callback of [onLogMessage]. *)
Definition onLogMessage (now : string) (data : value) : action unit :=
  message ← read data "message";
  type ← read data "type";
  log now message type.

(** ** Buttons and modes *)

(** [state.folder && state.modes.length > 0] *)
Definition canRun (s : state) : value :=
  if truthy (folder s) then VBool (0 <? length (modes s))%nat else folder s.

Definition updateButtons : action unit :=
  s ← get_state;
  set "categorizeBtn" (with_disabled (negb (truthy (canRun s)))) ;;
  set "simulateBtn" (with_disabled (negb (truthy (canRun s)))) ;;
  set "undoBtn" (with_disabled (negb (hasUndo s))).

Definition updateModes : action unit :=
  d ← get_page;
  let checked :=
    map fst (filter (fun cb => snd cb = true) (modeCheckboxes d)) in
  modify_state (with_modes checked) ;;
  set "multiCriteriaSection"
    (with_display (if bool_decide ("multi_criteria" ∈ checked)
                   then "block" else "none")) ;;
  updateButtons.

Definition checkUndo : action unit :=
  invoke "get-last-operation" [] after_getLastOperation.

(** ** The operations *)

Definition selectFolder : action unit :=
  invoke "select-folder" [] after_selectFolder.

(** What 'simulate' and 'categorize' are called with. *)
Definition request (s : state) : value :=
  VObj [("folderPath", folder s);
        ("modes", VArr (map VStr (modes s)));
        ("advancedOptions", options_value (options s))].

(** [!state.folder || state.modes.length === 0] *)
Definition nothing_to_do (s : state) : bool :=
  negb (truthy (folder s)) || (length (modes s) =? 0)%nat.

Definition simulate (now : string) : action unit :=
  s ← get_state;
  if nothing_to_do s then mret tt
  else
    log now (VStr "Starting simulation...") (VStr "info") ;;
    showProgress "Running simulation..." ;;
    invoke "simulate" [request s] after_simulate.

Definition categorize (now : string) : action unit :=
  s ← get_state;
  if nothing_to_do s then mret tt
  else
    log now (VStr "Starting categorization...") (VStr "info") ;;
    showProgress "Moving files..." ;;
    invoke "categorize" [request s] after_categorize.

Definition undo (now : string) : action unit :=
  log now (VStr "Starting undo...") (VStr "info") ;;
  showProgress "Restoring files..." ;;
  invoke "undo" [] after_undo.

Definition cancel : action unit :=
  invoke "cancel-operation" [] after_cancelOperation.

(** ** The result panel and the simulation modal *)

Definition showResultPlaceholder : action unit :=
  set "resultPlaceholder" (with_hidden false) ;;
  set "resultContent" (with_hidden true).

(** [(v).toFixed(2)] *)
Definition toFixed (v : value) : result string :=
  match v with
  | VNum repr => Ok (toFixed_2 B repr)
  | VUndefined | VNull => Throw (Error (type_error B v "toFixed"))
  | _ => Throw (Error (not_a_function B "toFixed"))
  end.

(** The [div] of one entry of [folder_breakdown]. *)
Definition folder_item (name : string) (count : value) : node :=
  Element "folder-item"
    (Some ("<span class=" +:+ dq +:+ "folder-item-name" +:+ dq +:+ ">" +:+
           name +:+ "</span><span class=" +:+ dq +:+ "folder-item-count" +:+
           dq +:+ ">" +:+ to_string count +:+ " files</span>"))
    None [].

(** The [li] of one error. *)
Definition error_item (err : value) : node := Element "" None (Some err) [].

(** [errors.forEach(err => ...)]: only an array has a [forEach]. *)
Definition list_errors (errors : value) : action unit :=
  match errors with
  | VArr items =>
      for_each (fun err => appendChild "errorList" (error_item err)) items
  | VUndefined | VNull =>
      lift (Throw (Error (type_error B errors "forEach")))
  | _ => lift (Throw (Error (not_a_function B "result.errors.forEach")))
  end.

(** The loop over the entries of [folder_breakdown], if there is one. *)
Definition list_folders (folder_breakdown : value) : action unit :=
  if truthy folder_breakdown then
    for_each (fun kv : string * value =>
                appendChild "folderList" (folder_item (fst kv) (snd kv)))
      (entries folder_breakdown)
  else mret tt.

(** [if (result.errors && result.errors.length > 0) {...} else {...}] *)
Definition show_errors (errors : value) : action unit :=
  count ← (if truthy errors then lift (get_length errors)
           else mret VUndefined);
  if truthy errors && greater_than_zero count then
    set "errorSection" (with_hidden false) ;;
    set "errorList" (with_nodes []) ;;
    list_errors errors
  else set "errorSection" (with_hidden true).

Definition showResult (result : value) : action unit :=
  set "resultPlaceholder" (with_hidden true) ;;
  set "resultContent" (with_hidden false) ;;
  total_files ← read result "total_files";
  set "resultTotal" (with_text (or_else total_files (VNum "0"))) ;;
  moved_files ← read result "moved_files";
  set "resultMoved" (with_text (or_else moved_files (VNum "0"))) ;;
  folders_created ← read result "folders_created";
  set "resultFolders" (with_text (or_else folders_created (VNum "0"))) ;;
  errors ← read result "errors";
  count ← lift (get_length (or_else errors (VArr [])));
  set "resultErrors" (with_text count) ;;
  duration ← read result "duration";
  fixed ← lift (toFixed (or_else duration (VNum "0")));
  set "resultDuration" (with_text (VStr fixed)) ;;
  set "folderList" (with_nodes []) ;;
  folder_breakdown ← read result "folder_breakdown";
  list_folders folder_breakdown ;;
  errors ← read result "errors";
  show_errors errors.

(** [files.slice(0, 5)] followed by [toShow.forEach]: only an array has
    both. *)
Definition slice_0_5 (files : value) : result (list value) :=
  match files with
  | VArr items => Ok (take 5 items)
  | VUndefined | VNull => Throw (Error (type_error B files "slice"))
  | VStr _ => Throw (Error (not_a_function B "toShow.forEach"))
  | _ => Throw (Error (not_a_function B "files.slice"))
  end.

(** The [div] of one file of the preview. *)
Definition sim_file (file : value) : result node :=
  name ← match file with
         | VStr _ => Ok file
         | _ => get (type_error B) file "name"
         end;
  Ok (Element "sim-file" None
        (Some (VStr (corner +:+ " " +:+ to_string name))) []).

Fixpoint sim_files (files : list value) : result (list node) :=
  match files with
  | [] => Ok []
  | file :: rest =>
      n ← sim_file file;
      ns ← sim_files rest;
      Ok (n :: ns)
  end.

(** The line that stands for the files beyond the fifth. *)
Definition sim_more (n : nat) : list node :=
  if (5 <? n)%nat then
    [Element "sim-file" None
       (Some (VStr (corner +:+ " ... and " +:+ pretty (n - 5) +:+
                    " more files"))) []]
  else [].

(** The [innerHTML] given to the [div] of a folder. *)
Definition sim_folder_name (folder_ : string) : string :=
  "<div class=" +:+ dq +:+ "sim-folder-name" +:+ dq +:+ ">" +:+
  folder_icon +:+ " " +:+ folder_ +:+ "/</div>".

(** The body of the loop over the entries of the plan: the [div] of a
    folder is built, then appended to the preview. *)
Definition sim_folder (folder_ : string) (files : value) : action unit :=
  toShow ← lift (slice_0_5 files);
  shown ← lift (sim_files toShow);
  let more :=
    match files with
    | VArr items => sim_more (length items)
    | _ => []
    end in
  appendChild "simPreview"
    (Element "sim-folder" (Some (sim_folder_name folder_)) None
       (shown ++ more)).

Definition showSimulationModal (result : value) : action unit :=
  total_files ← read result "total_files";
  set "simFiles" (with_text (or_else total_files (VNum "0"))) ;;
  plan ← read result "plan";
  set "simFolders"
    (with_text (VNum (pretty (length (entries (or_else plan (VObj []))))))) ;;
  set "simPreview" (with_nodes []) ;;
  plan ← read result "plan";
  (if truthy plan then
     for_each (fun kv : string * value => sim_folder (fst kv) (snd kv))
       (entries plan)
   else mret tt) ;;
  set "simulationModal" (with_hidden false).

Definition closeModal : action unit :=
  set "simulationModal" (with_hidden true).

Definition confirmSimulation (now : string) : action unit :=
  closeModal ;; categorize now.

(** ** After an [await] *)

Definition resume (now : string) (k : continuation) (result : value)
  : action unit :=
  match k with
  | after_selectFolder =>
      if truthy result then
        modify_state (with_folder result) ;;
        set "folderPath" (with_input_value result) ;;
        log now (VStr ("Folder selected: " +:+ to_string result)) (VStr "info") ;;
        showProgress "Scanning folder..." ;;
        invoke "scan-folder" [result] after_scanFolder
      else mret tt
  | after_scanFolder =>
      hideProgress ;;
      success ← read result "success";
      (if truthy success then
         total_files ← read result "total_files";
         set "fileCount" (with_text (VStr (to_string total_files +:+ " files"))) ;;
         total_size ← read result "total_size";
         set "totalSize" (with_text (VStr (formatSize total_size))) ;;
         set "folderInfo" (with_hidden false) ;;
         total_files ← read result "total_files";
         log now (VStr (to_string total_files +:+ " files found."))
           (VStr "success")
       else
         error ← read result "error";
         log now (VStr ("Scan error: " +:+ to_string error)) (VStr "error")) ;;
      updateButtons
  | after_getLastOperation =>
      modify_state (with_hasUndo (truthy result)) ;;
      updateButtons
  | after_simulate =>
      hideProgress ;;
      success ← read result "success";
      if truthy success then
        showSimulationModal result ;;
        log now (VStr "Simulation completed.") (VStr "success")
      else
        error ← read result "error";
        log now (VStr ("Simulation error: " +:+ to_string error)) (VStr "error")
  | after_categorize =>
      hideProgress ;;
      success ← read result "success";
      if truthy success then
        showResult result ;;
        moved_files ← read result "moved_files";
        log now (VStr ("Categorization completed: " +:+ to_string moved_files
                     +:+ " files moved.")) (VStr "success") ;;
        checkUndo
      else
        error ← read result "error";
        log now (VStr ("Categorization error: " +:+ to_string error))
          (VStr "error")
  | after_undo =>
      hideProgress ;;
      success ← read result "success";
      (if truthy success then
         restored_files ← read result "restored_files";
         log now (VStr ("Undo completed: " +:+
                        to_string (or_else restored_files (VNum "0")) +:+
                        " files restored.")) (VStr "success") ;;
         showResultPlaceholder
       else
         error ← read result "error";
         log now (VStr ("Undo error: " +:+ to_string error)) (VStr "error")) ;;
      checkUndo
  | after_cancelOperation =>
      hideProgress ;;
      log now (VStr "Operation cancelled.") (VStr "warning")
  end.

(** ** Events *)

Inductive button : Type :=
| selectFolderBtn | categorizeBtn | undoBtn | simulateBtn | cancelBtn
| closeSimModal | cancelSim | confirmSim.

Inductive setting : Type :=
| folderLanguage | dateFormat_select | conflictResolution_select
| similarityThreshold_input | criteria1_select | criteria2_select
| logicOperator.

(** What can happen to the renderer. *)
Inductive event : Type :=
| DOMContentLoaded
| Click (b : button)
| ModeChange (i : nat)              (* the user toggles checkbox i *)
| SettingChange (which : setting) (v : string)     (* e.target.value *)
| Settled (call : nat) (o : outcome)        (* the promise of a call *)
| ProgressUpdate (data : value)             (* 'progress-update' *)
| LogMessage (data : value).                (* 'log-message' *)

(** [setupEventListeners] and [setupProgressListeners] *)
Definition listen : action unit :=
  fun w => (Ok tt, with_listening true w).

(** [init] *)
Definition init (now : string) : action unit :=
  listen ;;
  checkUndo ;;
  log now (VStr "Application ready.") (VStr "info").

Definition click (now : string) (b : button) : action unit :=
  match b with
  | selectFolderBtn => selectFolder
  | categorizeBtn => categorize now
  | undoBtn => undo now
  | simulateBtn => simulate now
  | cancelBtn => cancel
  | closeSimModal | cancelSim => closeModal
  | confirmSim => confirmSimulation now
  end.

(** The user toggles the checkbox at position [i]. *)
Definition toggle (i : nat) : action unit :=
  fun w =>
    (Ok tt,
     with_page
       {| elements := elements (page w);
          modeCheckboxes :=
            alter (fun cb => (fst cb, negb (snd cb))) i
              (modeCheckboxes (page w)) |} w).

(** The 'change' listener of the checkbox at position [i], if there is
    one. *)
Definition change_mode (i : nat) : action unit :=
  d ← get_page;
  if (i <? length (modeCheckboxes d))%nat then toggle i ;; updateModes
  else mret tt.

(** [state.options.field = ...] *)
Definition set_option (f : advanced_options -> advanced_options)
  : action unit :=
  modify_state (fun s => with_options (f (options s)) s).

Definition change_setting (which : setting) (v : string) : action unit :=
  match which with
  | folderLanguage => set_option (with_language v)
  | dateFormat_select => set_option (with_dateFormat v)
  | conflictResolution_select => set_option (with_conflictResolution v)
  | similarityThreshold_input =>
      set_option (with_similarityThreshold (parseInt B v)) ;;
      set "similarityValue" (with_text (VStr (v +:+ "%")))
  | criteria1_select =>
      set_option (fun o =>
        with_multiCriteria (with_criteria1 v (multiCriteria o)) o)
  | criteria2_select =>
      set_option (fun o =>
        with_multiCriteria (with_criteria2 v (multiCriteria o)) o)
  | logicOperator =>
      set_option (fun o =>
        with_multiCriteria (with_operator v (multiCriteria o)) o)
  end.

(** The continuation suspended on [call], if any. *)
Fixpoint awaited (call : nat) (l : list (nat * continuation))
  : option continuation :=
  match l with
  | [] => None
  | (c, k) :: rest => if Nat.eqb c call then Some k else awaited call rest
  end.

(** The promise of a call settles: the function suspended on it goes on
    with the value, or, without a [try] around its [await], ends with the
    rejection. *)
Definition settled (now : string) (call : nat) (o : outcome) : action unit :=
  fun w =>
    match awaited call (suspended w) with
    | None => (Ok tt, w)
    | Some k =>
        let w' :=
          with_suspended
            (filter (fun ck => fst ck <> call) (suspended w)) w in
        match o with
        | Resolved v => resume now k v w'
        | Rejected e => (Throw e, w')
        end
    end.

Definition handle (now : string) (ev : event) : action unit :=
  match ev with
  | DOMContentLoaded => init now
  | Click b => click now b
  | ModeChange i => change_mode i
  | SettingChange which v => change_setting which v
  | Settled call o => settled now call o
  | ProgressUpdate data => onProgressUpdate data
  | LogMessage data => onLogMessage now data
  end.

(** One event at the time [now]: before [init] has run only
    'DOMContentLoaded' has a listener, and it fires once; what a listener
    throws is not caught, the world stays as it is at the throw. *)
Definition step (w : world) (ev : string * event) : world :=
  let enabled :=
    match snd ev with
    | DOMContentLoaded => negb (listening w)
    | _ => listening w
    end in
  if enabled then snd (handle (fst ev) (snd ev) w) else w.

Definition exec (evs : list (string * event)) (w : world) : world :=
  fold_left step evs w.

(** The renderer when the script has just been loaded over page [d]. *)
Definition start (d : dom) : world :=
  {| st := initial_state; page := d; invoked := []; suspended := [];
     listening := false |}.

(** ** Properties of the renderer *)

(** The action [m] keeps the property [I] of the world, whether it
    returns or throws. *)
Definition keeps {A : Type} (I : world -> Prop) (m : action A) : Prop :=
  forall w, I w -> I (snd (m w)).

(** The property [I] is about the script's state, the page and the calls
    only, not about what is suspended or listening. *)
Definition observable (I : world -> Prop) : Prop :=
  forall w l b, I w -> I (with_listening b (with_suspended l w)).

(** The [div] that [log] makes. *)
Definition log_entry (now : string) (message type : value) : node :=
  Element
    ("log-entry " +:+
     to_string match type with
               | VUndefined => VStr "info"
               | _ => type
               end)
    None (Some (VStr ("[" +:+ now +:+ "] " +:+ to_string message))) [].

(** The element nodes of the log panel. *)
Definition log_length (w : world) : nat :=
  children_length (nodes (elements (page w) "logContent")).

(** The words with which the log reports that the operation awaited at
    [k] has failed. *)
Definition error_label (k : continuation) : option string :=
  match k with
  | after_scanFolder => Some "Scan error: "
  | after_simulate => Some "Simulation error: "
  | after_categorize => Some "Categorization error: "
  | after_undo => Some "Undo error: "
  | _ => None
  end.

(** The files of one folder of a plan, as a list the preview can show:
    an array without [null] and [undefined]. *)
Definition listable (files : value) : Prop :=
  exists items, files = VArr items /\
    Forall (fun file => file <> VUndefined /\ file <> VNull) items.

(** The name the preview shows for a file: the entry itself when it is
    a string, else its [name]. *)
Definition file_name (file : value) : value :=
  match file with
  | VStr _ => file
  | VObj fields => default VUndefined (assoc "name" fields)
  | _ => VUndefined
  end.

Definition preview_line (file : value) : node :=
  Element "sim-file" None
    (Some (VStr (corner +:+ " " +:+ to_string (file_name file)))) [].

(** The [div] the preview gets for a folder of the plan. *)
Definition preview_block (kv : string * value) : node :=
  Element "sim-folder" (Some (sim_folder_name (fst kv))) None
    match snd kv with
    | VArr items => map preview_line (take 5 items) ++ sim_more (length items)
    | _ => []
    end.

(** A folder is selected and a mode is checked. *)
Definition runnable (s : state) : Prop :=
  truthy (folder s) = true /\ modes s <> [].

(** ** Invariants of the runs of the renderer *)

(** The log panel has at most [n] element children. *)
Definition log_within (n : nat) (w : world) : Prop := log_length w <= n.

(** A call on 'simulate' or 'categorize' carries the request of a state
    in which a folder is selected and a mode is checked. *)
Definition guarded (call : string * list value) : Prop :=
  fst call = "simulate" \/ fst call = "categorize" ->
  exists s, snd call = [request s] /\ runnable s.

Definition calls_guarded (w : world) : Prop :=
  forall call, call ∈ invoked w -> guarded call.

(** Categorize and Simulate are enabled only in a state in which they
    would run. *)
Definition buttons_safe (w : world) : Prop :=
  (disabled (elements (page w) "categorizeBtn") = false -> runnable (st w)) /\
  (disabled (elements (page w) "simulateBtn") = false -> runnable (st w)).

End WithBrowser.

End UI.

(* ===================================================================== *)
(** * A concrete platform, for running the model *)
(* ===================================================================== *)

Module Sample.
Import JS Main.

(** The double quote, and a quoted word. *)
Definition dq : string := String (ascii_of_nat 34) "".
Definition quoted (s : string) : string := dq +:+ s +:+ dq.

Definition percent_50 : string := "{" +:+ quoted "percent" +:+ ":50}".
Definition percent_50_empty_message : string :=
  "{" +:+ quoted "percent" +:+ ":50," +:+ quoted "message" +:+ ":" +:+
  quoted "" +:+ "}".
Definition success_true : string := "{" +:+ quoted "success" +:+ ":true}".
Definition nested_result : string :=
  "{" +:+ quoted "success" +:+ ":true," +:+ quoted "folder_breakdown" +:+
  ":{}}".

(** A [JSON.parse] restricted to the few texts the examples use. *)
Definition parse (s : string) : option value :=
  if String.eqb s "{}" then Some (VObj [])
  else if String.eqb s "null" then Some VNull
  else if String.eqb s percent_50
  then Some (VObj [("percent", VNum "50")])
  else if String.eqb s percent_50_empty_message
  then Some (VObj [("percent", VNum "50"); ("message", VStr "")])
  else if String.eqb s success_true
  then Some (VObj [("success", VBool true)])
  else if String.eqb s nested_result
  then Some (VObj [("success", VBool true); ("folder_breakdown", VObj [])])
  else None.

(** A [JSON.stringify] for strings without characters to escape. *)
Fixpoint stringify_text (v : value) : string :=
  match v with
  | VUndefined | VNull => "null"
  | VBool true => "true"
  | VBool false => "false"
  | VNum r => r
  | VStr s => quoted s
  | VArr items => "[" +:+ join "," (map stringify_text items) +:+ "]"
  | VObj fields =>
      "{" +:+ join ","
        (map (fun kv : string * value =>
                quoted (fst kv) +:+ ":" +:+ stringify_text (snd kv))
           fields) +:+ "}"
  end.

Definition stringify (v : value) : value :=
  match v with
  | VUndefined => VUndefined
  | _ => VStr (stringify_text v)
  end.

Definition platform : Main.platform :=
  {| isPackaged := false;
     resourcesPath := "/opt/app/resources";
     dirname := "/opt/app/src/main";
     userData := "/home/user/.config/file-categorizer";
     path_join := join "/";
     JSON_parse := parse;
     JSON_stringify := stringify;
     type_error := fun v k =>
       "Cannot read properties of " +:+ to_string v +:+
       " (reading '" +:+ k +:+ "')";
     spawn_throws := fun _ _ => None |}.

(** A CSS parser for widths restricted to percentages written with
    digits only, which are written back as they are. *)
Definition css_width (s : string) : option string :=
  match String.rev s with
  | String "%" digits =>
      if negb (String.eqb digits "") &&
         forallb (fun c => (48 <=? nat_of_ascii c)%nat &&
                           (nat_of_ascii c <=? 57)%nat)
           (list_ascii_of_string digits)
      then Some s else None
  | _ => None
  end.

Definition no_logs : logs_dir :=
  {| entries := Some []; contents := fun _ => None |}.

(** A logs directory with two operation logs and other files. *)
Definition some_logs : logs_dir :=
  {| entries := Some ["operation_20240204_154800.json"; "notes.txt";
                      "operation_20240301_090000.json";
                      "operation_old.json.bak"];
     contents := fun f =>
       if String.eqb f
            "/opt/app/src/main/../../logs/operation_20240301_090000.json"
       then Some success_true else None |}.

(** What the renderer passes to 'simulate' and 'categorize'. *)
Definition options : value :=
  VObj [("folderPath", VStr "/data");
        ("modes", VArr [VStr "extension"]);
        ("advancedOptions", VObj [("language", VStr "en")])].

End Sample.

(* ===================================================================== *)
(** * A concrete browser and page, for running the renderer *)
(* ===================================================================== *)

Module SamplePage.
Import JS UI.

(** The engine's functions are given for the texts the examples use:
    numerals without a fraction or an exponent. *)
Definition browser : UI.browser :=
  {| type_error := fun v k =>
       "Cannot read properties of " +:+ to_string v +:+
       " (reading '" +:+ k +:+ "')";
     not_a_function := fun f => f +:+ " is not a function";
     parseInt := fun s => VNum s;
     toFixed_2 := fun repr => repr +:+ ".00";
     string_to_number := fun s => if String.eqb s "" then "0" else s;
     format_scaled := fun v => to_string v +:+ " B";
     css_width := Sample.css_width |}.

(** An element as index.html may define it: shown, enabled, empty. *)
Definition blank : element :=
  {| hidden := false; disabled := false; input_value := VStr "";
     text := VStr ""; width := ""; display := ""; nodes := [] |}.

(** A page whose panels start hidden and whose operation buttons start
    disabled, with three mode checkboxes, none checked. *)
Definition index : dom :=
  {| elements := fun id =>
       if bool_decide (id ∈ ["categorizeBtn"; "simulateBtn"; "undoBtn"])
       then with_disabled true blank
       else if bool_decide (id ∈ ["folderInfo"; "resultContent";
                                  "errorSection"; "progressBar";
                                  "simulationModal"])
       then with_hidden true blank
       else blank;
     modeCheckboxes :=
       [("extension", false); ("size", false); ("multi_criteria", false)] |}.

(** The user picks /data, checks the first mode and simulates. *)
Definition simulate_data : list (string * event) :=
  [("09:00:00", DOMContentLoaded);
   ("09:00:01", Settled 0 (Resolved VNull));
   ("09:00:02", Click selectFolderBtn);
   ("09:00:05", Settled 1 (Resolved (VStr "/data")));
   ("09:00:06", ModeChange 0);
   ("09:00:07", Click simulateBtn)].

(** The renderer after [init], and with the folder dialog open. *)
Definition loaded : world :=
  exec browser [("09:00:00", DOMContentLoaded)] (start index).

Definition choosing : world :=
  exec browser
    [("09:00:00", DOMContentLoaded);
     ("09:00:01", Settled 0 (Resolved VNull));
     ("09:00:02", Click selectFolderBtn)] (start index).

(** A simulation result with seven pictures and one document. *)
Definition pictures : list value :=
  [VStr "a.jpg"; VStr "b.jpg"; VObj [("name", VStr "c.jpg")]; VStr "d.jpg";
   VStr "e.jpg"; VStr "f.jpg"; VStr "g.jpg"].

Definition simulated : value :=
  VObj [("success", VBool true); ("total_files", VNum "8");
        ("plan", VObj [("jpg", VArr pictures);
                       ("pdf", VArr [VStr "report.pdf"])])].

(** One whose second folder is a text instead of a list. *)
Definition simulated_badly : value :=
  VObj [("success", VBool true); ("total_files", VNum "8");
        ("plan", VObj [("jpg", VArr pictures);
                       ("pdf", VStr "report.pdf")])].

(** The result of a categorization without errors. *)
Definition categorized : value :=
  VObj [("success", VBool true); ("total_files", VNum "8");
        ("moved_files", VNum "8"); ("folders_created", VNum "2");
        ("duration", VNum "2");
        ("folder_breakdown", VObj [("jpg", VNum "7"); ("pdf", VNum "1")])].

End SamplePage.

(* ===================================================================== *)
(** * The Python backend: moving files and undoing it *)
(* ===================================================================== *)

(** The repository's src/python/ (categorizer.py, undo_manager.py,
    similarity.py) is what main.js spawns.  Its executor, undo manager and
    similarity engine are described here as the specification states
    them. *)

Module Backend.

(** A path below the scanned folder, as its segments; [[]] is the scanned
    folder itself. *)
Abbreviation path := (list string).

Definition parent (p : path) : path := removelast p.

(** A regular file: its content, and whether the process may move it
    (permission). *)
Record file : Type := File { content : string; movable : bool }.

(** The part of the filesystem below the scanned folder. *)
Record fsys : Type := Fsys { files : gmap path file; dirs : gset path }.

Definition is_dir (fs : fsys) (d : path) : Prop := d = [] \/ d ∈ dirs fs.



Definition rmdir (d : path) (fs : fsys) : fsys :=
  Fsys (files fs) (dirs fs ∖ {[d]}).


(** Modelled from the spec: one move, a local rename (section 1).  It
    fails when the source is no file or may not be moved, and it never
    replaces something: the destination must be free and its folder must
    exist. *)
Definition move (src dst : path) (fs : fsys) : option fsys :=
  match files fs !! src with
  | Some f =>
      if movable f
         && bool_decide (files fs !! dst = None)
         && bool_decide (dst ∉ dirs fs)
         && bool_decide (dst <> [])
         && bool_decide (is_dir fs (parent dst))
      then Some (Fsys (<[dst:=f]> (delete src (files fs))) (dirs fs))
      else None
  | None => None
  end.

(** Modelled from the spec: the OperationEntry of section 3 (source,
    destination, active modes, sequence number), with the folders the
    entry's move created, which section 4.6 lets undo remove. *)
Record OperationEntry : Type := {
  source : path;
  destination : path;
  entry_modes : list string;
  sequence : nat;
  created : list path
}.






(** Modelled from the spec: undoing one entry (section 4.6): the
    destination goes back to the source path; when that move cannot be
    made the entry is skipped, a warning and no abort. *)
Definition restore (fs : fsys) (e : OperationEntry) : fsys :=
  default fs (move (destination e) (source e) fs).

(** All the folders the entries of a log created, in the order of their
    creation. *)
Definition created_folders (ops : list OperationEntry) : list path :=
  concat (map created ops).


Definition empty_dir (fs : fsys) (d : path) : Prop :=
  d ∈ dirs fs /\
  set_Forall (fun p => parent p <> d) (dom (files fs)) /\
  set_Forall (fun c => parent c <> d) (dirs fs).

Definition remove_if_empty (fs : fsys) (d : path) : fsys :=
  if bool_decide (empty_dir fs d) then rmdir d fs else fs.

(** Modelled from the spec: [undo] of section 4.6: the entries are
    replayed in reverse order, then every folder the entries created that
    is now empty is removed, the innermost and latest first, so that a
    folder emptied by the removal of its subfolders goes as well. *)
Definition undo (ops : list OperationEntry) (fs : fsys) : fsys :=
  fold_left remove_if_empty (reverse (created_folders ops))
    (fold_left restore (reverse ops) fs).


(** ** Small folders for examples *)







End Backend.
(* ===================================================================== *)
(** * The Python backend: name similarity and clustering *)
(* ===================================================================== *)

Module Similarity.

Local Open Scope Z_scope.

(** Modelled from the spec: the three interchangeable algorithms of
    section 4.3 (similarity.py is not among the sources). *)
Inductive algorithm : Type := Levenshtein | JaroWinkler | LCS.

(** A score in [0, 1] as an exact fraction with a positive denominator;
    the specification's comparison of "score × 100" with the threshold is
    then a comparison of integers. *)
Record ratio : Type := Ratio { num : Z; den : Z }.

Definition one : ratio := Ratio 1 1.
Definition zero : ratio := Ratio 0 1.

(** [score × 100 >= threshold] *)
Definition reaches (threshold : Z) (r : ratio) : bool :=
  threshold * den r <=? 100 * num r.

(** [r > r0] *)
Definition better (r r0 : ratio) : bool :=
  num r0 * den r <? num r * den r0.

(** Modelled from the spec: "classic edit distance". *)
Fixpoint levenshtein (a : list ascii) : list ascii -> nat :=
  fix inner (b : list ascii) : nat :=
    match a with
    | [] => length b
    | x :: a' =>
        match b with
        | [] => length a
        | y :: b' =>
            Nat.min (Nat.min (S (levenshtein a' b)) (S (inner b')))
                    (levenshtein a' b' + (if Ascii.eqb x y then 0 else 1))%nat
        end
    end.

(** Modelled from the spec: "1 − distance / max(len(a), len(b))". *)
Definition levenshtein_score (a b : list ascii) : ratio :=
  let longest := Nat.max (length a) (length b) in
  if Nat.eqb longest 0 then one
  else Ratio (Z.of_nat longest - Z.of_nat (levenshtein a b)) (Z.of_nat longest).

(** The length of a longest common subsequence. *)
Fixpoint lcs (a : list ascii) : list ascii -> nat :=
  fix inner (b : list ascii) : nat :=
    match a with
    | [] => 0%nat
    | x :: a' =>
        match b with
        | [] => 0%nat
        | y :: b' =>
            if Ascii.eqb x y then S (lcs a' b')
            else Nat.max (lcs a' b) (inner b')
        end
    end.

(** Modelled from the spec: "2·|LCS| / (len(a)+len(b))". *)
Definition lcs_score (a b : list ascii) : ratio :=
  let total := (length a + length b)%nat in
  if Nat.eqb total 0 then one
  else Ratio (2 * Z.of_nat (lcs a b)) (Z.of_nat total).

(** Jaro's matching: for the character [x] of [a], the first position of
    [b] between [lo] and [hi] that holds [x] and is not matched yet is
    marked. *)
Fixpoint claim (x : ascii) (lo hi j : nat) (b : list ascii)
    (used : list bool) : option (list bool) :=
  match b, used with
  | y :: b', u :: used' =>
      if (lo <=? j)%nat && (j <=? hi)%nat && negb u && Ascii.eqb x y
      then Some (true :: used')
      else cons u <$> claim x lo hi (S j) b' used'
  | _, _ => None
  end.

(** The characters of [a], from position [i] on, looked up in order in
    windows of radius [w]; the result flags the matched positions of [a]
    and of [b]. *)
Fixpoint scan (w i : nat) (a b : list ascii) (used : list bool)
  : list bool * list bool :=
  match a with
  | [] => ([], used)
  | x :: a' =>
      match claim x (i - w) (i + w) 0 b used with
      | Some used' =>
          let r := scan w (S i) a' b used' in (true :: fst r, snd r)
      | None =>
          let r := scan w (S i) a' b used in (false :: fst r, snd r)
      end
  end.

(** The flagged characters, in order. *)
Fixpoint picked (flags : list bool) (l : list ascii) : list ascii :=
  match flags, l with
  | true :: flags', x :: l' => x :: picked flags' l'
  | false :: flags', _ :: l' => picked flags' l'
  | _, _ => []
  end.

Fixpoint count_true (flags : list bool) : nat :=
  match flags with
  | [] => 0
  | true :: rest => S (count_true rest)
  | false :: rest => count_true rest
  end.

(** The positions at which two sequences of matched characters differ;
    half of this number is the number of transpositions. *)
Fixpoint mismatches (u v : list ascii) : nat :=
  match u, v with
  | x :: u', y :: v' =>
      ((if Ascii.eqb x y then 0 else 1) + mismatches u' v')%nat
  | _, _ => 0%nat
  end.

Definition window (la lb : nat) : nat := (Nat.max la lb / 2 - 1)%nat.

(** Modelled from the spec: "standard Jaro similarity",
    (m/|a| + m/|b| + (m − t)/m) / 3 with [m] matches and [t] = T/2
    transpositions, here over the common denominator 6·|a|·|b|·m. *)
Definition jaro (a b : list ascii) : ratio :=
  let la := length a in
  let lb := length b in
  if Nat.eqb la 0 && Nat.eqb lb 0 then one
  else
    let flags := scan (window la lb) 0 a b (repeat false lb) in
    let m := Z.of_nat (count_true (fst flags)) in
    if m =? 0 then zero
    else
      let T := Z.of_nat (mismatches (picked (fst flags) a) (picked (snd flags) b)) in
      Ratio (2 * m * m * Z.of_nat lb + 2 * m * m * Z.of_nat la
             + (2 * m - T) * Z.of_nat la * Z.of_nat lb)
            (6 * Z.of_nat la * Z.of_nat lb * m).

Fixpoint common_prefix (a b : list ascii) : nat :=
  match a, b with
  | x :: a', y :: b' => if Ascii.eqb x y then S (common_prefix a' b') else 0
  | _, _ => 0
  end%nat.

(** Modelled from the spec: the prefix boost, "boost weight 0.1, applied to
    a shared prefix of up to 4 characters": j + l·0.1·(1 − j). *)
Definition jaro_winkler (a b : list ascii) : ratio :=
  let j := jaro a b in
  let l := Z.of_nat (Nat.min 4 (common_prefix a b)) in
  Ratio ((10 - l) * num j + l * den j) (10 * den j).

Definition score (alg : algorithm) (a b : string) : ratio :=
  let a := list_ascii_of_string a in
  let b := list_ascii_of_string b in
  match alg with
  | Levenshtein => levenshtein_score a b
  | JaroWinkler => jaro_winkler a b
  | LCS => lcs_score a b
  end.

(** Modelled from the spec: a SimilarityCluster of section 3: the indices
    of its records, and the stem the later stems are compared with, which
    is the stem that started the cluster. *)
Record cluster : Type := { representative : string; members : list nat }.

Definition add_member (k : nat) (c : cluster) : cluster :=
  {| representative := representative c; members := members c ++ [k] |}.

(** Modelled from the spec: "join the cluster with the highest score ≥
    threshold (ties broken by earliest-created cluster)": the index of that
    cluster among [cs], which are in creation order. *)
Fixpoint best (alg : algorithm) (threshold : Z) (s : string)
    (cs : list cluster) (i : nat) (cur : option (nat * ratio)) : option nat :=
  match cs with
  | [] => fst <$> cur
  | c :: rest =>
      let r := score alg s (representative c) in
      if reaches threshold r
         && match cur with
            | None => true
            | Some (_, r0) => better r r0
            end
      then best alg threshold s rest (S i) (Some (i, r))
      else best alg threshold s rest (S i) cur
  end.

(** "... else start a new singleton cluster." *)
Definition place (alg : algorithm) (threshold : Z) (cs : list cluster)
    (k : nat) (s : string) : list cluster :=
  match best alg threshold s cs 0 None with
  | Some i => alter (add_member k) i cs
  | None => cs ++ [{| representative := s; members := [k] |}]
  end.



(** Some cluster of [cs] would take the stem [s] at this threshold. *)
Definition absorbed (alg : algorithm) (t : Z) (cs : list cluster)
    (s : string) : Prop :=
  exists c, c ∈ cs /\ reaches t (score alg s (representative c)) = true.


End Similarity.
(* ===================================================================== *)
(** * Facts *)
(* ===================================================================== *)
Module StringFacts.
Import JS.

Lemma substring_0_all (s : string) : String.substring 0 (String.length s) s = s.
Proof. induction s as [|c s IH]; simpl; [done | by rewrite IH]. Qed.

Lemma substring_split (n : nat) (s : string) :
  s = String.substring 0 n s +:+ substring_from n s.
Proof.
  unfold substring_from. revert n.
  induction s as [|c s IH]; intros [|n]; simpl; try done.
  - by rewrite substring_0_all.
  - change (String c s = String c (String.substring 0 n s +:+
      String.substring n (String.length s - n) s)).
    f_equal. apply IH.
Qed.

Lemma substring_0_app (p r : string) :
  String.substring 0 (String.length p) (p +:+ r) = p.
Proof. induction p as [|c p IH]; simpl; [by destruct r | by rewrite IH]. Qed.

Lemma string_length_app (p r : string) :
  String.length (p +:+ r) = String.length p + String.length r.
Proof. induction p as [|c p IH]; simpl; [done | by rewrite IH]. Qed.

Lemma string_app_nil_r (s : string) : s +:+ "" = s.
Proof.
  induction s as [|c s IH]; [done|].
  change (String c (s +:+ "") = String c s). by rewrite IH.
Qed.

Lemma string_app_assoc (a b c : string) : (a +:+ b) +:+ c = a +:+ b +:+ c.
Proof.
  induction a as [|x a IH]; [done|].
  change (String x ((a +:+ b) +:+ c) = String x (a +:+ b +:+ c)).
  by rewrite IH.
Qed.

Lemma substring_from_app (p r : string) :
  substring_from (String.length p) (p +:+ r) = r.
Proof.
  unfold substring_from. rewrite string_length_app.
  replace (String.length p + String.length r - String.length p)
    with (String.length r) by lia.
  induction p as [|c p IH]; simpl; [apply substring_0_all | apply IH].
Qed.

Lemma startsWith_iff (p s : string) :
  startsWith p s = true <-> exists rest, s = p +:+ rest.
Proof.
  unfold startsWith. rewrite String.prefix_correct. split.
  - intros H. exists (substring_from (String.length p) s).
    rewrite <- H at 1. apply substring_split.
  - intros [rest ->]. apply substring_0_app.
Qed.

Lemma endsWith_iff (p s : string) :
  endsWith p s = true <-> exists pre, s = pre +:+ p.
Proof.
  unfold endsWith. rewrite andb_true_iff, Nat.leb_le, String.eqb_eq. split.
  - intros [_ H].
    exists (String.substring 0 (String.length s - String.length p) s).
    pose proof (substring_split (String.length s - String.length p) s) as E.
    by rewrite H in E.
  - intros [pre ->]. rewrite string_length_app. split; [lia |].
    replace (String.length pre + String.length p - String.length p)
      with (String.length pre) by lia.
    apply substring_from_app.
Qed.

Lemma indexOf_prefix (p rest : string) : indexOf p (p +:+ rest) = Some 0.
Proof.
  unfold indexOf.
  assert (Hp : String.prefix p (p +:+ rest) = true)
    by (apply String.prefix_correct, substring_0_app).
  destruct (p +:+ rest) as [|c s] eqn:E; simpl in *.
  - destruct p; [done | discriminate].
  - by rewrite Hp.
Qed.

Lemma replace_prefix (p rest : string) : replace p "" (p +:+ rest) = rest.
Proof.
  unfold replace. rewrite indexOf_prefix. simpl.
  assert (String.substring 0 0 (p +:+ rest) = "") as -> by (by destruct (p +:+ rest)).
  apply substring_from_app.
Qed.


Lemma substring_from_S (n : nat) (c : ascii) (s : string) :
  substring_from (S n) (String c s) = substring_from n s.
Proof. reflexivity. Qed.

Lemma substring_mid (pre p post : string) :
  String.substring (String.length pre) (String.length p) (pre +:+ p +:+ post)
    = p.
Proof.
  induction pre as [|c pre IH]; [exact (substring_0_app p post) | exact IH].
Qed.

Lemma substring_0_length (n : nat) (s : string) :
  n <= String.length s -> String.length (String.substring 0 n s) = n.
Proof.
  revert n. induction s as [|c s IH]; intros [|n] H; simpl in *; try lia.
  rewrite IH; lia.
Qed.

Lemma substring_at (i k : nat) (s p : string) :
  String.substring i k s = p -> String.length p = k ->
  s = String.substring 0 i s +:+ p +:+ substring_from (i + k) s.
Proof.
  revert i. induction s as [|c s IH]; intros i H Hk.
  - destruct i, k; simpl in H; subst p; try done.
  - destruct i as [|i].
    + clear IH. cbn [Nat.add]. rewrite <- H.
      change (String.substring 0 0 (String c s)) with "".
      change ("" +:+ String.substring 0 k (String c s) +:+ substring_from k (String c s))
        with (String.substring 0 k (String c s) +:+ substring_from k (String c s)).
      apply substring_split.
    + cbn [Nat.add]. rewrite substring_from_S.
      change (String.substring 0 (S i) (String c s))
        with (String c (String.substring 0 i s)).
      change (String c (String.substring 0 i s) +:+ p +:+ substring_from (i + k) s)
        with (String c (String.substring 0 i s +:+ p +:+ substring_from (i + k) s)).
      f_equal. apply IH; [exact H | exact Hk].
Qed.

(** [indexOf] finds the first occurrence. *)
Lemma indexOf_Some (p s : string) (i : nat) :
  indexOf p s = Some i ->
  s = String.substring 0 i s +:+ p +:+ substring_from (i + String.length p) s.
Proof.
  intros H. apply String.index_correct1 in H. by apply substring_at.
Qed.

Lemma indexOf_None (p s : string) :
  p <> "" -> indexOf p s = None -> ~ occurs p s.
Proof.
  intros Hp H (pre & post & ->).
  apply (String.index_correct3 0 (String.length pre) p _ H Hp); [lia|].
  apply substring_mid.
Qed.

Lemma indexOf_first (p s : string) (i : nat) (pre post : string) :
  indexOf p s = Some i -> s = pre +:+ p +:+ post -> i <= String.length pre.
Proof.
  intros H ->. destruct (Nat.le_gt_cases i (String.length pre)) as [|Hlt]; [done|].
  exfalso.
  apply (String.index_correct2 0 i p _ H (String.length pre)); [lia | done |].
  apply substring_mid.
Qed.

Lemma substring_0_length_le (n : nat) (s : string) :
  String.length (String.substring 0 n s) <= n.
Proof.
  revert n. induction s as [|c s IH]; intros [|n]; simpl; try lia.
  specialize (IH n). lia.
Qed.





End StringFacts.
Module MainFacts.
Import JS Main StringFacts.

Section Arguments.
Variable P : platform.

Lemma get_twice (v : value) (k1 k2 : string) (a : value) :
  get (type_error P) v k1 = Ok a ->
  exists b, get (type_error P) v k2 = Ok b.
Proof. destruct v; simpl; intros H; try discriminate; eauto. Qed.

Lemma get_throw_same (v : value) (k1 : string) (e : exn) :
  get (type_error P) v k1 = Throw e ->
  e = Error (type_error P v k1) /\ (v = VUndefined \/ v = VNull).
Proof. destruct v; simpl; intros H; try discriminate; inversion H; auto. Qed.

(** C1. For one and the same options object, the 'simulate' and the
    'categorize' handler either both fail with the same error before
    anything is spawned, or build argument lists that agree on the folder,
    the serialized modes, the serialized options and the logs path and
    differ only in the leading flag, "--simulate" against "--execute";
    and the child each of them spawns is the same program with the same
    script followed by exactly that list. *)
Theorem simulate_categorize_same_arguments (options : value) :
  match simulate_args P options, categorize_args P options with
  | Ok sim, Ok exe =>
      exists folderPath modes advancedOptions,
        get (type_error P) options "folderPath" = Ok folderPath /\
        get (type_error P) options "modes" = Ok modes /\
        get (type_error P) options "advancedOptions" = Ok advancedOptions /\
        sim = VStr "--simulate" :: shared_args P folderPath modes advancedOptions /\
        exe = VStr "--execute" :: shared_args P folderPath modes advancedOptions /\
        forall st : state,
          spawn_throws P (getPythonPath P) (VStr (getCategorizerPath P) :: sim) = None ->
          spawn_throws P (getPythonPath P) (VStr (getCategorizerPath P) :: exe) = None ->
          exists r1 r2 : run,
            runs (handle P Simulate options st) = (runs st ++ [r1])%list /\
            runs (handle P Categorize options st) = (runs st ++ [r2])%list /\
            file r1 = file r2 /\
            argv r1 = VStr (getCategorizerPath P) :: sim /\
            argv r2 = VStr (getCategorizerPath P) :: exe
  | Throw e1, Throw e2 =>
      e1 = e2 /\
      forall st : state,
        runs (handle P Simulate options st) = runs st /\
        runs (handle P Categorize options st) = runs st /\
        replies (handle P Simulate options st) =
          (replies st ++ [(invocations st, failure e1)])%list /\
        replies (handle P Categorize options st) =
          (replies st ++ [(invocations st, failure e1)])%list
  | _, _ => False
  end.
Proof.
  unfold handle.
  destruct (simulate_args P options) as [sim|e1] eqn:Hs;
    destruct (categorize_args P options) as [exe|e2] eqn:Hc;
    unfold simulate_args, categorize_args in Hs, Hc;
    destruct (get (type_error P) options "folderPath") as [f|?] eqn:Hf;
    simpl in Hs, Hc; try discriminate;
    destruct (get (type_error P) options "modes") as [m|?] eqn:Hm;
    simpl in Hs, Hc; try discriminate;
    destruct (get (type_error P) options "advancedOptions") as [a|?] eqn:Ha;
    simpl in Hs, Hc; try discriminate.
  1: { inversion Hs; inversion Hc; subst. exists f, m, a.
       repeat split; try reflexivity.
       intros st H1 H2. unfold try_run, runPython.
       unfold shared_args in H1, H2. rewrite H1, H2. simpl.
       eexists _, _. repeat split; reflexivity. }
  all: inversion Hs; inversion Hc; subst; (split; [reflexivity|]);
    intros st; unfold try_run; simpl; auto.
Qed.

End Arguments.
Section LastOperation.
Variable P : platform.

Lemma is_operation_log_iff (f : string) :
  is_operation_log f = true <-> operation_log_name f.
Proof.
  unfold is_operation_log, operation_log_name.
  rewrite andb_true_iff, startsWith_iff, endsWith_iff. split.
  - intros [[rest ->] [pre H]].
    do 10 (destruct pre as [|? pre]; [discriminate H | injection H as <- H]).
    exists pre. f_equal. exact H.
  - intros [mid ->]. split; [by eexists |].
    by exists ("operation_" +:+ mid).
Qed.

Lemma greatest_after_sort_reverse (L : list string) :
  match reverse (sort L) with
  | [] => L = []
  | first :: _ => first ∈ L /\ forall f, f ∈ L -> (f ≤ first)%string
  end.
Proof.
  unfold sort.
  pose proof (merge_sort_Permutation String.le L) as Hperm.
  pose proof (StronglySorted_merge_sort String.le L) as Hsorted.
  pose proof (head_reverse (merge_sort String.le L)) as Hhead.
  destruct (reverse (merge_sort String.le L)) as [|first tl]; simpl in Hhead.
  - symmetry in Hhead. apply last_None in Hhead. rewrite Hhead in Hperm.
    symmetry in Hperm. by apply Permutation_nil_r in Hperm.
  - symmetry in Hhead. apply last_Some in Hhead as [l' Hl'].
    rewrite Hl' in Hperm, Hsorted. split.
    + rewrite <- Hperm. set_solver.
    + intros f Hf. rewrite <- Hperm in Hf.
      apply elem_of_app in Hf as [Hf|Hf].
      * eapply StronglySorted_app_1_elem_of; [exact Hsorted | exact Hf |].
        set_solver.
      * apply list_elem_of_singleton in Hf as ->. reflexivity.
Qed.

(** C3. 'get-last-operation' never throws: it returns [null] when the
    logs directory cannot be listed or holds no name of the form
    operation_*.json; otherwise it selects the greatest such name in
    code-unit (lexicographic) order and returns that file's parsed content,
    or [null] when the file cannot be read or parsed. *)
Theorem get_last_operation_reads_greatest_log (l : logs_dir) :
  ((entries l = None \/
    exists names, entries l = Some names /\
      forall f, f ∈ names -> ~ operation_log_name f) /\
   get_last_operation P l = VNull)
  \/
  (exists names latest,
     entries l = Some names /\
     latest ∈ names /\
     operation_log_name latest /\
     (forall f, f ∈ names -> operation_log_name f -> (f ≤ latest)%string) /\
     get_last_operation P l =
       match contents l (path_join P [getLogsPath P; latest]) with
       | Some text =>
           match JSON_parse P text with
           | Some v => v
           | None => VNull
           end
       | None => VNull
       end).
Proof.
  unfold get_last_operation.
  destruct (entries l) as [names|]; [| left; auto].
  pose proof (greatest_after_sort_reverse
    (filter (fun f => is_operation_log f = true) names)) as H.
  destruct (reverse _) as [|first tl].
  - left. split; [| reflexivity]. right. exists names. split; [reflexivity|].
    intros f Hf Hname. apply is_operation_log_iff in Hname.
    assert (Hin : f ∈ filter (fun f => is_operation_log f = true) names)
      by (apply list_elem_of_filter; auto).
    rewrite H in Hin. by apply not_elem_of_nil in Hin.
  - right. destruct H as [Hin Hmax].
    apply list_elem_of_filter in Hin as [Hlog Hin].
    exists names, first. split; [reflexivity|]. split; [exact Hin|].
    split; [by apply is_operation_log_iff|]. split.
    + intros f Hf Hname. apply Hmax, list_elem_of_filter.
      split; [by apply is_operation_log_iff | exact Hf].
    + destruct (contents l _); [| reflexivity].
      by destruct (JSON_parse P _).
Qed.

End LastOperation.
(** Projections of an updated state. *)
Ltac fields :=
  unfold reply, mark_exited;
  cbn [pythonProcess runs kills sent replies invocations window_ok logs
       with_pythonProcess with_runs with_kills with_sent with_replies
       with_invocations with_window_ok with_logs
       owner file argv stdout stderr settled exited
       with_stdout with_stderr with_settled with_exited
       from_option id].

Section Traces.
Variable P : platform.

Lemma with_sent_id (st : state) : with_sent (sent st) st = st.
Proof. by destruct st. Qed.

(** The progress loop only ever appends to what was sent. *)
Lemma forward_progress_frame (lines : list string) (st : state) :
  exists extra, forward_progress P lines st = with_sent (sent st ++ extra) st.
Proof.
  revert st. induction lines as [|line rest IH]; intros st; simpl.
  - exists []. by rewrite app_nil_r, with_sent_id.
  - destruct (startsWith "PROGRESS:" line); [| apply IH].
    destruct (JSON_parse P _) as [v|].
    2: { exists []. by rewrite app_nil_r, with_sent_id. }
    unfold send. destruct (window_ok st) eqn:Hw.
    2: { exists []. by rewrite app_nil_r, with_sent_id. }
    destruct (IH (with_sent (sent st ++ [("progress-update", v)]) st))
      as [extra ->].
    exists ([("progress-update", v)] ++ extra). simpl.
    by rewrite <- app_assoc.
Qed.

Lemma exec_snoc (evs : list event) (ev : event) (st : state) :
  exec P (evs ++ [ev]) st = step P (exec P evs st) ev.
Proof. unfold exec. by rewrite fold_left_app. Qed.

Lemma settle_settled (p : pid) (o o1 : outcome) (st : state) (r : run) :
  runs st !! p = Some r -> settled r = Some o1 -> settle p o st = st.
Proof. intros H1 H2. unfold settle. by rewrite H1, H2. Qed.

Lemma settle_unsettled (p : pid) (o : outcome) (st : state) (r : run) :
  runs st !! p = Some r -> settled r = None ->
  settle p o st =
    reply (owner r) (handler_return o)
      (with_runs (<[p:=with_settled (Some o) r]> (runs st)) st).
Proof. intros H1 H2. unfold settle. by rewrite H1, H2. Qed.

Lemma try_run_frame (id : nat) (args : result (list value)) (st : state) :
  (runs (try_run P id args st) = runs st /\
   pythonProcess (try_run P id args st) = pythonProcess st /\
   kills (try_run P id args st) = kills st /\
   exists e, replies (try_run P id args st) = replies st ++ [(id, failure e)]) \/
  (exists r, runs (try_run P id args st) = runs st ++ [r] /\
     settled r = None /\ exited r = false /\ owner r = id /\
     pythonProcess (try_run P id args st) = Some (length (runs st)) /\
     kills (try_run P id args st) = kills st /\
     replies (try_run P id args st) = replies st).
Proof.
  unfold try_run, runPython. destruct args as [a|e]; simpl.
  - destruct (spawn_throws P _ _); simpl; [left; eauto 6 |].
    right. eexists. repeat split; reflexivity.
  - left; eauto 6.
Qed.

(** How one event changes a run that already exists: its owner and
    command line stay, an exited run stays exited, a settled promise keeps
    its outcome, and an unsettled one is settled only by its own 'close'
    or 'error', which at once resumes the awaiting handler. *)
Lemma step_run (st : state) (ev : event) (p : pid) (r : run) :
  runs st !! p = Some r ->
  exists r',
    runs (step P st ev) !! p = Some r' /\
    owner r' = owner r /\ file r' = file r /\ argv r' = argv r /\
    (exited r = true -> exited r' = true) /\
    match settled r with
    | Some o => settled r' = Some o /\ replies (step P st ev) = replies st \/
                settled r' = Some o /\ exists x, replies (step P st ev) = replies st ++ [x]
    | None =>
        match settled r' with
        | None => True
        | Some o =>
            replies (step P st ev) = replies st ++ [(owner r, handler_return o)] /\
            ((exists code, ev = Close p code /\
                o = close_outcome P code (stdout r) (stderr r)) \/
             (exists e, ev = ChildError p e /\ o = Rejected e))
        end
    end.
Proof.
  intros Hr.
  assert (Hsame : forall st', runs st' !! p = Some r ->
            (replies st' = replies st \/ exists x, replies st' = replies st ++ [x]) ->
            exists r', runs st' !! p = Some r' /\
              owner r' = owner r /\ file r' = file r /\ argv r' = argv r /\
              (exited r = true -> exited r' = true) /\
              match settled r with
              | Some o => settled r' = Some o /\ replies st' = replies st \/
                          settled r' = Some o /\ exists x, replies st' = replies st ++ [x]
              | None =>
                  match settled r' with
                  | None => True
                  | Some o =>
                      replies st' = replies st ++ [(owner r, handler_return o)] /\
                      ((exists code, ev = Close p code /\
                          o = close_outcome P code (stdout r) (stderr r)) \/
                       (exists e, ev = ChildError p e /\ o = Rejected e))
                  end
              end).
  { intros st' H1 H2. exists r. repeat split; auto.
    destruct (settled r); [|done]. destruct H2; auto. }
  assert (Hupd : forall st' r2, runs st' !! p = Some r2 ->
            owner r2 = owner r -> file r2 = file r -> argv r2 = argv r ->
            (exited r = true -> exited r2 = true) -> settled r2 = settled r ->
            (replies st' = replies st \/ exists x, replies st' = replies st ++ [x]) ->
            exists r', runs st' !! p = Some r' /\
              owner r' = owner r /\ file r' = file r /\ argv r' = argv r /\
              (exited r = true -> exited r' = true) /\
              match settled r with
              | Some o => settled r' = Some o /\ replies st' = replies st \/
                          settled r' = Some o /\ exists x, replies st' = replies st ++ [x]
              | None =>
                  match settled r' with
                  | None => True
                  | Some o =>
                      replies st' = replies st ++ [(owner r, handler_return o)] /\
                      ((exists code, ev = Close p code /\
                          o = close_outcome P code (stdout r) (stderr r)) \/
                       (exists e, ev = ChildError p e /\ o = Rejected e))
                  end
              end).
  { intros st' r2 H1 H2 H3 H4 H5 H6 H7. exists r2. repeat split; auto.
    rewrite H6. destruct (settled r); [|done]. destruct H7; auto. }
  pose proof (lookup_lt_Some _ _ _ Hr) as Hlt.
  destruct ev as [ch arg|q data|q data|q code|q err| |l]; cbn [step].
  - (* an IPC call: at most a new run is appended *)
    unfold handle.
    assert (Htry : forall args,
      let st' := try_run P (invocations st) args
                   (with_invocations (S (invocations st)) st) in
      runs st' !! p = Some r /\
      (replies st' = replies st \/ exists x, replies st' = replies st ++ [x])).
    { intros args st'. subst st'.
      destruct (try_run_frame (invocations st) args
                  (with_invocations (S (invocations st)) st))
        as [(-> & _ & _ & x & ->)|[r0 (-> & _ & _ & _ & _ & _ & ->)]]; simpl.
      - eauto.
      - split; [by apply lookup_app_l_Some | auto]. }
    destruct ch.
    1-4: (edestruct Htry as [H1 H2]; apply Hsame; [exact H1 | exact H2]).
    + apply Hsame; simpl; eauto.
    + unfold cancel_operation.
      destruct (pythonProcess (with_invocations (S (invocations st)) st));
        apply Hsame; simpl; eauto.
  - (* stdout data *)
    unfold on_stdout_data. cbv zeta. destruct (runs st !! q) as [rq|] eqn:Hq; [| by apply Hsame; auto].
    destruct (forward_progress_frame (split newline data)
      (with_runs (<[q:=with_stdout (stdout rq +:+ data) rq]> (runs st)) st))
      as [extra ->].
    destruct (decide (q = p)) as [->|Hne].
    + rewrite Hr in Hq. inversion Hq; subst rq.
      eapply Hupd; simpl; [by apply list_lookup_insert_eq | auto..].
    + apply Hsame; simpl; [by rewrite list_lookup_insert_ne | auto].
  - (* stderr data *)
    unfold on_stderr_data. cbv zeta. destruct (runs st !! q) as [rq|] eqn:Hq; [| by apply Hsame; auto].
    assert (Hsend : forall payload st1, replies st1 = replies st ->
      replies (default st1 (send "log-message" payload st1)) = replies st /\
      runs (default st1 (send "log-message" payload st1)) = runs st1).
    { intros payload st1 H1. unfold send. by destruct (window_ok st1). }
    destruct (decide (q = p)) as [->|Hne].
    + rewrite Hr in Hq. inversion Hq; subst rq.
      match goal with |- context [default ?s (send _ ?pl ?s)] =>
        destruct (Hsend pl s eq_refl) as [Hs1 Hs2] end.
      eapply Hupd; [rewrite Hs2; simpl; by apply list_lookup_insert_eq | simpl; auto ..].
    + match goal with |- context [default ?s (send _ ?pl ?s)] =>
        destruct (Hsend pl s eq_refl) as [Hs1 Hs2] end.
      apply Hsame; [rewrite Hs2; simpl; by rewrite list_lookup_insert_ne | auto].
  - (* close *)
    unfold on_close. cbv zeta. destruct (runs st !! q) as [rq|] eqn:Hq; [| by apply Hsame; auto].
    assert (Hq1 : runs (with_pythonProcess None (mark_exited q st)) !! q
                  = Some (with_exited true rq))
      by (unfold mark_exited; cbn [runs with_pythonProcess with_runs];
          by rewrite list_lookup_alter_eq, Hq).
    destruct (settled rq) as [o1|] eqn:Hs.
    + erewrite settle_settled; [| exact Hq1 | exact Hs].
      destruct (decide (q = p)) as [->|Hne].
      * rewrite Hr in Hq. inversion Hq; subst rq.
        eapply Hupd; [exact Hq1 | simpl; auto ..].
      * apply Hsame; simpl; [by rewrite list_lookup_alter_ne | auto].
    + erewrite settle_unsettled; [| exact Hq1 | exact Hs].
      destruct (decide (q = p)) as [->|Hne].
      * rewrite Hr in Hq. inversion Hq; subst rq.
        eexists. split.
        { simpl. apply list_lookup_insert_eq. by rewrite length_alter. }
        simpl. rewrite Hs. repeat split; auto. left. eauto.
      * apply Hsame; simpl; [| eauto].
        by rewrite list_lookup_insert_ne, list_lookup_alter_ne.
  - (* error *)
    unfold on_error. cbv zeta. destruct (runs st !! q) as [rq|] eqn:Hq; [| by apply Hsame; auto].
    assert (Hq1 : runs (with_pythonProcess None (mark_exited q st)) !! q
                  = Some (with_exited true rq))
      by (unfold mark_exited; cbn [runs with_pythonProcess with_runs];
          by rewrite list_lookup_alter_eq, Hq).
    destruct (settled rq) as [o1|] eqn:Hs.
    + erewrite settle_settled; [| exact Hq1 | exact Hs].
      destruct (decide (q = p)) as [->|Hne].
      * rewrite Hr in Hq. inversion Hq; subst rq.
        eapply Hupd; [exact Hq1 | simpl; auto ..].
      * apply Hsame; simpl; [by rewrite list_lookup_alter_ne | auto].
    + erewrite settle_unsettled; [| exact Hq1 | exact Hs].
      destruct (decide (q = p)) as [->|Hne].
      * rewrite Hr in Hq. inversion Hq; subst rq.
        eexists. split.
        { simpl. apply list_lookup_insert_eq. by rewrite length_alter. }
        simpl. rewrite Hs. repeat split; auto. right. eauto.
      * apply Hsame; simpl; [| eauto].
        by rewrite list_lookup_insert_ne, list_lookup_alter_ne.
  - apply Hsame; simpl; auto.
  - apply Hsame; simpl; auto.
Qed.
End Traces.
Section Reporting.
Variable P : platform.

Lemma settle_replies (p : pid) (o : outcome) (st : state) :
  exists extra, replies (settle p o st) = replies st ++ extra /\
    pythonProcess (settle p o st) = pythonProcess st /\
    kills (settle p o st) = kills st /\
    length (runs (settle p o st)) = length (runs st).
Proof.
  unfold settle. destruct (runs st !! p) as [r|]; [destruct (settled r)|].
  - exists []. by rewrite app_nil_r.
  - eexists. fields. by rewrite length_insert.
  - exists []. by rewrite app_nil_r.
Qed.

Lemma step_replies (st : state) (ev : event) :
  exists extra, replies (step P st ev) = replies st ++ extra.
Proof.
  destruct ev as [ch arg|q data|q data|q code|q err| |l]; cbn [step].
  - unfold handle.
    assert (Htry : forall args, exists extra,
      replies (try_run P (invocations st) args
                 (with_invocations (S (invocations st)) st))
      = replies st ++ extra).
    { intros args.
      destruct (try_run_frame P (invocations st) args
                  (with_invocations (S (invocations st)) st))
        as [(_ & _ & _ & x & ->)|[r0 (_ & _ & _ & _ & _ & _ & ->)]]; fields.
      - eauto.
      - exists []. by rewrite app_nil_r. }
    destruct ch; try apply Htry.
    + fields. eauto.
    + unfold cancel_operation.
      destruct (pythonProcess (with_invocations (S (invocations st)) st));
        fields; eauto.
  - unfold on_stdout_data. cbv zeta.
    destruct (runs st !! q) as [rq|]; [| exists []; by rewrite app_nil_r].
    destruct (forward_progress_frame P (split newline data)
      (with_runs (<[q:=with_stdout (stdout rq +:+ data) rq]> (runs st)) st))
      as [extra ->]. fields. exists []. by rewrite app_nil_r.
  - unfold on_stderr_data, send. cbv zeta.
    destruct (runs st !! q) as [rq|]; [| exists []; by rewrite app_nil_r].
    fields. destruct (window_ok st); fields; exists []; by rewrite app_nil_r.
  - unfold on_close. cbv zeta.
    destruct (runs st !! q) as [rq|]; [| exists []; by rewrite app_nil_r].
    destruct (settle_replies q (close_outcome P code (stdout rq) (stderr rq))
      (with_pythonProcess None (mark_exited q st))) as (extra & -> & _).
    fields. eauto.
  - unfold on_error. cbv zeta.
    destruct (runs st !! q) as [rq|]; [| exists []; by rewrite app_nil_r].
    destruct (settle_replies q (Rejected err)
      (with_pythonProcess None (mark_exited q st))) as (extra & -> & _).
    fields. eauto.
  - fields. exists []. by rewrite app_nil_r.
  - fields. exists []. by rewrite app_nil_r.
Qed.

Lemma exec_replies (evs : list event) (st : state) :
  exists extra, replies (exec P evs st) = replies st ++ extra.
Proof.
  revert st. induction evs as [|ev evs IH]; intros st; simpl.
  - exists []. by rewrite app_nil_r.
  - destruct (IH (step P st ev)) as [e2 ->].
    destruct (step_replies st ev) as [e1 ->].
    exists (e1 ++ e2). by rewrite app_assoc.
Qed.

(** A settled promise stays settled, with the outcome it has. *)
Lemma exec_settled_stable (evs : list event) (st : state) (p : pid)
    (r : run) (o : outcome) :
  runs st !! p = Some r -> settled r = Some o ->
  exists r', runs (exec P evs st) !! p = Some r' /\
    settled r' = Some o /\ owner r' = owner r.
Proof.
  revert st r. induction evs as [|ev evs IH]; intros st r Hr Hs; simpl.
  - eauto.
  - destruct (step_run P st ev p r Hr) as (r1 & H1 & Ho & _ & _ & _ & Hm).
    rewrite Hs in Hm.
    assert (Hs1 : settled r1 = Some o) by (destruct Hm as [[? _]|[? _]]; done).
    destruct (IH _ _ H1 Hs1) as (r' & ? & ? & ?).
    exists r'. repeat split; auto. congruence.
Qed.

(** Whatever happens after a run was started, once its promise is
    rejected the handler that awaited it has returned the failure object. *)
Lemma rejected_run_reported (evs : list event) (st : state) (p : pid)
    (r r' : run) (e : exn) :
  runs st !! p = Some r -> settled r = None ->
  runs (exec P evs st) !! p = Some r' -> settled r' = Some (Rejected e) ->
  (owner r, failure e) ∈ replies (exec P evs st).
Proof.
  revert st r. induction evs as [|ev evs IH]; intros st r Hr Hs Hr' Hs'; simpl in *.
  - congruence.
  - destruct (step_run P st ev p r Hr) as (r1 & H1 & Ho & _ & _ & _ & Hm).
    rewrite Hs in Hm. destruct (settled r1) as [o|] eqn:Hs1.
    + destruct Hm as [Hrep _].
      destruct (exec_settled_stable evs _ p r1 o H1 Hs1) as (r2 & H2 & Hs2 & _).
      rewrite Hr' in H2. inversion H2; subst r2.
      rewrite Hs' in Hs2. inversion Hs2; subst o.
      destruct (exec_replies evs (step P st ev)) as [extra ->].
      rewrite Hrep. simpl. set_solver.
    + rewrite <- Ho. by eapply IH.
Qed.

Lemma handle_reports_failure (ch : channel)
    (args : value -> result (list value)) :
  (forall arg st, handle P ch arg st =
     try_run P (invocations st) (args arg)
       (with_invocations (S (invocations st)) st)) ->
  reports_failure P ch.
Proof.
  intros Hh arg st. rewrite Hh.
  destruct (try_run_frame P (invocations st) (args arg)
              (with_invocations (S (invocations st)) st))
    as [(Hruns & _ & _ & e & Hrep)|[r (Hruns & Hs & _ & Ho & _ & _ & Hrep)]].
  - left. exists e. by rewrite Hruns, Hrep.
  - right. exists r. rewrite Hruns. repeat split; auto.
    intros evs r' e Hr' Hs'.
    assert (Hr : runs (try_run P (invocations st) (args arg)
                        (with_invocations (S (invocations st)) st))
                 !! length (runs st) = Some r)
      by (rewrite Hruns; by apply list_lookup_middle).
    pose proof (rejected_run_reported evs _ _ r r' e Hr Hs Hr' Hs') as H.
    by rewrite Ho in H.
Qed.

(** C4. Each of the handlers 'scan-folder', 'simulate', 'categorize' and
    'undo' turns a failed backend run into a returned object
    [{success: false, error: <message>}]: whether the failure is a throw
    before the child exists or a later rejection of the promise of
    [runPython], the caller gets that object and no exception. *)
Theorem backend_handlers_report_failure :
  reports_failure P ScanFolder /\ reports_failure P Simulate /\
  reports_failure P Categorize /\ reports_failure P Undo.
Proof.
  repeat split.
  - by apply (handle_reports_failure ScanFolder scan_args).
  - by apply (handle_reports_failure Simulate (simulate_args P)).
  - by apply (handle_reports_failure Categorize (categorize_args P)).
  - by apply (handle_reports_failure Undo (fun _ => undo_args P)).
Qed.

End Reporting.
Section Tracking.
Variable P : platform.

Lemma tracked_init (l : logs_dir) : tracked (init l).
Proof. intros p H. discriminate. Qed.

Lemma tracked_update (st st' : state) (q : pid) (rq rq' : run) :
  tracked st ->
  runs st !! q = Some rq -> exited rq' = exited rq ->
  runs st' = <[q:=rq']> (runs st) ->
  pythonProcess st' = pythonProcess st ->
  tracked st'.
Proof.
  intros Ht Hq He Hruns Hpp p Hp. rewrite Hpp in Hp.
  destruct (Ht p Hp) as [Hlen (r & Hr & Hex)].
  rewrite Hruns, length_insert. split; [done|].
  unfold in_flight. rewrite Hruns.
  destruct (decide (q = p)) as [->|Hne].
  - exists rq'. rewrite list_lookup_insert_eq by (by eapply lookup_lt_Some).
    split; [done|]. rewrite Hr in Hq. inversion Hq; subst. by rewrite He.
  - exists r. by rewrite list_lookup_insert_ne.
Qed.

Lemma tracked_step (st : state) (ev : event) :
  tracked st -> tracked (step P st ev).
Proof.
  intros Ht.
  destruct ev as [ch arg|q data|q data|q code|q err| |l]; cbn [step].
  - unfold handle.
    assert (Htry : forall args,
      tracked (try_run P (invocations st) args
                 (with_invocations (S (invocations st)) st))).
    { intros args p. unfold in_flight.
      destruct (try_run_frame P (invocations st) args
                  (with_invocations (S (invocations st)) st))
        as [(-> & -> & _)|[r0 (-> & _ & Hex & _ & -> & _)]]; fields.
      - apply (Ht p).
      - intros [= <-]. rewrite length_app. simpl. split; [lia|].
        exists r0. split; [by apply list_lookup_middle | done]. }
    destruct ch; try apply Htry.
    + exact Ht.
    + unfold cancel_operation.
      destruct (pythonProcess (with_invocations (S (invocations st)) st));
        [intros p; fields; discriminate | exact Ht].
  - unfold on_stdout_data. cbv zeta.
    destruct (runs st !! q) as [rq|] eqn:Hq; [| exact Ht].
    destruct (forward_progress_frame P (split newline data)
      (with_runs (<[q:=with_stdout (stdout rq +:+ data) rq]> (runs st)) st))
      as [extra ->].
    eapply (tracked_update st _ q rq (with_stdout (stdout rq +:+ data) rq));
      [exact Ht | exact Hq | reflexivity ..].
  - unfold on_stderr_data, send. cbv zeta.
    destruct (runs st !! q) as [rq|] eqn:Hq; [| exact Ht].
    fields. destruct (window_ok st);
      (eapply (tracked_update st _ q rq (with_stderr (stderr rq +:+ data) rq));
       [exact Ht | exact Hq | reflexivity ..]).
  - unfold on_close. cbv zeta.
    destruct (runs st !! q) as [rq|] eqn:Hq; [| exact Ht].
    intros p.
    destruct (settle_replies q (close_outcome P code (stdout rq) (stderr rq))
      (with_pythonProcess None (mark_exited q st))) as (_ & _ & -> & _).
    fields. discriminate.
  - unfold on_error. cbv zeta.
    destruct (runs st !! q) as [rq|] eqn:Hq; [| exact Ht].
    intros p.
    destruct (settle_replies q (Rejected err)
      (with_pythonProcess None (mark_exited q st))) as (_ & _ & -> & _).
    fields. discriminate.
  - exact Ht.
  - exact Ht.
Qed.



End Tracking.


Section Settling.
Variable P : platform.

Lemma step_runs_shape (st : state) (ev : event) :
  (exists r, runs (step P st ev) = runs st ++ [r] /\ settled r = None) \/
  length (runs (step P st ev)) = length (runs st).
Proof.
  destruct ev as [ch arg|q data|q data|q code|q err| |l]; cbn [step].
  - unfold handle.
    assert (Htry : forall args,
      let st' := try_run P (invocations st) args
                   (with_invocations (S (invocations st)) st) in
      (exists r, runs st' = runs st ++ [r] /\ settled r = None) \/
      length (runs st') = length (runs st)).
    { intros args st'. subst st'.
      destruct (try_run_frame P (invocations st) args
                  (with_invocations (S (invocations st)) st))
        as [(-> & _)|[r0 (-> & Hs & _)]]; fields; eauto. }
    destruct ch; try apply Htry.
    + by right.
    + right. unfold cancel_operation.
      by destruct (pythonProcess (with_invocations (S (invocations st)) st)).
  - right. unfold on_stdout_data. cbv zeta.
    destruct (runs st !! q) as [rq|]; [| done].
    destruct (forward_progress_frame P (split newline data)
      (with_runs (<[q:=with_stdout (stdout rq +:+ data) rq]> (runs st)) st))
      as [extra ->]. fields. by rewrite length_insert.
  - right. unfold on_stderr_data, send. cbv zeta.
    destruct (runs st !! q) as [rq|]; [| done].
    fields. destruct (window_ok st); fields; by rewrite length_insert.
  - right. unfold on_close. cbv zeta.
    destruct (runs st !! q) as [rq|]; [| done].
    destruct (settle_replies q (close_outcome P code (stdout rq) (stderr rq))
      (with_pythonProcess None (mark_exited q st))) as (_ & _ & _ & _ & ->).
    fields. by rewrite length_alter.
  - right. unfold on_error. cbv zeta.
    destruct (runs st !! q) as [rq|]; [| done].
    destruct (settle_replies q (Rejected err)
      (with_pythonProcess None (mark_exited q st))) as (_ & _ & _ & _ & ->).
    fields. by rewrite length_alter.
  - by right.
  - by right.
Qed.






(** The group of the pattern is what follows the first marker up to the
    first "PROGRESS:" behind it, wherever the text is cut that way. *)
Lemma match_RESULT_group (pre json post : string) :
  (forall a b, pre +:+ "RESULT:" +:+ json +:+ post = a +:+ "RESULT:" +:+ b ->
     String.length pre <= String.length a) ->
  ends_group json post ->
  match_RESULT (pre +:+ "RESULT:" +:+ json +:+ post) = Some json.
Proof.
  intros Hfirst Hend. set (out := pre +:+ "RESULT:" +:+ json +:+ post) in *.
  unfold match_RESULT.
  destruct (indexOf "RESULT:" out) as [i|] eqn:Hi.
  2: { exfalso. apply (indexOf_None "RESULT:" out); [done | done |].
       by exists pre, (json +:+ post). }
  pose proof (indexOf_first _ _ _ pre (json +:+ post) Hi eq_refl) as Hle.
  pose proof (indexOf_Some _ _ _ Hi) as Hout.
  pose proof (Hfirst _ _ Hout) as Hge.
  pose proof (substring_0_length_le i out) as Hsub.
  assert (i = String.length pre) as -> by lia.
  assert (Hrest : substring_from (String.length pre + 7) out = json +:+ post).
  { subst out. rewrite <- (string_app_assoc pre "RESULT:" (json +:+ post)).
    replace (String.length pre + 7) with (String.length (pre +:+ "RESULT:"))
      by (by rewrite string_length_app).
    apply substring_from_app. }
  cbv zeta. rewrite Hrest.
  destruct Hend as [[-> Hno]|[Hstart Hmin]].
  - rewrite string_app_nil_r.
    destruct (indexOf "PROGRESS:" json) as [j|] eqn:Hj; [| done].
    exfalso. apply Hno. pose proof (indexOf_Some _ _ _ Hj) as Hjson.
    eexists _, _. exact Hjson.
  - apply startsWith_iff in Hstart as [b ->].
    destruct (indexOf "PROGRESS:" (json +:+ "PROGRESS:" +:+ b)) as [j|] eqn:Hj.
    2: { exfalso.
         apply (indexOf_None "PROGRESS:" (json +:+ "PROGRESS:" +:+ b));
           [done | exact Hj |].
         by exists json, b. }
    pose proof (indexOf_first _ _ _ json b Hj eq_refl) as Hle'.
    pose proof (indexOf_Some _ _ _ Hj) as Hdec.
    pose proof (Hmin _ _ Hdec) as Hge'.
    pose proof (substring_0_length_le j (json +:+ "PROGRESS:" +:+ b)).
    assert (j = String.length json) as -> by lia.
    by rewrite substring_0_app.
Qed.


End Settling.
Section Progress.
Variable P : platform.

(** Output and the loss of the window touch only the text a run has
    accumulated and what was sent to the renderer. *)
Lemma step_output (st : state) (ev : event) (p : pid) (r : run) :
  output_event ev -> runs st !! p = Some r ->
  exists r', runs (step P st ev) !! p = Some r' /\
    owner r' = owner r /\
    stdout r' = stdout r +:+ stdout_of p [ev] /\
    stderr r' = stderr r +:+ stderr_of p [ev] /\
    settled r' = settled r /\
    replies (step P st ev) = replies st.
Proof.
  intros Hev Hr. pose proof (lookup_lt_Some _ _ _ Hr) as Hlt.
  destruct ev as [ch arg|q data|q data|q code|q err| |l]; try done;
    cbn [step stdout_of stderr_of].
  - unfold on_stdout_data. cbv zeta.
    destruct (Nat.eqb_spec q p) as [->|Hne].
    + rewrite Hr.
      destruct (forward_progress_frame P (split newline data)
        (with_runs (<[p:=with_stdout (stdout r +:+ data) r]> (runs st)) st))
        as [extra ->]. fields.
      eexists. split; [by apply list_lookup_insert_eq|]. fields.
      by rewrite !string_app_nil_r.
    + destruct (runs st !! q) as [rq|].
      * destruct (forward_progress_frame P (split newline data)
          (with_runs (<[q:=with_stdout (stdout rq +:+ data) rq]> (runs st)) st))
          as [extra ->]. fields.
        exists r. rewrite list_lookup_insert_ne by done.
        by rewrite !string_app_nil_r.
      * exists r. by rewrite !string_app_nil_r.
  - unfold on_stderr_data, send. cbv zeta.
    destruct (Nat.eqb_spec q p) as [->|Hne].
    + rewrite Hr. fields.
      destruct (window_ok st); fields;
        (eexists; split; [by apply list_lookup_insert_eq|]; fields;
         by rewrite !string_app_nil_r).
    + destruct (runs st !! q) as [rq|].
      * fields. destruct (window_ok st); fields;
          (exists r; rewrite list_lookup_insert_ne by done;
           by rewrite !string_app_nil_r).
      * exists r. by rewrite !string_app_nil_r.
  - fields. exists r. by rewrite !string_app_nil_r.
Qed.

Lemma stdout_of_cons (p : pid) (ev : event) (evs : list event) :
  stdout_of p (ev :: evs) = stdout_of p [ev] +:+ stdout_of p evs.
Proof.
  destruct ev; simpl; try done.
  destruct (Nat.eqb _ _); simpl; [by rewrite string_app_nil_r | done].
Qed.

Lemma stderr_of_cons (p : pid) (ev : event) (evs : list event) :
  stderr_of p (ev :: evs) = stderr_of p [ev] +:+ stderr_of p evs.
Proof.
  destruct ev; simpl; try done.
  destruct (Nat.eqb _ _); simpl; [by rewrite string_app_nil_r | done].
Qed.

Lemma exec_output (evs : list event) (st : state) (p : pid) (r : run) :
  Forall output_event evs -> runs st !! p = Some r ->
  exists r', runs (exec P evs st) !! p = Some r' /\
    owner r' = owner r /\
    stdout r' = stdout r +:+ stdout_of p evs /\
    stderr r' = stderr r +:+ stderr_of p evs /\
    settled r' = settled r /\
    replies (exec P evs st) = replies st.
Proof.
  intros Hall. revert st r.
  induction Hall as [|ev evs Hev _ IH]; intros st r Hr.
  - exists r. simpl. by rewrite !string_app_nil_r.
  - destruct (step_output st ev p r Hev Hr) as (r1 & H1 & Ho & Hout & Herr & Hs & Hrep).
    destruct (IH _ _ H1) as (r2 & H2 & Ho2 & Hout2 & Herr2 & Hs2 & Hrep2).
    exists r2. split; [exact H2|].
    rewrite stdout_of_cons, stderr_of_cons, <- !string_app_assoc.
    rewrite <- Hout, <- Herr.
    change (exec P (ev :: evs) st) with (exec P evs (step P st ev)).
    repeat split; congruence.
Qed.

(** C7 (as amended). The value an operation settles with does not depend
    on how its progress lines fare.  Start from any state with an unsettled
    run, let any output arrive in any chunking, with any [JSON.parse] (so
    any "PROGRESS:" line may be malformed) and with the window alive or
    destroyed (so any progress message may be lost), and then the 'close'
    event: the promise is settled with [close_outcome] of the exit code
    and the accumulated stdout and stderr text, and that is what the
    awaiting handler gets.  And when that text carries a "RESULT:" marker
    whose text, up to the next "PROGRESS:" or the end, parses, a zero exit
    resolves with that parse, whatever stands before the marker and after
    the result, progress lines well-formed or not.  Without a marker the
    text of the progress lines is part of what is parsed. *)
Theorem result_independent_of_progress (st : state) (p : pid) (r : run)
    (evs : list event) (code : option Z) :
  runs st !! p = Some r -> settled r = None ->
  Forall output_event evs ->
  let o := close_outcome P code (stdout r +:+ stdout_of p evs)
                              (stderr r +:+ stderr_of p evs) in
  let st' := exec P (evs ++ [Close p code]) st in
  (exists r', runs st' !! p = Some r' /\
     settled r' = Some o /\
     replies st' = replies st ++ [(owner r, handler_return o)]) /\
  forall (pre json post : string) (v : value),
    stdout r +:+ stdout_of p evs = pre +:+ "RESULT:" +:+ json +:+ post ->
    (forall a b, pre +:+ "RESULT:" +:+ json +:+ post = a +:+ "RESULT:" +:+ b ->
       String.length pre <= String.length a) ->
    ends_group json post ->
    JSON_parse P (trim json) = Some v ->
    code = Some 0%Z ->
    o = Resolved v.
Proof.
  intros Hr Hs Hall o st'. subst o st'. split.
  - rewrite exec_snoc.
    destruct (exec_output evs st p r Hall Hr)
      as (r1 & H1 & Ho & Hout & Herr & Hs1 & Hrep).
    cbn [step]. unfold on_close. rewrite H1. cbv zeta.
    assert (Hr1 : runs (with_pythonProcess None (mark_exited p (exec P evs st))) !! p
                  = Some (with_exited true r1))
      by (fields; by rewrite list_lookup_alter_eq, H1).
    erewrite settle_unsettled; [| exact Hr1 | fields; congruence].
    eexists. fields. split.
    + apply list_lookup_insert_eq. rewrite length_alter. by eapply lookup_lt_Some.
    + fields. rewrite Hout, Herr, Hrep, Ho. by split.
  - intros pre json post v Hout Hfirst Hend Hv ->.
    unfold close_outcome. rewrite Hout.
    rewrite (match_RESULT_group pre json post Hfirst Hend), Hv.
    by destruct (decide (Some 0%Z = Some 0%Z)).
Qed.

Lemma forward_progress_sent_prefix (lines : list string) (st : state) :
  exists extra, sent (forward_progress P lines st) = sent st ++ extra.
Proof.
  destruct (forward_progress_frame P lines st) as [extra ->]. fields. eauto.
Qed.

(** The messages a chunk adds, line by line. *)
Lemma forward_progress_lines (pre post : list string) (json : string)
    (v : value) (st : state) :
  window_ok st = true ->
  Forall (fun l => ~ malformed P l) pre ->
  JSON_parse P json = Some v ->
  exists before after,
    sent (forward_progress P (pre ++ ("PROGRESS:" +:+ json) :: post) st) =
      sent st ++ map (pair "progress-update") before ++
        ("progress-update", v) :: after /\
    Forall2 (fun line w => JSON_parse P (replace "PROGRESS:" "" line) = Some w)
      (List.filter (startsWith "PROGRESS:") pre) before.
Proof.
  intros Hw Hpre Hv. revert st Hw.
  induction Hpre as [|line pre Hline _ IH]; intros st Hw.
  - cbn [app forward_progress].
    assert (startsWith "PROGRESS:" ("PROGRESS:" +:+ json) = true) as ->
      by (apply startsWith_iff; eauto).
    rewrite replace_prefix, Hv. unfold send. rewrite Hw.
    destruct (forward_progress_sent_prefix post
      (with_sent (sent st ++ [("progress-update", v)]) st)) as [extra ->].
    fields. exists [], extra. split; [| constructor].
    by rewrite <- app_assoc.
  - cbn [app forward_progress List.filter].
    destruct (startsWith "PROGRESS:" line) eqn:Hstart; [| by apply IH].
    destruct (JSON_parse P (replace "PROGRESS:" "" line)) as [w|] eqn:Hw'.
    + unfold send. rewrite Hw.
      destruct (IH (with_sent (sent st ++ [("progress-update", w)]) st) Hw)
        as (before & after & Hsent & Hall).
      exists (w :: before), after. split; [| by constructor].
      rewrite Hsent. fields. by rewrite <- app_assoc.
    + by destruct Hline.
Qed.

(** C6 (as amended). Take a chunk of stdout as one 'data' event delivers
    it, split at line feeds.  A line of the chunk that begins with
    "PROGRESS:" and continues with text [JSON.parse] accepts is sent to
    the renderer as a 'progress-update' message of its own, behind one
    message for each "PROGRESS:" line that stands before it in the chunk,
    provided the window exists and no earlier line of the same chunk is a
    malformed "PROGRESS:" line.  On such a message, its payload not being
    null, the renderer's listener assigns the percent followed by "%" to
    the width of the bar when [percent] is not undefined, which sets the
    width when that text is a CSS width and leaves it otherwise, and sets
    the text to the message when [message] is truthy, else leaves it. *)
Theorem progress_line_of_chunk_forwarded (st : state) (p : pid) (r : run)
    (data : string) (pre post : list string) (json : string) (v : value) :
  runs st !! p = Some r ->
  window_ok st = true ->
  split newline data = pre ++ ("PROGRESS:" +:+ json) :: post ->
  Forall (fun l => ~ malformed P l) pre ->
  JSON_parse P json = Some v ->
  (exists before after,
     sent (step P st (StdoutData p data)) =
       sent st ++ map (pair "progress-update") before ++
         ("progress-update", v) :: after /\
     Forall2 (fun line w => JSON_parse P (replace "PROGRESS:" "" line) = Some w)
       (List.filter (startsWith "PROGRESS:") pre) before) /\
  forall (css_width : string -> option string) (d : Renderer.dom)
         (percent message : value),
    get (type_error P) v "percent" = Ok percent ->
    get (type_error P) v "message" = Ok message ->
    exists d',
      Renderer.deliver (type_error P) css_width d ("progress-update", v) = d' /\
      Renderer.progressFill_width d' =
        match percent with
        | VUndefined => Renderer.progressFill_width d
        | _ => default (Renderer.progressFill_width d)
                       (css_width (to_string percent +:+ "%"))
        end /\
      Renderer.progressText_textContent d' =
        (if truthy message then to_string message
         else Renderer.progressText_textContent d).
Proof.
  intros Hr Hw Hsplit Hpre Hv. split.
  - cbn [step]. unfold on_stdout_data. rewrite Hr. cbv zeta. rewrite Hsplit.
    destruct (forward_progress_lines pre post json v
                (with_runs (<[p:=with_stdout (stdout r +:+ data) r]> (runs st)) st)
                Hw Hpre Hv) as (before & after & Hsent & Hall).
    exists before, after. split; [exact Hsent | exact Hall].
  - intros css_width d percent message Hp Hm. eexists. split; [reflexivity|].
    unfold Renderer.deliver, Renderer.onProgressUpdate, Renderer.assign_width.
    cbn [fst snd].
    rewrite Hp. cbn [mbind result_bind]. rewrite Hm. cbn [mbind result_bind].
    assert (String.eqb "progress-update" "progress-update" = true) as ->
      by reflexivity.
    destruct (truthy message); destruct percent; try (split; reflexivity);
      destruct (css_width _); split; reflexivity.
Qed.

End Progress.
Section Examples.
Import Sample.

Example simulate_args_options :
  simulate_args platform options =
    Ok [VStr "--simulate"; VStr "--folder"; VStr "/data";
        VStr "--modes"; VStr ("[" +:+ quoted "extension" +:+ "]");
        VStr "--options";
        VStr ("{" +:+ quoted "language" +:+ ":" +:+ quoted "en" +:+ "}");
        VStr "--logs-path"; VStr "/opt/app/src/main/../../logs"].
Proof. vm_compute. reflexivity. Qed.

Example categorize_args_null :
  categorize_args platform VNull =
    Throw (Error "Cannot read properties of null (reading 'folderPath')").
Proof. vm_compute. reflexivity. Qed.

Example get_last_operation_some_logs :
  get_last_operation platform some_logs = VObj [("success", VBool true)].
Proof. vm_compute. reflexivity. Qed.

Example get_last_operation_no_logs :
  get_last_operation platform no_logs = VNull.
Proof. vm_compute. reflexivity. Qed.

Example close_outcome_marker :
  close_outcome platform (Some 0%Z)
    ("PROGRESS:{}" +:+ String newline
       ("RESULT: " +:+ success_true +:+ String newline "")) ""
  = Resolved (VObj [("success", VBool true)]).
Proof. vm_compute. reflexivity. Qed.

Example close_outcome_plain_text :
  close_outcome platform (Some 0%Z) "done" ""
  = Resolved (VObj [("success", VBool true); ("message", VStr "done")]).
Proof. vm_compute. reflexivity. Qed.

Example close_outcome_unparsable_marker :
  close_outcome platform (Some 0%Z) "RESULT:oops {}" ""
  = Resolved (VObj [("success", VBool true); ("raw", VStr "RESULT:oops {}")]).
Proof. vm_compute. reflexivity. Qed.

Example close_outcome_stderr :
  close_outcome platform (Some 1%Z) "" "boom" = Rejected (Error "boom").
Proof. vm_compute. reflexivity. Qed.

Example close_outcome_killed :
  close_outcome platform None "" ""
  = Rejected (Error "Python process exited with code null").
Proof. vm_compute. reflexivity. Qed.

Example undo_failure_reported :
  replies (exec platform [Invoke Undo VUndefined; Close 0 (Some 1%Z)]
             (init no_logs))
  = [(0, VObj [("success", VBool false);
               ("error", VStr "Python process exited with code 1")])].
Proof. vm_compute. reflexivity. Qed.

(** C6, as stated, fails in three ways.  A progress line is not
    forwarded when the stream delivers it in two chunks: neither chunk has
    a line that begins with "PROGRESS:" and parses.  A message that is
    present but empty does not become the progress text.  And a percent
    that is defined but gives no CSS width, as null does, leaves the width
    of the bar as it was. *)
Lemma progress_line_lost_across_chunks :
  let line := "PROGRESS:" +:+ percent_50 in
  let st0 := handle platform Undo VUndefined (init no_logs) in
  let chunk1 := "PROGRESS:{" in
  let chunk2 := substring_from 10 line +:+ String newline "" in
  let st := exec platform [StdoutData 0 chunk1; StdoutData 0 chunk2] st0 in
  let d := {| Renderer.progressFill_width := "0%";
              Renderer.progressText_textContent := "Moving files..." |} in
  let data := VObj [("percent", VNum "50"); ("message", VStr "")] in
  (exists r, runs st !! 0 = Some r /\
     stdout r = line +:+ String newline "") /\
  JSON_parse platform (replace "PROGRESS:" "" line)
    = Some (VObj [("percent", VNum "50")]) /\
  sent st = [] /\
  get (type_error platform) data "message" = Ok (VStr "") /\
  Renderer.deliver (type_error platform) css_width d ("progress-update", data)
    = {| Renderer.progressFill_width := "50%";
         Renderer.progressText_textContent := "Moving files..." |} /\
  get (type_error platform) (VObj [("percent", VNull)]) "percent" = Ok VNull /\
  Renderer.deliver (type_error platform) css_width d
    ("progress-update", VObj [("percent", VNull)]) = d.
Proof.
  repeat split; try (vm_compute; reflexivity).
  eexists. split; vm_compute; reflexivity.
Qed.

Lemma progress_line_of_chunk_forwarded_witness :
  let st := handle platform Undo VUndefined (init no_logs) in
  let data :=
    "PROGRESS:{}" +:+ String newline
      ("working" +:+ String newline ("PROGRESS:" +:+ percent_50)) in
  let d := {| Renderer.progressFill_width := "0%";
              Renderer.progressText_textContent := "Moving files..." |} in
  (exists before after,
     sent (step platform st (StdoutData 0 data)) =
       sent st ++ map (pair "progress-update") before ++
         ("progress-update", VObj [("percent", VNum "50")]) :: after /\
     Forall2 (fun line w =>
                JSON_parse platform (replace "PROGRESS:" "" line) = Some w)
       ["PROGRESS:{}"] before) /\
  Renderer.progressFill_width
    (Renderer.deliver (type_error platform) css_width d
       ("progress-update", VObj [("percent", VNum "50")])) = "50%".
Proof.
  intros st data d.
  assert (Hpre : Forall (fun l => ~ malformed platform l)
                   ["PROGRESS:{}"; "working"]).
  { repeat constructor; intros [H1 H2]; vm_compute in H1, H2; discriminate. }
  assert (Hr : exists r, runs st !! 0 = Some r)
    by (eexists; reflexivity).
  destruct Hr as [r Hr].
  destruct (progress_line_of_chunk_forwarded platform st 0 r
              data ["PROGRESS:{}"; "working"] [] percent_50
              (VObj [("percent", VNum "50")])
              Hr eq_refl eq_refl Hpre eq_refl) as [W1 W2].
  split; [exact W1|].
  destruct (W2 css_width d (VNum "50") VUndefined eq_refl eq_refl)
    as (d' & <- & Hwidth & _).
  reflexivity.
Defined.

(** C7, as stated, fails: the accumulated text includes the progress
    lines, and without a "RESULT:" marker the value is parsed from the
    last "{" of that text.  When it stands in a progress line, the payload
    of that line is returned as the result of the operation, and the raw
    text if the line is malformed; and a malformed progress line behind
    plain text turns the answer from [message] to [raw]. *)
Lemma progress_line_decides_result :
  let st0 := handle platform Undo VUndefined (init no_logs) in
  let good := "PROGRESS:" +:+ percent_50 in
  let bad := "PROGRESS:{" +:+ quoted "percent" +:+ ":50" in
  let behind := "done" +:+ String newline bad in
  ~ malformed platform good /\ malformed platform bad /\
  replies (exec platform [StdoutData 0 good; Close 0 (Some 0%Z)] st0)
    = [(0, VObj [("percent", VNum "50")])] /\
  replies (exec platform [StdoutData 0 bad; Close 0 (Some 0%Z)] st0)
    = [(0, VObj [("success", VBool true); ("raw", VStr bad)])] /\
  replies (exec platform [StdoutData 0 "done"; Close 0 (Some 0%Z)] st0)
    = [(0, VObj [("success", VBool true); ("message", VStr "done")])] /\
  replies (exec platform [StdoutData 0 behind; Close 0 (Some 0%Z)] st0)
    = [(0, VObj [("success", VBool true); ("raw", VStr behind)])].
Proof.
  repeat split; try (vm_compute; reflexivity).
  intros [_ H]. vm_compute in H. discriminate.
Qed.

Lemma result_independent_of_progress_witness :
  let st := handle platform Undo VUndefined (init no_logs) in
  let evs := [StdoutData 0 ("PROGRESS:oops" +:+ String newline "");
              WindowDestroyed;
              StdoutData 0 ("PROGRESS:{}" +:+ String newline "RESULT:{}")] in
  replies (exec platform (evs ++ [Close 0 (Some 0%Z)]) st) = [(0, VObj [])] /\
  close_outcome platform (Some 0%Z)
    ("PROGRESS:oops" +:+ String newline
       ("PROGRESS:{}" +:+ String newline "RESULT:{}")) ""
    = Resolved (VObj []).
Proof.
  intros st evs.
  assert (Hr : exists r, runs st !! 0 = Some r /\ settled r = None /\
                 owner r = 0 /\ stdout r = "" /\ stderr r = "")
    by (eexists; repeat split; reflexivity).
  destruct Hr as (r & Hr & Hs & Ho & Hout & Herr).
  assert (Hall : Forall output_event evs) by (repeat constructor).
  pose proof (result_independent_of_progress platform st 0 r evs (Some 0%Z)
                Hr Hs Hall) as W.
  cbv zeta in W. rewrite Ho, Hout, Herr in W.
  destruct W as [(r' & _ & _ & W1) W2]. split; [exact W1|].
  apply (W2 ("PROGRESS:oops" +:+ String newline
               ("PROGRESS:{}" +:+ String newline "")) "{}" "" (VObj []));
    try reflexivity.
  - intros a b Hab.
    apply (indexOf_first "RESULT:" _ 26 a b) in Hab; [exact Hab | reflexivity].
  - left. split; [reflexivity|]. intros (x & y & Hxy).
    assert (H : indexOf "PROGRESS:" "{}" = None) by reflexivity.
    apply (indexOf_None "PROGRESS:" "{}"); [done | exact H |]. by exists x, y.
Defined.


End Examples.
Section Calls.
Variable P : platform.

(** What one event does to the calls, the runs, the replies, the kills
    and the shared reference: nothing; an answer at once (for 'cancel',
    together with the kill of the referenced child); a spawn; more output
    of a child; or the exit of a child, which settles its promise if that
    is still pending. *)
Lemma step_shape (st : state) (ev : event) :
  let st' := step P st ev in
  (runs st' = runs st /\ replies st' = replies st /\
   invocations st' = invocations st /\ kills st' = kills st /\
   pythonProcess st' = pythonProcess st /\
   forall p, p < length (runs st) ->
     exit_outcome P p ev "" "" = None) \/
  (exists v, runs st' = runs st /\
     replies st' = replies st ++ [(invocations st, v)] /\
     invocations st' = S (invocations st) /\
     (kills st' = kills st /\ pythonProcess st' = pythonProcess st \/
      exists p, pythonProcess st = Some p /\ kills st' = kills st ++ [p] /\
        pythonProcess st' = None) /\
     forall p out err, exit_outcome P p ev out err = None) \/
  (exists r, runs st' = runs st ++ [r] /\
     owner r = invocations st /\ settled r = None /\ exited r = false /\
     replies st' = replies st /\ invocations st' = S (invocations st) /\
     kills st' = kills st /\ pythonProcess st' = Some (length (runs st)) /\
     stdout r = "" /\ stderr r = "" /\
     forall p out err, exit_outcome P p ev out err = None) \/
  (exists q rq rq', runs st !! q = Some rq /\
     runs st' = <[q:=rq']> (runs st) /\
     owner rq' = owner rq /\ settled rq' = settled rq /\
     exited rq' = exited rq /\
     replies st' = replies st /\ invocations st' = invocations st /\
     kills st' = kills st /\ pythonProcess st' = pythonProcess st /\
     output_event ev /\
     forall p out err, exit_outcome P p ev out err = None) \/
  (exists q rq o, runs st !! q = Some rq /\
     exit_outcome P q ev (stdout rq) (stderr rq) = Some o /\
     invocations st' = invocations st /\ kills st' = kills st /\
     pythonProcess st' = None /\
     (settled rq = None /\
      runs st' = <[q:=with_settled (Some o) (with_exited true rq)]> (runs st) /\
      replies st' = replies st ++ [(owner rq, handler_return o)] \/
      (exists o1, settled rq = Some o1) /\
      runs st' = <[q:=with_exited true rq]> (runs st) /\
      replies st' = replies st)).
Proof.
  intros st'. subst st'.
  destruct ev as [ch arg|q data|q data|q code|q err| |l]; cbn [step].
  - (* an IPC call *)
    unfold handle.
    assert (Htry : forall args,
      let st' := try_run P (invocations st) args
                   (with_invocations (S (invocations st)) st) in
      (exists v, runs st' = runs st /\
         replies st' = replies st ++ [(invocations st, v)] /\
         invocations st' = S (invocations st) /\
         (kills st' = kills st /\ pythonProcess st' = pythonProcess st \/
          exists p, pythonProcess st = Some p /\ kills st' = kills st ++ [p] /\
            pythonProcess st' = None)) \/
      (exists r, runs st' = runs st ++ [r] /\
         owner r = invocations st /\ settled r = None /\ exited r = false /\
         replies st' = replies st /\ invocations st' = S (invocations st) /\
         kills st' = kills st /\ pythonProcess st' = Some (length (runs st)) /\
         stdout r = "" /\ stderr r = "")).
    { intros args st'. subst st'.
      unfold try_run, runPython. destruct args as [a|e]; fields.
      - destruct (spawn_throws P _ _); fields.
        + left. eexists. repeat split; auto.
        + right. eexists. repeat split; reflexivity.
      - left. eexists. repeat split; auto. }
    destruct ch.
    1-4: (right; match goal with |- context [try_run P _ ?a _] =>
            destruct (Htry a) as [(v & H)|(r & H)];
              [left; exists v | right; left; exists r]; by intuition
          end).
    + right. left. fields. eexists. repeat split; auto.
    + right. left. unfold cancel_operation. fields.
      destruct (pythonProcess st) as [p|] eqn:Hp; fields.
      * eexists. repeat split; eauto.
      * eexists. repeat split; auto.
  - (* stdout *)
    unfold on_stdout_data. cbv zeta.
    destruct (runs st !! q) as [rq|] eqn:Hq.
    + do 3 right. left.
      destruct (forward_progress_frame P (split newline data)
        (with_runs (<[q:=with_stdout (stdout rq +:+ data) rq]> (runs st)) st))
        as [extra ->]. fields.
      exists q, rq. eexists. repeat split; try reflexivity. exact Hq.
    + left. repeat split; auto.
  - (* stderr *)
    unfold on_stderr_data, send. cbv zeta.
    destruct (runs st !! q) as [rq|] eqn:Hq.
    + do 3 right. left. fields.
      exists q, rq. eexists.
      destruct (window_ok st); fields; repeat split; try reflexivity; exact Hq.
    + left. repeat split; auto.
  - (* close *)
    unfold on_close. cbv zeta.
    destruct (runs st !! q) as [rq|] eqn:Hq.
    + do 4 right.
      assert (Hq1 : runs (with_pythonProcess None (mark_exited q st)) !! q
                    = Some (with_exited true rq))
        by (fields; by rewrite list_lookup_alter_eq, Hq).
      exists q, rq, (close_outcome P code (stdout rq) (stderr rq)).
      split; [exact Hq|]. split; [cbn; by rewrite Nat.eqb_refl|].
      destruct (settled rq) as [o1|] eqn:Hs.
      * erewrite settle_settled; [| exact Hq1 | exact Hs]. fields.
        repeat split; try reflexivity. right. split; [eauto|].
        split; [|reflexivity].
        apply list_eq. intros i. destruct (decide (i = q)) as [->|Hne].
        -- rewrite list_lookup_alter_eq, Hq.
           rewrite list_lookup_insert_eq by (by eapply lookup_lt_Some). done.
        -- by rewrite list_lookup_alter_ne, list_lookup_insert_ne.
      * erewrite settle_unsettled; [| exact Hq1 | exact Hs]. fields.
        repeat split; try reflexivity. left. split; [reflexivity|].
        split; [|reflexivity].
        apply list_eq. intros i. destruct (decide (i = q)) as [->|Hne].
        -- rewrite !list_lookup_insert_eq;
             [done | by eapply lookup_lt_Some
             | rewrite length_alter; by eapply lookup_lt_Some].
        -- by rewrite !list_lookup_insert_ne, list_lookup_alter_ne.
    + left. repeat split; auto. intros p Hp. cbn.
      destruct (Nat.eqb_spec q p) as [->|]; [| done].
      apply lookup_ge_None in Hq. lia.
  - (* error *)
    unfold on_error. cbv zeta.
    destruct (runs st !! q) as [rq|] eqn:Hq.
    + do 4 right.
      assert (Hq1 : runs (with_pythonProcess None (mark_exited q st)) !! q
                    = Some (with_exited true rq))
        by (fields; by rewrite list_lookup_alter_eq, Hq).
      exists q, rq, (Rejected err).
      split; [exact Hq|]. split; [cbn; by rewrite Nat.eqb_refl|].
      destruct (settled rq) as [o1|] eqn:Hs.
      * erewrite settle_settled; [| exact Hq1 | exact Hs]. fields.
        repeat split; try reflexivity. right. split; [eauto|].
        split; [|reflexivity].
        apply list_eq. intros i. destruct (decide (i = q)) as [->|Hne].
        -- rewrite list_lookup_alter_eq, Hq.
           rewrite list_lookup_insert_eq by (by eapply lookup_lt_Some). done.
        -- by rewrite list_lookup_alter_ne, list_lookup_insert_ne.
      * erewrite settle_unsettled; [| exact Hq1 | exact Hs]. fields.
        repeat split; try reflexivity. left. split; [reflexivity|].
        split; [|reflexivity].
        apply list_eq. intros i. destruct (decide (i = q)) as [->|Hne].
        -- rewrite !list_lookup_insert_eq;
             [done | by eapply lookup_lt_Some
             | rewrite length_alter; by eapply lookup_lt_Some].
        -- by rewrite !list_lookup_insert_ne, list_lookup_alter_ne.
    + left. repeat split; auto. intros p Hp. cbn.
      destruct (Nat.eqb_spec q p) as [->|]; [| done].
      apply lookup_ge_None in Hq. lia.
  - left. repeat split; auto.
  - left. repeat split; auto.
Qed.

End Calls.
Section CallsInvariant.
Variable P : platform.

Lemma answered_ids (st : state) (i : nat) :
  answered st i <-> i ∈ (replies st).*1.
Proof.
  unfold answered. rewrite list_elem_of_fmap. split.
  - intros [v Hv]. by exists (i, v).
  - intros [[j v] [-> Hv]]. by exists v.
Qed.

Lemma calls_ok_init (l : logs_dir) : calls_ok (init l).
Proof.
  split; simpl; try done.
  - intros i v H. by apply elem_of_nil in H.
  - constructor.
  - intros i Hi. lia.
Qed.

(** An update of one run that keeps its owner, its promise and whether
    it has exited keeps the invariant. *)
Lemma calls_ok_update (st st' : state) (q : pid) (rq rq' : run) :
  calls_ok st ->
  runs st !! q = Some rq ->
  runs st' = <[q:=rq']> (runs st) ->
  owner rq' = owner rq -> settled rq' = settled rq -> exited rq' = exited rq ->
  replies st' = replies st -> invocations st' = invocations st ->
  calls_ok st'.
Proof.
  intros [K1 K2 K3 K4 K5 K6 K7 K8] Hq Hruns Ho Hs He Hrep Hinv.
  pose proof (lookup_lt_Some _ _ _ Hq) as Hlt.
  assert (Hback : forall p r', runs st' !! p = Some r' ->
            exists r, runs st !! p = Some r /\ owner r' = owner r /\
              settled r' = settled r /\ exited r' = exited r).
  { intros p r' Hp. rewrite Hruns in Hp.
    destruct (decide (p = q)) as [->|Hne].
    - rewrite list_lookup_insert_eq in Hp by done. inversion Hp; subst r'.
      by exists rq.
    - rewrite list_lookup_insert_ne in Hp by done. by exists r'. }
  assert (Hforth : forall p r, runs st !! p = Some r ->
            exists r', runs st' !! p = Some r' /\ owner r' = owner r /\
              settled r' = settled r /\ exited r' = exited r).
  { intros p r Hp. rewrite Hruns.
    destruct (decide (p = q)) as [->|Hne].
    - rewrite list_lookup_insert_eq by done. exists rq'.
      rewrite Hq in Hp. inversion Hp; subst r. done.
    - rewrite list_lookup_insert_ne by done. by exists r. }
  assert (Hans : forall i, answered st' i <-> answered st i)
    by (intros i; unfold answered; by rewrite Hrep).
  split.
  - intros i v H. rewrite Hrep in H. rewrite Hinv. by eapply K1.
  - by rewrite Hrep.
  - intros p r' Hp. destruct (Hback p r' Hp) as (r & H1 & -> & _).
    rewrite Hinv. by eapply K3.
  - intros p1 p2 r1 r2 H1 H2 Hoo.
    destruct (Hback _ _ H1) as (s1 & G1 & E1 & _).
    destruct (Hback _ _ H2) as (s2 & G2 & E2 & _).
    eapply K4; [exact G1 | exact G2 | congruence].
  - intros p r' Hp. destruct (Hback p r' Hp) as (r & H1 & _ & -> & ->).
    by eapply K5.
  - intros p r' Hp Hs'. destruct (Hback p r' Hp) as (r & H1 & -> & Hss & _).
    rewrite Hans. eapply K6; [exact H1 | congruence].
  - intros p r' o Hp Hs'. destruct (Hback p r' Hp) as (r & H1 & -> & Hss & _).
    rewrite Hrep. eapply K7; [exact H1 | congruence].
  - intros i Hi. rewrite Hinv in Hi. destruct (K8 i Hi) as [Ha|(p & r & Hp & Hoo & Hex)].
    + left. by apply Hans.
    + right. destruct (Hforth p r Hp) as (r' & G1 & G2 & _ & G3).
      exists p, r'. repeat split; congruence.
Qed.

Lemma calls_ok_step (st : state) (ev : event) :
  calls_ok st -> calls_ok (step P st ev).
Proof.
  intros K. pose proof K as [K1 K2 K3 K4 K5 K6 K7 K8].
  destruct (step_shape P st ev)
    as [(Hruns & Hrep & Hinv & _)
       |[(v & Hruns & Hrep & Hinv & _)
       |[(r & Hruns & Ho & Hs & He & Hrep & Hinv & _)
       |[(q & rq & rq' & Hq & Hruns & Ho & Hs & He & Hrep & Hinv & _)
       |(q & rq & o & Hq & Hx & Hinv & _ & _ & Hcase)]]]].
  - (* nothing *)
    split; unfold answered, awaiting; rewrite ?Hruns, ?Hrep, ?Hinv; auto.
  - (* an answer at once *)
    assert (Hans : forall i, answered st i -> answered (step P st ev) i).
    { intros i [w Hw]. exists w. rewrite Hrep. apply elem_of_app. by left. }
    split; unfold awaiting; rewrite ?Hruns, ?Hinv.
    + intros i w H. rewrite Hrep in H.
      apply elem_of_app in H as [H|H].
      * apply K1 in H. lia.
      * apply list_elem_of_singleton in H. inversion H. lia.
    + rewrite Hrep, fmap_app. apply NoDup_app. split; [done|]. split.
      * intros i Hi Hi'. simpl in Hi'. apply list_elem_of_singleton in Hi'.
        subst i. apply answered_ids in Hi as [w Hw]. apply K1 in Hw. lia.
      * simpl. apply NoDup_singleton.
    + intros p r Hp. apply K3 in Hp. lia.
    + exact K4.
    + exact K5.
    + intros p r Hp Hs [w Hw]. rewrite Hrep in Hw.
      apply elem_of_app in Hw as [Hw|Hw].
      * eapply K6; [exact Hp | exact Hs | by exists w].
      * apply list_elem_of_singleton in Hw. inversion Hw.
        apply K3 in Hp. lia.
    + intros p r o Hp Hs. rewrite Hrep. apply elem_of_app. left. by eapply K7.
    + intros i Hi. destruct (decide (i = invocations st)) as [->|Hne].
      * left. exists v. rewrite Hrep. apply elem_of_app. right.
        by apply list_elem_of_singleton.
      * destruct (K8 i) as [Ha|Ha]; [lia | left; by apply Hans | by right].
  - (* a spawn *)
    assert (Hans : forall i, answered (step P st ev) i <-> answered st i)
      by (intros i; unfold answered; by rewrite Hrep).
    assert (Hback : forall p r', runs (step P st ev) !! p = Some r' ->
              runs st !! p = Some r' \/ p = length (runs st) /\ r' = r).
    { intros p r' Hp. rewrite Hruns in Hp.
      apply lookup_app_Some in Hp as [Hp|[Hge Hp]]; [by left|right].
      destruct (p - length (runs st)) as [|k] eqn:Hk; simpl in Hp; [|done].
      inversion Hp. split; [lia | done]. }
    split; rewrite ?Hinv.
    + intros i w H. rewrite Hrep in H. apply K1 in H. lia.
    + by rewrite Hrep.
    + intros p r' Hp. destruct (Hback p r' Hp) as [H|[_ ->]].
      * apply K3 in H. lia.
      * lia.
    + intros p1 p2 r1 r2 H1 H2 Hoo.
      destruct (Hback _ _ H1) as [G1|[-> ->]];
        destruct (Hback _ _ H2) as [G2|[-> ->]].
      * by eapply K4.
      * apply K3 in G1. lia.
      * apply K3 in G2. lia.
      * done.
    + intros p r' Hp. destruct (Hback p r' Hp) as [H|[_ ->]].
      * by eapply K5.
      * by rewrite Hs, He.
    + intros p r' Hp Hs'. rewrite Hans. destruct (Hback p r' Hp) as [H|[_ ->]].
      * by eapply K6.
      * intros [w Hw]. apply K1 in Hw. lia.
    + intros p r' o Hp Hs'. rewrite Hrep. destruct (Hback p r' Hp) as [H|[_ ->]].
      * by eapply K7.
      * congruence.
    + intros i Hi. destruct (decide (i = invocations st)) as [->|Hne].
      * right. exists (length (runs st)), r. rewrite Hruns.
        split; [by apply list_lookup_middle | done].
      * destruct (K8 i) as [Ha|(p & r0 & Hp & Hoo & Hex)]; [lia | |].
        -- left. by apply Hans.
        -- right. exists p, r0. rewrite Hruns.
           split; [by apply lookup_app_l_Some | done].
  - (* output *)
    by eapply (calls_ok_update st _ q rq rq').
  - (* the exit of a child *)
    destruct Hcase as [(Hs & Hruns & Hrep)|([o1 Hs] & Hruns & Hrep)].
    2: { eapply (calls_ok_update st _ q rq (with_exited true rq));
           [exact K | exact Hq | exact Hruns | done | done | | exact Hrep
           | exact Hinv].
         simpl. destruct (exited rq) eqn:He; [done|].
         apply (K5 q rq Hq) in He. congruence. }
    pose proof (lookup_lt_Some _ _ _ Hq) as Hlt.
    assert (Hans : forall i, answered st i -> answered (step P st ev) i).
    { intros i [w Hw]. exists w. rewrite Hrep. apply elem_of_app. by left. }
    assert (Hback : forall p r', runs (step P st ev) !! p = Some r' ->
              p <> q /\ runs st !! p = Some r' \/
              p = q /\ r' = with_settled (Some o) (with_exited true rq)).
    { intros p r' Hp. rewrite Hruns in Hp.
      destruct (decide (p = q)) as [->|Hne].
      - rewrite list_lookup_insert_eq in Hp by done. inversion Hp. by right.
      - rewrite list_lookup_insert_ne in Hp by done. by left. }
    split; rewrite ?Hinv.
    + intros i w H. rewrite Hrep in H. apply elem_of_app in H as [H|H].
      * by eapply K1.
      * apply list_elem_of_singleton in H. inversion H. by eapply K3.
    + rewrite Hrep, fmap_app. apply NoDup_app. split; [done|]. split.
      * intros i Hi Hi'. simpl in Hi'. apply list_elem_of_singleton in Hi'.
        subst i. apply answered_ids in Hi. by eapply K6.
      * simpl. apply NoDup_singleton.
    + intros p r' Hp. destruct (Hback p r' Hp) as [[_ H]|[_ ->]].
      * by eapply K3.
      * simpl. by eapply K3.
    + intros p1 p2 r1 r2 H1 H2 Hoo.
      destruct (Hback _ _ H1) as [[N1 G1]|[-> ->]];
        destruct (Hback _ _ H2) as [[N2 G2]|[-> ->]]; simpl in Hoo.
      * by eapply K4.
      * by eapply K4.
      * by eapply K4.
      * done.
    + intros p r' Hp. destruct (Hback p r' Hp) as [[_ H]|[_ ->]].
      * by eapply K5.
      * simpl. split; discriminate.
    + intros p r' Hp Hs' [w Hw]. destruct (Hback p r' Hp) as [[Hne H]|[_ ->]].
      2: { simpl in Hs'. discriminate. }
      rewrite Hrep in Hw. apply elem_of_app in Hw as [Hw|Hw].
      * eapply K6; [exact H | exact Hs' | by exists w].
      * apply list_elem_of_singleton in Hw. inversion Hw.
        apply Hne. by eapply K4.
    + intros p r' o' Hp Hs'. rewrite Hrep. apply elem_of_app.
      destruct (Hback p r' Hp) as [[Hne H]|[_ ->]].
      * left. by eapply K7.
      * right. simpl in *. inversion Hs'. by apply list_elem_of_singleton.
    + intros i Hi. destruct (K8 i Hi) as [Ha|(p & r0 & Hp & Hoo & Hex)].
      * left. by apply Hans.
      * destruct (decide (p = q)) as [->|Hne].
        -- left. exists (handler_return o). rewrite Hrep. apply elem_of_app.
           right. rewrite Hq in Hp. inversion Hp; subst r0. subst i.
           by apply list_elem_of_singleton.
        -- right. exists p, r0. rewrite Hruns.
           by rewrite list_lookup_insert_ne.
Qed.

Lemma calls_ok_exec (evs : list event) (st : state) :
  calls_ok st -> calls_ok (exec P evs st).
Proof.
  revert st. induction evs as [|ev evs IH]; intros st K; simpl; [done|].
  by apply IH, calls_ok_step.
Qed.

End CallsInvariant.
Section Answers.
Variable P : platform.

Lemma exec_app (evs1 evs2 : list event) (st : state) :
  exec P (evs1 ++ evs2) st = exec P evs2 (exec P evs1 st).
Proof. unfold exec. by rewrite fold_left_app. Qed.

Lemma exit_outcome_pid (p q : pid) (ev : event) (a b c d : string)
    (o o' : outcome) :
  exit_outcome P p ev a b = Some o -> exit_outcome P q ev c d = Some o' ->
  p = q.
Proof.
  destruct ev as [| | |x code|x e| |]; simpl; try done.
  - destruct (Nat.eqb_spec x p), (Nat.eqb_spec x q); try done. congruence.
  - destruct (Nat.eqb_spec x p), (Nat.eqb_spec x q); try done. congruence.
Qed.

Lemma exit_outcome_None (p : pid) (ev : event) (a b c d : string) :
  exit_outcome P p ev a b = None -> exit_outcome P p ev c d = None.
Proof.
  destruct ev as [| | |x code|x e| |]; simpl; try done;
    by destruct (Nat.eqb x p).
Qed.

(** An event that is not the exit of child [p] leaves the promise of [p]
    as it is and adds to its texts what the event carries for [p]. *)
Lemma step_pending (st : state) (ev : event) (p : pid) (r : run) :
  runs st !! p = Some r ->
  exit_outcome P p ev "" "" = None ->
  exists r', runs (step P st ev) !! p = Some r' /\
    owner r' = owner r /\ settled r' = settled r /\
    stdout r' = stdout r +:+ stdout_of p [ev] /\
    stderr r' = stderr r +:+ stderr_of p [ev].
Proof.
  intros Hr Hx.
  assert (Hout : output_event ev \/
            ~ output_event ev /\
            stdout_of p [ev] = "" /\ stderr_of p [ev] = "")
    by (destruct ev; simpl; auto).
  destruct Hout as [Hout|(Hnot & Ho & He)].
  { destruct (step_output P st ev p r Hout Hr)
      as (r' & H1 & H2 & H3 & H4 & H5 & _). by exists r'. }
  rewrite Ho, He, !string_app_nil_r.
  destruct (step_shape P st ev)
    as [(Hruns & _)
       |[(v & Hruns & _)
       |[(r0 & Hruns & _)
       |[(q & rq & rq' & Hq & Hruns & _ & _ & _ & _ & _ & _ & _ & Hev & _)
       |(q & rq & o & Hq & Hxq & _ & _ & _ & Hcase)]]]].
  - exists r. by rewrite Hruns.
  - exists r. by rewrite Hruns.
  - exists r. rewrite Hruns. split; [by apply lookup_app_l_Some | done].
  - done.
  - assert (Hne : p <> q).
    { intros ->. eapply exit_outcome_None in Hx. rewrite Hx in Hxq. done. }
    exists r. destruct Hcase as [(_ & -> & _)|(_ & -> & _)];
      by rewrite list_lookup_insert_ne.
Qed.

Lemma exec_pending (evs : list event) (st : state) (p : pid) (r : run) :
  runs st !! p = Some r ->
  Forall (fun ev => exit_outcome P p ev "" "" = None) evs ->
  exists r', runs (exec P evs st) !! p = Some r' /\
    owner r' = owner r /\ settled r' = settled r /\
    stdout r' = stdout r +:+ stdout_of p evs /\
    stderr r' = stderr r +:+ stderr_of p evs.
Proof.
  intros Hr Hall. revert st r Hr.
  induction Hall as [|ev evs Hev _ IH]; intros st r Hr.
  - exists r. simpl. by rewrite !string_app_nil_r.
  - destruct (step_pending st ev p r Hr Hev) as (r1 & H1 & Ho & Hs & Hout & Herr).
    destruct (IH _ _ H1) as (r2 & H2 & Ho2 & Hs2 & Hout2 & Herr2).
    exists r2. split; [exact H2|].
    rewrite stdout_of_cons, stderr_of_cons, <- !string_app_assoc.
    rewrite <- Hout, <- Herr.
    repeat split; congruence.
Qed.

(** Replies with distinct identifiers: an identifier has one value. *)
Lemma reply_unique (l : list (nat * value)) (i : nat) (v w : value) :
  NoDup l.*1 -> (i, v) ∈ l -> (i, w) ∈ l -> v = w.
Proof.
  induction l as [|[j u] l IH]; intros Hnd Hv Hw.
  - by apply elem_of_nil in Hv.
  - simpl in Hnd. apply NoDup_cons in Hnd as [Hj Hnd].
    apply elem_of_cons in Hv as [Hv|Hv]; apply elem_of_cons in Hw as [Hw|Hw].
    + congruence.
    + inversion Hv; subst. destruct Hj.
      apply list_elem_of_fmap. by exists (j, w).
    + inversion Hw; subst. destruct Hj.
      apply list_elem_of_fmap. by exists (j, v).
    + by apply IH.
Qed.

(** The reply to a backend call: whatever happens before the call,
    between the spawn and the first exit event of its child, and after
    it, the replies hold the value that this exit event and the output of
    the child up to it determine, and no call has two replies. *)
Lemma first_exit_reply (l : logs_dir) (evs0 : list event) (ch : channel)
    (arg : value) (evs : list event) (x : event) (evs' : list event)
    (o : outcome) :
  let st0 := exec P evs0 (init l) in
  let p := length (runs st0) in
  length (runs (handle P ch arg st0)) = S p ->
  Forall (fun ev => exit_outcome P p ev "" "" = None) evs ->
  exit_outcome P p x (stdout_of p evs) (stderr_of p evs) = Some o ->
  let st' := exec P (evs0 ++ Invoke ch arg :: evs ++ x :: evs') (init l) in
  (invocations st0, handler_return o) ∈ replies st' /\
  NoDup (replies st').*1.
Proof.
  intros st0 p Hlen Hall Hx st'.
  assert (K' : calls_ok st') by apply calls_ok_exec, calls_ok_init.
  subst st'. rewrite exec_app. fold st0.
  change (exec P (Invoke ch arg :: evs ++ x :: evs') st0)
    with (exec P (evs ++ x :: evs') (handle P ch arg st0)).
  rewrite exec_app.
  change (exec P (x :: evs') ?s) with (exec P evs' (step P s x)).
  rewrite exec_app in K'. fold st0 in K'.
  change (exec P (Invoke ch arg :: evs ++ x :: evs') st0)
    with (exec P (evs ++ x :: evs') (handle P ch arg st0)) in K'.
  rewrite exec_app in K'.
  change (exec P (x :: evs') ?s) with (exec P evs' (step P s x)) in K'.
  set (st1 := handle P ch arg st0) in *.
  (* the call spawned child [p] *)
  assert (H1 : exists r, runs st1 !! p = Some r /\ owner r = invocations st0 /\
                 settled r = None /\ stdout r = "" /\ stderr r = "").
  { destruct (step_shape P st0 (Invoke ch arg))
      as [(Hruns & _)
         |[(v & Hruns & _)
         |[(r0 & Hruns & Ho & Hs & _ & _ & _ & _ & _ & Hout & Herr & _)
         |[(q & rq & rq' & Hq & Hruns & _)
         |(q & rq & o' & Hq & _ & _ & _ & _ & Hcase)]]]];
      cbn [step] in *; fold st1 in Hruns || idtac.
    - rewrite Hruns in Hlen. subst p. lia.
    - rewrite Hruns in Hlen. subst p. lia.
    - exists r0. rewrite Hruns. split; [by apply list_lookup_middle | done].
    - rewrite Hruns, length_insert in Hlen. subst p. lia.
    - fold st1 in Hcase.
      destruct Hcase as [(_ & Hruns & _)|(_ & Hruns & _)];
        rewrite Hruns, length_insert in Hlen; subst p; lia. }
  destruct H1 as (r & Hr & Hown & Hs & Hout & Herr).
  (* until its exit the promise stays pending and the texts grow *)
  destruct (exec_pending evs st1 p r Hr Hall)
    as (r2 & Hr2 & Hown2 & Hs2 & Hout2 & Herr2).
  rewrite Hout in Hout2. rewrite Herr in Herr2.
  change (stdout r2 = stdout_of p evs) in Hout2.
  change (stderr r2 = stderr_of p evs) in Herr2.
  set (st2 := exec P evs st1) in *.
  (* the exit settles it and answers the call *)
  assert (H3 : (invocations st0, handler_return o) ∈ replies (step P st2 x)).
  { destruct (step_shape P st2 x)
      as [(_ & _ & _ & _ & _ & Hno)
         |[(v & _ & _ & _ & _ & Hno)
         |[(r0 & _ & _ & _ & _ & _ & _ & _ & _ & _ & _ & Hno)
         |[(q & rq & rq' & _ & _ & _ & _ & _ & _ & _ & _ & _ & _ & Hno)
         |(q & rq & o' & Hq & Hxq & _ & _ & _ & Hcase)]]]].
    - specialize (Hno p (lookup_lt_Some _ _ _ Hr2)).
      eapply exit_outcome_None in Hno. rewrite Hno in Hx. done.
    - rewrite Hno in Hx. done.
    - rewrite Hno in Hx. done.
    - rewrite Hno in Hx. done.
    - assert (q = p) as -> by (by eapply exit_outcome_pid).
      rewrite Hr2 in Hq. inversion Hq; subst rq.
      rewrite Hout2, Herr2, Hx in Hxq. inversion Hxq; subst o'.
      destruct Hcase as [(_ & _ & ->)|([o1 Ho1] & _)]; [| congruence].
      apply elem_of_app. right. apply list_elem_of_singleton. congruence. }
  split; [| exact (replies_once _ K')].
  destruct (exec_replies P evs' (step P st2 x)) as [extra ->].
  apply elem_of_app. by left.
Qed.

End Answers.
Section Extras.
Variable P : platform.

(** X1. The answer to a backend call is fixed by the first exit event
    of its own child.  Take any state the main process can reach, a call
    that spawns a child there, any events that follow up to the first
    'close' or 'error' of that child (output of any child in any chunking,
    other calls, cancel requests, exits of other children, the loss of the
    window), that exit event, and any events after it: the handler of the
    call returns exactly one value, the one [handler_return] gives for what
    the exit event passes to the promise, computed from the stdout and
    stderr text the child wrote before it. *)
Theorem backend_answer_fixed_by_first_exit (l : logs_dir)
    (evs0 : list event) (ch : channel) (arg : value) (evs : list event)
    (x : event) (evs' : list event) (o : outcome) :
  let st0 := exec P evs0 (init l) in
  let p := length (runs st0) in
  length (runs (handle P ch arg st0)) = S p ->
  Forall (fun ev => exit_outcome P p ev "" "" = None) evs ->
  exit_outcome P p x (stdout_of p evs) (stderr_of p evs) = Some o ->
  let st' := exec P (evs0 ++ Invoke ch arg :: evs ++ x :: evs') (init l) in
  forall v, (invocations st0, v) ∈ replies st' <-> v = handler_return o.
Proof.
  intros st0 p Hlen Hall Hx st' v.
  destruct (first_exit_reply P l evs0 ch arg evs x evs' o Hlen Hall Hx)
    as [Hin Hnodup].
  split; [| by intros ->].
  intros Hv. by eapply reply_unique.
Qed.

Lemma handler_return_failed_exit (code : option Z) (out err : string) :
  code <> Some 0%Z ->
  handler_return (close_outcome P code out err) =
    VObj [("success", VBool false); ("error", VStr (exit_message code err))].
Proof.
  intros Hc. unfold close_outcome, exit_message.
  destruct (decide (code = Some 0%Z)); [done|].
  unfold or_else. cbn [truthy]. by destruct (String.eqb err "").
Qed.

(** X2. What a failed run reports.  Take a backend call whose child
    closes with a code other than 0, or with no code because a signal
    ended it (as after [kill]), and let that 'close' be the first exit
    event of the child, no 'error' event of it having come before.  The
    call is answered with [{success: false, error: text}], where the text
    is everything the child wrote to stderr before the 'close', in the
    order of the chunks, and, when it wrote nothing, the sentence "Python
    process exited with code" followed by the code.  (When an 'error'
    event comes first, it is that event which fixes the answer.) *)
Theorem failed_run_reports_stderr_or_exit_code (l : logs_dir)
    (evs0 : list event) (ch : channel) (arg : value) (evs : list event)
    (code : option Z) (evs' : list event) :
  let st0 := exec P evs0 (init l) in
  let p := length (runs st0) in
  length (runs (handle P ch arg st0)) = S p ->
  Forall (fun ev => exit_outcome P p ev "" "" = None) evs ->
  code <> Some 0%Z ->
  let st' :=
    exec P (evs0 ++ Invoke ch arg :: evs ++ Close p code :: evs') (init l) in
  forall v, (invocations st0, v) ∈ replies st' <->
    v = VObj [("success", VBool false);
              ("error", VStr (exit_message code (stderr_of p evs)))].
Proof.
  intros st0 p Hlen Hall Hc st' v.
  destruct (first_exit_reply P l evs0 ch arg evs (Close p code) evs'
              (close_outcome P code (stdout_of p evs) (stderr_of p evs))
              Hlen Hall)
    as [Hin Hnodup]; [cbn; by rewrite Nat.eqb_refl|].
  rewrite handler_return_failed_exit in Hin by done.
  split; [| by intros ->].
  intros Hv. by eapply reply_unique.
Qed.

(** X3. No call is lost and none is answered early.  In every state the
    main process can reach: a reply belongs to a call that was made, no
    call has two replies, every call made is either answered or awaits a
    child that has not exited, and never both. *)
Theorem call_unanswered_while_child_runs (l : logs_dir) (evs : list event) :
  let st := exec P evs (init l) in
  NoDup (replies st).*1 /\
  forall i,
    (i < invocations st <-> answered st i \/ awaiting st i) /\
    ~ (answered st i /\ awaiting st i).
Proof.
  intros st.
  assert (K : calls_ok st) by apply calls_ok_exec, calls_ok_init.
  destruct K as [K1 K2 K3 K4 K5 K6 K7 K8].
  split; [exact K2|]. intros i. split; [split|].
  - apply K8.
  - intros [[v Hv]|(p & r & Hp & <- & _)]; [by eapply K1 | by eapply K3].
  - intros [Ha (p & r & Hp & <- & Hex)].
    eapply K6; [exact Hp | by apply (K5 p r Hp) | exact Ha].
Qed.

End Extras.
Section Kills.
Variable P : platform.

Lemma kills_ok_init (l : logs_dir) : kills_ok (init l).
Proof.
  split; simpl.
  - constructor.
  - intros p H. by apply elem_of_nil in H.
  - done.
Qed.

Lemma kills_ok_step (st : state) (ev : event) :
  tracked st -> kills_ok st -> kills_ok (step P st ev).
Proof.
  intros Ht [K1 K2 K3].
  destruct (step_shape P st ev)
    as [(Hruns & _ & _ & Hk & Hpp & _)
       |[(v & Hruns & _ & _ & Hcase & _)
       |[(r & Hruns & _ & _ & _ & _ & _ & Hk & Hpp & _)
       |[(q & rq & rq' & Hq & Hruns & _ & _ & _ & _ & _ & Hk & Hpp & _)
       |(q & rq & o & Hq & _ & _ & Hk & Hpp & Hcase)]]]].
  - split; rewrite ?Hk, ?Hruns, ?Hpp; auto.
  - destruct Hcase as [[Hk Hpp]|(p & Hp & Hk & Hpp)].
    + split; rewrite ?Hk, ?Hruns, ?Hpp; auto.
    + destruct (Ht p Hp) as [Hlen _].
      split; rewrite ?Hk, ?Hruns, ?Hpp; [| |done].
      * apply NoDup_app. split; [done|]. split; [|apply NoDup_singleton].
        intros x Hx Hx'. apply list_elem_of_singleton in Hx'. subst x.
        by apply (K3 p).
      * intros x Hx. apply elem_of_app in Hx as [Hx|Hx]; [by apply K2|].
        apply list_elem_of_singleton in Hx. subst x. lia.
  - split; rewrite ?Hk, ?Hruns, ?Hpp; [done | |].
    + intros x Hx. apply K2 in Hx. rewrite length_app. lia.
    + intros x Hx [= <-]. apply K2 in Hx. lia.
  - split; rewrite ?Hk, ?Hruns, ?Hpp, ?length_insert; auto.
  - assert (Hlen : length (runs (step P st ev)) = length (runs st))
      by (destruct Hcase as [(_ & -> & _)|(_ & -> & _)];
          by rewrite length_insert).
    split; rewrite ?Hk, ?Hlen, ?Hpp; auto.
Qed.

Lemma kills_ok_exec (evs : list event) (st : state) :
  tracked st -> kills_ok st -> kills_ok (exec P evs st).
Proof.
  revert st. induction evs as [|ev evs IH]; intros st Ht K; simpl; [done|].
  apply IH; [by apply tracked_step | by apply kills_ok_step].
Qed.

Lemma step_runs_length (st : state) (ev : event) :
  length (runs st) <= length (runs (step P st ev)).
Proof.
  destruct (step_runs_shape P st ev) as [(r & -> & _)| ->]; [|done].
  rewrite length_app. lia.
Qed.

(** A child is killed while it is the one spawned last. *)
Lemma exec_kills_latest (evs : list event) (st : state) (p : pid) :
  tracked st ->
  p ∈ kills (exec P evs st) -> p ∈ kills st \/ length (runs st) <= S p.
Proof.
  revert st. induction evs as [|ev evs IH]; intros st Ht Hp; simpl in *.
  - by left.
  - destruct (IH _ (tracked_step P st ev Ht) Hp) as [Hk|Hlen].
    2: { right. pose proof (step_runs_length st ev). lia. }
    destruct (step_shape P st ev)
      as [(_ & _ & _ & Heq & _)
         |[(v & _ & _ & _ & Hcase & _)
         |[(r & _ & _ & _ & _ & _ & _ & Heq & _)
         |[(q & rq & rq' & _ & _ & _ & _ & _ & _ & _ & Heq & _)
         |(q & rq & o & _ & _ & _ & Heq & _)]]]];
      try (left; congruence).
    destruct Hcase as [[Heq _]|(p0 & Hp0 & Heq & _)]; [left; congruence|].
    rewrite Heq in Hk. apply elem_of_app in Hk as [Hk|Hk]; [by left|].
    apply list_elem_of_singleton in Hk. subst p0.
    destruct (Ht p Hp0) as [Hlen _]. right. lia.
Qed.

(** ** With 'before-quit' *)

Lemma tracked_app_step (st : state) (ev : app_event) :
  tracked st -> tracked (app_step P st ev).
Proof.
  intros Ht. destruct ev as [ev|]; cbn [app_step].
  - by apply tracked_step.
  - unfold before_quit. by destruct (pythonProcess st).
Qed.

Lemma tracked_app_exec (evs : list app_event) (st : state) :
  tracked st -> tracked (app_exec P evs st).
Proof.
  revert st. induction evs as [|ev evs IH]; intros st Ht; simpl; [done|].
  by apply IH, tracked_app_step.
Qed.

(** An event kills at most one child, the one the reference names. *)
Lemma app_step_kills (st : state) (ev : app_event) :
  kills (app_step P st ev) = kills st \/
  exists p, pythonProcess st = Some p /\
    kills (app_step P st ev) = kills st ++ [p].
Proof.
  destruct ev as [ev|]; cbn [app_step].
  - destruct (step_shape P st ev)
      as [(_ & _ & _ & Heq & _)
         |[(v & _ & _ & _ & Hcase & _)
         |[(r & _ & _ & _ & _ & _ & _ & Heq & _)
         |[(q & rq & rq' & _ & _ & _ & _ & _ & _ & _ & Heq & _)
         |(q & rq & o & _ & _ & _ & Heq & _)]]]];
      try (by left).
    destruct Hcase as [[Heq _]|(p & Hp & Heq & _)]; [by left|].
    right. by exists p.
  - unfold before_quit. destruct (pythonProcess st) as [p|]; [| by left].
    right. by exists p.
Qed.

Lemma app_step_runs_length (st : state) (ev : app_event) :
  length (runs st) <= length (runs (app_step P st ev)).
Proof.
  destruct ev as [ev|]; cbn [app_step].
  - apply step_runs_length.
  - unfold before_quit. by destruct (pythonProcess st).
Qed.

(** The children killed in a run of events are the last one spawned
    before it and children spawned in it. *)
Lemma app_exec_kills (evs : list app_event) (st : state) :
  tracked st ->
  length (runs st) <= length (runs (app_exec P evs st)) /\
  exists extra,
    kills (app_exec P evs st) = kills st ++ extra /\
    forall q, q ∈ extra ->
      length (runs st) <= S q /\ q < length (runs (app_exec P evs st)).
Proof.
  revert st. induction evs as [|ev evs IH]; intros st Ht; simpl.
  - split; [done|]. exists []. split; [by rewrite app_nil_r|].
    intros q Hq. by apply not_elem_of_nil in Hq.
  - pose proof (app_step_runs_length st ev) as Hlen.
    destruct (IH _ (tracked_app_step st ev Ht))
      as (Hlen' & extra & Hk & Hextra).
    split; [lia|].
    destruct (app_step_kills st ev) as [Heq|(p & Hp & Heq)];
      rewrite Heq in Hk.
    + exists extra. split; [done|].
      intros q Hq. destruct (Hextra q Hq). split; lia.
    + exists (p :: extra). split; [by rewrite Hk, <- app_assoc|].
      intros q Hq. apply elem_of_cons in Hq as [->|Hq].
      * destruct (Ht p Hp) as [Hlast _]. split; lia.
      * destruct (Hextra q Hq). split; lia.
Qed.

(** X4. [kill] reaches only the child spawned last.  In every state the
    main process can reach, 'before-quit' included: every killed child
    had been spawned; an event kills at most one child, the one the shared
    reference names, which is the child spawned last and has not exited;
    so once a later child exists, an earlier one is not killed any more,
    whatever happens (a run that another run has overlapped cannot be
    cancelled).  As long as the application is not quitting, no child is
    killed twice; but 'before-quit' kills the referenced child and keeps
    the reference, so that a cancel request after it kills the same child
    a second time. *)
Theorem kill_reaches_only_latest_child (l : logs_dir)
    (evs : list app_event) :
  let st := app_exec P evs (init l) in
  (forall p, p ∈ kills st -> p < length (runs st)) /\
  (forall ev : app_event,
     kills (app_step P st ev) = kills st \/
     exists p, pythonProcess st = Some p /\
       S p = length (runs st) /\ in_flight st p /\
       kills (app_step P st ev) = kills st ++ [p]) /\
  (forall evs' : list app_event, exists extra,
     kills (app_exec P evs' st) = kills st ++ extra /\
     forall q, q ∈ extra -> length (runs st) <= S q) /\
  (forall evs0 : list event, NoDup (kills (exec P evs0 (init l)))) /\
  (forall (p : pid) (arg : value), pythonProcess st = Some p ->
     kills (app_exec P [BeforeQuit; Process (Invoke CancelOperation arg)] st)
       = kills st ++ [p; p]).
Proof.
  intros st.
  assert (Ht : tracked st) by apply tracked_app_exec, tracked_init.
  split; [| split; [| split; [| split]]].
  - intros p Hp.
    destruct (app_exec_kills evs (init l) (tracked_init l))
      as (_ & extra & Hk & Hextra).
    apply Hextra. fold st in Hk. rewrite Hk in Hp. exact Hp.
  - intros ev. destruct (app_step_kills st ev) as [Heq|(p & Hp & Heq)];
      [by left|].
    right. exists p. destruct (Ht p Hp) as [Hlast Hfl]. done.
  - intros evs'. destruct (app_exec_kills evs' st Ht)
      as (_ & extra & Hk & Hextra).
    exists extra. split; [exact Hk|]. intros q Hq. by apply Hextra.
  - intros evs0.
    by destruct (kills_ok_exec evs0 (init l) (tracked_init l)
                   (kills_ok_init l)).
  - intros p arg Hp. cbn [app_exec fold_left app_step step].
    unfold before_quit. rewrite Hp.
    unfold handle, cancel_operation. fields. rewrite Hp. fields.
    by rewrite <- app_assoc.
Qed.

End Kills.

Section Forwarding.
Variable P : platform.

Lemma forward_progress_sent (lines : list string) (st : state)
    (msg : string * value) :
  msg ∈ sent (forward_progress P lines st) ->
  msg ∈ sent st \/
  fst msg = "progress-update" /\
  exists line, line ∈ lines /\ startsWith "PROGRESS:" line = true /\
    JSON_parse P (replace "PROGRESS:" "" line) = Some (snd msg).
Proof.
  revert st. induction lines as [|line rest IH]; intros st; simpl.
  - by left.
  - destruct (startsWith "PROGRESS:" line) eqn:Hs.
    + destruct (JSON_parse P _) as [v|] eqn:Hv; [| by left].
      unfold send. destruct (window_ok st); [| by left].
      intros H. destruct (IH _ H) as [H1|(H1 & line' & Hin & H2 & H3)].
      * fields. apply elem_of_app in H1 as [H1|H1]; [by left|].
        apply list_elem_of_singleton in H1. subst msg. right.
        split; [done|]. exists line. split; [by left|]. by split.
      * right. split; [done|]. exists line'. split; [by right|]. by split.
    + intros H. destruct (IH _ H) as [H1|(H1 & line' & Hin & H2 & H3)].
      * by left.
      * right. split; [done|]. exists line'. split; [by right|]. by split.
Qed.

Lemma step_sent (st : state) (ev : event) (msg : string * value) :
  msg ∈ sent (step P st ev) -> msg ∈ sent st \/ forwarded_from P [ev] msg.
Proof.
  destruct ev as [ch arg|q data|q data|q code|q err| |l]; cbn [step].
  - (* a call sends nothing *)
    assert (Hsame : sent (handle P ch arg st) = sent st).
    { unfold handle, try_run, runPython, cancel_operation.
      destruct ch; fields;
        repeat match goal with
               | |- context [match ?x with _ => _ end] => destruct x; fields
               end; reflexivity. }
    rewrite Hsame. by left.
  - unfold on_stdout_data. cbv zeta.
    destruct (runs st !! q) as [rq|]; [| by left].
    intros H. apply forward_progress_sent in H
      as [H|(H1 & line & Hin & H2 & H3)]; [by left|].
    right. left. split; [done|]. exists q, data, line.
    split; [by apply list_elem_of_singleton|]. by repeat split.
  - unfold on_stderr_data, send. cbv zeta.
    destruct (runs st !! q) as [rq|]; [| by left].
    fields. destruct (window_ok st); fields; [| by left].
    intros H. apply elem_of_app in H as [H|H]; [by left|].
    apply list_elem_of_singleton in H. subst msg.
    right. right. split; [done|]. exists q, data.
    split; [by apply list_elem_of_singleton | done].
  - assert (Hsame : sent (on_close P q code st) = sent st).
    { unfold on_close, settle. cbv zeta.
      destruct (runs st !! q) as [rq|]; [| done]. fields.
      rewrite list_lookup_alter_eq.
      destruct (runs st !! q) as [rq'|]; [| done]. simpl.
      by destruct (settled rq'). }
    rewrite Hsame. by left.
  - assert (Hsame : sent (on_error q err st) = sent st).
    { unfold on_error, settle. cbv zeta.
      destruct (runs st !! q) as [rq|]; [| done]. fields.
      rewrite list_lookup_alter_eq.
      destruct (runs st !! q) as [rq'|]; [| done]. simpl.
      by destruct (settled rq'). }
    rewrite Hsame. by left.
  - by left.
  - by left.
Qed.

Lemma forwarded_from_app (evs1 evs2 : list event) (msg : string * value) :
  forwarded_from P evs1 msg \/ forwarded_from P evs2 msg ->
  forwarded_from P (evs1 ++ evs2) msg.
Proof.
  unfold forwarded_from.
  intros [[(H1 & p & data & line & Hin & H2)|(H1 & p & data & Hin & H2)]
         |[(H1 & p & data & line & Hin & H2)|(H1 & p & data & Hin & H2)]].
  - left. split; [done|]. exists p, data, line.
    split; [apply elem_of_app; by left | done].
  - right. split; [done|]. exists p, data.
    split; [apply elem_of_app; by left | done].
  - left. split; [done|]. exists p, data, line.
    split; [apply elem_of_app; by right | done].
  - right. split; [done|]. exists p, data.
    split; [apply elem_of_app; by right | done].
Qed.

(** X5. The renderer is sent nothing but the output of the children.
    Every message the main process has sent to the window is either a
    'progress-update' whose payload is the parsed rest of a line that
    begins with "PROGRESS:" in one chunk of a child's stdout, or a
    'log-message' of type "error" whose text is one chunk of a child's
    stderr. *)
Theorem renderer_receives_only_child_output (l : logs_dir)
    (evs : list event) (msg : string * value) :
  msg ∈ sent (exec P evs (init l)) -> forwarded_from P evs msg.
Proof.
  revert msg. induction evs as [|ev evs IH] using rev_ind; intros msg H.
  - by apply elem_of_nil in H.
  - rewrite exec_snoc in H. apply forwarded_from_app.
    apply step_sent in H as [H|H]; [left; by apply IH | by right].
Qed.

End Forwarding.
Section CallsExamples.
Import Sample.

Lemma backend_answer_fixed_by_first_exit_witness :
  (0, VObj []) ∈ replies
    (exec platform
       ([] ++ Invoke Undo VUndefined ::
          [StdoutData 0 "RESULT:{}"; Invoke CancelOperation VUndefined] ++
          Close 0 (Some 0%Z) :: [Close 0 (Some 1%Z)])
       (init no_logs)).
Proof.
  apply (backend_answer_fixed_by_first_exit platform no_logs [] Undo VUndefined
           [StdoutData 0 "RESULT:{}"; Invoke CancelOperation VUndefined]
           (Close 0 (Some 0%Z)) [Close 0 (Some 1%Z)] (Resolved (VObj []))).
  - reflexivity.
  - repeat constructor.
  - vm_compute. reflexivity.
  - reflexivity.
Defined.

Lemma failed_run_reports_stderr_or_exit_code_witness :
  (0, VObj [("success", VBool false);
            ("error", VStr "Python process exited with code null")])
  ∈ replies
      (exec platform
         ([] ++ Invoke Categorize options ::
            [StdoutData 0 "PROGRESS:{}"; Invoke CancelOperation VUndefined] ++
            Close 0 None :: [])
         (init no_logs)).
Proof.
  apply (failed_run_reports_stderr_or_exit_code platform no_logs [] Categorize
           options
           [StdoutData 0 "PROGRESS:{}"; Invoke CancelOperation VUndefined]
           None []).
  - reflexivity.
  - repeat constructor.
  - discriminate.
  - reflexivity.
Defined.

Lemma renderer_receives_only_child_output_witness :
  forwarded_from platform
    [Invoke Undo VUndefined; StderrData 0 "Traceback"]
    ("log-message", VObj [("type", VStr "error"); ("message", VStr "Traceback")]).
Proof.
  apply (renderer_receives_only_child_output platform no_logs).
  vm_compute. left.
Defined.

End CallsExamples.

End MainFacts.
Module UIFacts.
Import JS UI StringFacts.

(** ** Rules for [keeps] *)

Lemma keeps_ret {A : Type} (I : world -> Prop) (a : A) : keeps I (mret a).
Proof. by intros w Hw. Qed.

Lemma keeps_lift {A : Type} (I : world -> Prop) (r : result A) :
  keeps I (lift r).
Proof. by intros w Hw. Qed.

Lemma keeps_get_state (I : world -> Prop) : keeps I get_state.
Proof. by intros w Hw. Qed.

Lemma keeps_bind {A B : Type} (I : world -> Prop) (m : action A)
    (k : A -> action B) :
  keeps I m -> (forall a, keeps I (k a)) -> keeps I (m ≫= k).
Proof.
  intros Hm Hk w Hw. unfold mbind, action_bind.
  specialize (Hm w Hw). destruct (m w) as [[a|e] w1]; simpl in *.
  - by apply (Hk a).
  - exact Hm.
Qed.

Lemma keeps_for_each {A : Type} (I : world -> Prop) (f : A -> action unit)
    (l : list A) :
  (forall a, keeps I (f a)) -> keeps I (for_each f l).
Proof.
  intros Hf. induction l as [|a l IH]; simpl.
  - apply keeps_ret.
  - apply keeps_bind; [apply Hf | intros _; exact IH].
Qed.

Lemma keeps_get_page (I : world -> Prop) : keeps I get_page.
Proof. by intros w Hw. Qed.

Lemma keeps_listen (I : world -> Prop) : observable I -> keeps I listen.
Proof. intros Hobs w Hw. exact (Hobs w (suspended w) true Hw). Qed.

(** Takes an action apart along the rules; [prim] is for the parts. *)
Ltac keeps_go prim :=
  repeat match goal with
    | |- keeps _ (mret _) => apply keeps_ret
    | |- keeps _ (lift _) => apply keeps_lift
    | |- keeps _ get_state => apply keeps_get_state
    | |- keeps _ get_page => apply keeps_get_page
    | |- keeps _ (mbind _ _) => apply keeps_bind; [| intros ?]
    | |- keeps _ (for_each _ _) => apply keeps_for_each; intros ?
    | |- keeps _ (if ?c then _ else _) => destruct c eqn:?
    | |- keeps _ (match ?x with _ => _ end) => destruct x eqn:?
    | |- keeps _ _ => progress prim
    end.

(** Runs the primitive actions of a term. *)
Ltac run_actions :=
  cbv [mbind action_bind mret action_ret lift get_state get_page modify_state
       set invoke toggle listen];
  cbn [fst snd st page invoked suspended listening
       with_st with_page with_suspended with_listening elements
       modeCheckboxes].

(** The parts of the script that only write to the page. *)
Ltac unfold_page_code :=
  unfold resume, click, init, change_setting, set_option, change_mode,
    updateModes, onLogMessage, onProgressUpdate,
    confirmSimulation, closeModal, showSimulationModal, sim_folder,
    showResult, show_errors, list_folders, list_errors,
    showResultPlaceholder, cancel, undo, categorize,
    simulate, selectFolder, checkUndo, updateButtons, hideProgress,
    showProgress, appendChild, read.

Section Runs.
Variable B : browser.

Lemma keeps_settled (I : world -> Prop) (now : string) (call : nat)
    (o : outcome) :
  observable I ->
  (forall k v, keeps I (resume B now k v)) ->
  keeps I (settled B now call o).
Proof.
  intros Hobs Hres w Hw. unfold settled.
  destruct (awaited call (suspended w)) as [k|]; [| exact Hw].
  pose proof (Hobs w (filter (fun ck => fst ck <> call) (suspended w))
                (listening w) Hw) as Hw'.
  destruct o as [v|e]; [| exact Hw'].
  by apply (Hres k v).
Qed.

(** A property that every listener keeps holds throughout a run. *)
Lemma keeps_exec (I : world -> Prop) :
  (forall now ev, keeps I (handle B now ev)) ->
  forall evs w, I w -> I (exec B evs w).
Proof.
  intros Hh evs. induction evs as [|[now ev] evs IH]; intros w Hw; simpl.
  - exact Hw.
  - apply IH. unfold step. cbn [fst snd].
    destruct (match ev with DOMContentLoaded => _ | _ => _ end);
      [by apply Hh | exact Hw].
Qed.

End Runs.

Section LogPanel.
Variable B : browser.

Lemma children_length_app (l1 l2 : list node) :
  children_length (l1 ++ l2) = children_length l1 + children_length l2.
Proof. unfold children_length. by rewrite filter_app, length_app. Qed.

Lemma removelast_snoc (l : list node) :
  l <> [] -> exists x, l = removelast l ++ [x].
Proof.
  intros Hl. exists (List.last l (Text "")). by apply app_removelast_last.
Qed.

(** The loop of [log] keeps the longest front of the list that has at
    most 100 elements. *)
Lemma remove_excess_spec (rounds : nat) (l : list node) :
  length l <= rounds ->
  remove_excess rounds l `prefix_of` l /\
  children_length (remove_excess rounds l) = min 100 (children_length l) /\
  (children_length l <= 100 -> remove_excess rounds l = l).
Proof.
  revert l. induction rounds as [|n IH]; intros l Hlen; cbn [remove_excess].
  - destruct l; [| exfalso; simpl in Hlen; lia].
    split; [reflexivity|]. by split.
  - destruct (Nat.ltb_spec 100 (children_length l)) as [Hgt|Hle].
    2: { split; [reflexivity|]. split; [lia | done]. }
    assert (Hne : l <> []) by (intros ->; cbn in Hgt; lia).
    destruct (removelast_snoc l Hne) as [x Hx].
    assert (Hlen' : length (removelast l) <= n).
    { rewrite Hx, length_app in Hlen. simpl in Hlen. lia. }
    assert (Hcount : children_length l =
              children_length (removelast l) + children_length [x])
      by (rewrite Hx at 1; apply children_length_app).
    assert (Hx1 : children_length [x] <= 1)
      by (destruct x; compute; lia).
    destruct (IH (removelast l) Hlen') as (H1 & H2 & H3).
    split; [|split].
    + etrans; [exact H1|]. rewrite Hx at 2. by apply prefix_app_r.
    + rewrite H2. lia.
    + lia.
Qed.

(** The child nodes of the log panel after [log]. *)
Lemma log_nodes (now : string) (message type : value) (w : world) :
  nodes (elements (page (snd (log now message type w))) "logContent") =
    remove_excess
      (length (log_entry now message type
                 :: nodes (elements (page w) "logContent")))
      (log_entry now message type :: nodes (elements (page w) "logContent")).
Proof.
  unfold log, set. cbn [snd page with_page elements].
  by rewrite fn_lookup_alter.
Qed.

(** [log] touches nothing but the log panel. *)
Lemma log_frame (now : string) (message type : value) (w : world) :
  let w' := snd (log now message type w) in
  st w' = st w /\ invoked w' = invoked w /\ suspended w' = suspended w /\
  listening w' = listening w /\
  modeCheckboxes (page w') = modeCheckboxes (page w) /\
  forall id, id <> "logContent" ->
    elements (page w') id = elements (page w) id.
Proof.
  unfold log, set. cbn [snd st page invoked suspended listening with_page
                        elements modeCheckboxes].
  repeat split. intros id Hid. by rewrite fn_lookup_alter_ne.
Qed.

(** X6. [log] keeps the newest hundred entries.  Whatever the log panel
    holds, after [log(message, type)] its child nodes are a front part of
    the new entry followed by the old nodes, the new entry comes first,
    and the panel has 100 element children if it would have more, and
    otherwise one more than before; nothing is removed unless there would
    be more than 100.  [log] does not throw. *)
Theorem log_keeps_newest_hundred (now : string) (message type : value)
    (w : world) :
  let entry := log_entry now message type in
  let before := nodes (elements (page w) "logContent") in
  let after :=
    nodes (elements (page (snd (log now message type w))) "logContent") in
  fst (log now message type w) = Ok tt /\
  after `prefix_of` (entry :: before) /\
  head after = Some entry /\
  children_length after = min 100 (S (children_length before)) /\
  (children_length before < 100 -> after = entry :: before).
Proof.
  intros entry before after. subst after. rewrite log_nodes.
  fold entry before.
  destruct (remove_excess_spec (length (entry :: before)) (entry :: before))
    as (H1 & H2 & H3); [done|].
  assert (Hc : children_length (entry :: before) = S (children_length before))
    by reflexivity.
  rewrite Hc in H2, H3.
  split; [reflexivity|]. split; [exact H1|]. split; [|split].
  - destruct H1 as [rest Hrest]. destruct (remove_excess _ _) as [|x after'].
    + cbn in H2. lia.
    + simpl in Hrest. by inversion Hrest.
  - exact H2.
  - intros Hlt. apply H3. lia.
Qed.

Lemma log_within_set (n : nat) (id : string) (f : element -> element) :
  id <> "logContent" -> keeps (log_within n) (set id f).
Proof.
  intros Hne w Hw. unfold log_within, log_length, set in *.
  cbn [snd page with_page elements]. by rewrite fn_lookup_alter_ne.
Qed.

Lemma log_within_log (n : nat) (now : string) (message type : value) :
  100 <= n -> keeps (log_within n) (log now message type).
Proof.
  intros Hn w Hw. unfold log_within, log_length in *. rewrite log_nodes.
  destruct (remove_excess_spec
              (length (log_entry now message type
                         :: nodes (elements (page w) "logContent")))
              (log_entry now message type
                 :: nodes (elements (page w) "logContent")))
    as (_ & -> & _); [done|]. lia.
Qed.

Lemma log_within_modify (n : nat) (f : state -> state) :
  keeps (log_within n) (modify_state f).
Proof. by intros w Hw. Qed.

Lemma log_within_invoke (n : nat) (c : string) (a : list value)
    (k : continuation) :
  keeps (log_within n) (invoke c a k).
Proof. by intros w Hw. Qed.

Lemma log_within_toggle (n : nat) (i : nat) : keeps (log_within n) (toggle i).
Proof. by intros w Hw. Qed.

Lemma log_within_observable (n : nat) : observable (log_within n).
Proof. by intros w l b Hw. Qed.

Ltac log_within_prim :=
  idtac;
  lazymatch goal with
  | |- keeps _ (log _ _ _) => apply log_within_log; assumption
  | |- keeps _ (set _ _) => apply log_within_set; discriminate
  | |- keeps _ (modify_state _) => apply log_within_modify
  | |- keeps _ (invoke _ _ _) => apply log_within_invoke
  | |- keeps _ (toggle _) => apply log_within_toggle
  | |- keeps _ listen => apply keeps_listen, log_within_observable
  end.

Lemma log_within_handle (n : nat) (now : string) (ev : event) :
  100 <= n -> keeps (log_within n) (handle B now ev).
Proof.
  intros Hn. destruct ev as [|b|i|which v|call o|data|data]; cbn [handle].
  - unfold_page_code. keeps_go log_within_prim.
  - destruct b; unfold_page_code; keeps_go log_within_prim.
  - unfold_page_code. keeps_go log_within_prim.
  - unfold_page_code. keeps_go log_within_prim.
  - apply keeps_settled; [apply log_within_observable|].
    intros k v. unfold_page_code. keeps_go log_within_prim.
  - unfold_page_code. keeps_go log_within_prim.
  - unfold_page_code. keeps_go log_within_prim.
Qed.

(** X7. The log panel stays within a hundred entries.  In every run of
    the renderer, from the moment the script is loaded, the log panel
    never has more element children than 100, or than index.html gave it
    if that was more. *)
Theorem log_panel_bounded (d : dom) (evs : list (string * event)) :
  log_length (exec B evs (start d))
    <= max 100 (log_length (start d)).
Proof.
  apply (keeps_exec B (log_within (max 100 (log_length (start d))))).
  - intros now ev. apply log_within_handle. lia.
  - unfold log_within. lia.
Qed.

End LogPanel.

Section Requests.
Variable B : browser.

Lemma nothing_to_do_false (s : state) :
  nothing_to_do s = false <-> runnable s.
Proof.
  unfold nothing_to_do, runnable.
  rewrite orb_false_iff, negb_false_iff, Nat.eqb_neq.
  split; intros [H1 H2]; (split; [exact H1|]).
  - intros Hm. by rewrite Hm in H2.
  - intros Hl. by apply length_zero_iff_nil in Hl.
Qed.

Lemma calls_guarded_invoke (c : string) (a : list value) (k : continuation) :
  guarded (c, a) -> keeps calls_guarded (invoke c a k).
Proof.
  intros Hg w Hw call. unfold invoke. cbn [snd invoked].
  intros Hin. apply elem_of_app in Hin as [Hin|Hin]; [by apply Hw|].
  apply list_elem_of_singleton in Hin. by subst call.
Qed.

Lemma calls_guarded_set (id : string) (f : element -> element) :
  keeps calls_guarded (set id f).
Proof. by intros w Hw. Qed.

Lemma calls_guarded_log (now : string) (message type : value) :
  keeps calls_guarded (log now message type).
Proof. by intros w Hw. Qed.

Lemma calls_guarded_modify (f : state -> state) :
  keeps calls_guarded (modify_state f).
Proof. by intros w Hw. Qed.

Lemma calls_guarded_toggle (i : nat) : keeps calls_guarded (toggle i).
Proof. by intros w Hw. Qed.

Lemma calls_guarded_observable : observable calls_guarded.
Proof. by intros w l b Hw. Qed.

Ltac calls_guarded_prim :=
  idtac;
  lazymatch goal with
  | |- keeps _ (log _ _ _) => apply calls_guarded_log
  | |- keeps _ (set _ _) => apply calls_guarded_set
  | |- keeps _ (modify_state _) => apply calls_guarded_modify
  | |- keeps _ (toggle _) => apply calls_guarded_toggle
  | |- keeps _ listen => apply keeps_listen, calls_guarded_observable
  | |- keeps _ (invoke _ _ _) =>
      apply calls_guarded_invoke; intros [H|H]; cbn in H;
      try discriminate H;
      (eexists; split; [reflexivity | by apply nothing_to_do_false])
  end.

Lemma calls_guarded_handle (now : string) (ev : event) :
  keeps calls_guarded (handle B now ev).
Proof.
  destruct ev as [|b|i|which v|call o|data|data]; cbn [handle].
  - unfold_page_code. keeps_go calls_guarded_prim.
  - destruct b; unfold_page_code; keeps_go calls_guarded_prim.
  - unfold_page_code. keeps_go calls_guarded_prim.
  - unfold_page_code. keeps_go calls_guarded_prim.
  - apply keeps_settled; [apply calls_guarded_observable|].
    intros k v. unfold_page_code. keeps_go calls_guarded_prim.
  - unfold_page_code. keeps_go calls_guarded_prim.
  - unfold_page_code. keeps_go calls_guarded_prim.
Qed.

Lemma request_arguments (P : Main.platform) (s : state) :
  Main.simulate_args P (request s) =
    Ok [VStr "--simulate"; VStr "--folder"; folder s;
        VStr "--modes"; Main.JSON_stringify P (VArr (map VStr (modes s)));
        VStr "--options";
        Main.JSON_stringify P (options_value (options s));
        VStr "--logs-path"; VStr (Main.getLogsPath P)] /\
  Main.categorize_args P (request s) =
    Ok [VStr "--execute"; VStr "--folder"; folder s;
        VStr "--modes"; Main.JSON_stringify P (VArr (map VStr (modes s)));
        VStr "--options";
        Main.JSON_stringify P (options_value (options s));
        VStr "--logs-path"; VStr (Main.getLogsPath P)].
Proof. by split. Qed.

(** X8. Simulate and categorize start only with a folder and a mode.
    In every run of the renderer, each call it makes on 'simulate' or
    'categorize' carries [{folderPath, modes, advancedOptions}] taken from
    a state in which [state.folder] is truthy and [state.modes] is not
    empty, whichever way the operation was started (button or the
    confirmation of the simulation modal).  For such a request the
    handler of the main process builds its argument list without
    throwing: the flag, the folder, the modes and the options as JSON (the
    options are an object, so the handler's default for a missing one is
    not used) and the logs path. *)
Theorem operations_start_with_folder_and_modes (P : Main.platform)
    (d : dom) (evs : list (string * event)) (channel : string)
    (args : list value) :
  (channel, args) ∈ invoked (exec B evs (start d)) ->
  channel = "simulate" \/ channel = "categorize" ->
  exists s,
    args = [request s] /\ truthy (folder s) = true /\ modes s <> [] /\
    Main.simulate_args P (request s) =
      Ok [VStr "--simulate"; VStr "--folder"; folder s;
          VStr "--modes"; Main.JSON_stringify P (VArr (map VStr (modes s)));
          VStr "--options";
          Main.JSON_stringify P (options_value (options s));
          VStr "--logs-path"; VStr (Main.getLogsPath P)] /\
    Main.categorize_args P (request s) =
      Ok [VStr "--execute"; VStr "--folder"; folder s;
          VStr "--modes"; Main.JSON_stringify P (VArr (map VStr (modes s)));
          VStr "--options";
          Main.JSON_stringify P (options_value (options s));
          VStr "--logs-path"; VStr (Main.getLogsPath P)].
Proof.
  intros Hin Hch.
  assert (Hg : calls_guarded (exec B evs (start d))).
  { apply (keeps_exec B calls_guarded).
    - apply calls_guarded_handle.
    - intros call Hcall. by apply elem_of_nil in Hcall. }
  destruct (Hg _ Hin Hch) as (s & Hargs & Hfolder & Hmodes).
  exists s. split; [exact Hargs|]. split; [exact Hfolder|].
  split; [exact Hmodes|]. apply request_arguments.
Qed.

End Requests.

Section RequestsExample.
Import SamplePage.

Lemma operations_start_with_folder_and_modes_witness :
  exists s,
    [request (with_modes ["extension"]
                (with_folder (VStr "/data") initial_state))] = [request s] /\
    truthy (folder s) = true /\ modes s <> [] /\
    Main.simulate_args Sample.platform (request s) =
      Ok [VStr "--simulate"; VStr "--folder"; folder s;
          VStr "--modes";
          Main.JSON_stringify Sample.platform (VArr (map VStr (modes s)));
          VStr "--options";
          Main.JSON_stringify Sample.platform (options_value (options s));
          VStr "--logs-path"; VStr (Main.getLogsPath Sample.platform)] /\
    Main.categorize_args Sample.platform (request s) =
      Ok [VStr "--execute"; VStr "--folder"; folder s;
          VStr "--modes";
          Main.JSON_stringify Sample.platform (VArr (map VStr (modes s)));
          VStr "--options";
          Main.JSON_stringify Sample.platform (options_value (options s));
          VStr "--logs-path"; VStr (Main.getLogsPath Sample.platform)].
Proof.
  apply (operations_start_with_folder_and_modes browser Sample.platform index
           simulate_data "simulate").
  - vm_compute. do 3 apply list_elem_of_further. apply list_elem_of_here.
  - by left.
Defined.

End RequestsExample.
Section Buttons.
Variable B : browser.

Lemma canRun_truthy (s : state) :
  truthy (canRun s) = true <-> runnable s.
Proof.
  unfold canRun, runnable. destruct (truthy (folder s)) eqn:Hf.
  - cbn [truthy]. rewrite Nat.ltb_lt. split.
    + intros Hl. split; [done|]. intros Hm. rewrite Hm in Hl. simpl in Hl. lia.
    + intros [_ Hm]. destruct (modes s); [done | simpl; lia].
  - rewrite Hf. split; [done | by intros [? _]].
Qed.

(** [updateButtons] sets the three buttons from the state. *)
Lemma updateButtons_sets (w : world) :
  let w' := snd (updateButtons w) in
  st w' = st w /\
  disabled (elements (page w') "categorizeBtn")
    = negb (truthy (canRun (st w))) /\
  disabled (elements (page w') "simulateBtn")
    = negb (truthy (canRun (st w))) /\
  disabled (elements (page w') "undoBtn") = negb (hasUndo (st w)).
Proof.
  unfold updateButtons. run_actions.
  rewrite !fn_lookup_alter.
  rewrite !fn_lookup_alter_ne by discriminate. rewrite !fn_lookup_alter.
  rewrite !fn_lookup_alter_ne by discriminate. rewrite !fn_lookup_alter.
  done.
Qed.

Lemma buttons_safe_updateButtons : keeps buttons_safe updateButtons.
Proof.
  intros w _.
  destruct (updateButtons_sets w) as (Hst & Hc & Hs & _).
  unfold buttons_safe. rewrite Hst, Hc, Hs.
  split; intros H; apply negb_false_iff in H; by apply canRun_truthy.
Qed.

Lemma buttons_safe_set (id : string) (f : element -> element) :
  id <> "categorizeBtn" -> id <> "simulateBtn" ->
  keeps buttons_safe (set id f).
Proof.
  intros H1 H2 w Hw. unfold buttons_safe, set in *.
  cbn [snd page st with_page elements].
  by rewrite !fn_lookup_alter_ne.
Qed.

Lemma buttons_safe_log (now : string) (message type : value) :
  keeps buttons_safe (log now message type).
Proof. apply buttons_safe_set; discriminate. Qed.

Lemma buttons_safe_modify (f : state -> state) :
  (forall s, runnable s -> runnable (f s)) ->
  keeps buttons_safe (modify_state f).
Proof.
  intros Hf w [H1 H2]. split; intros H; apply Hf; [by apply H1 | by apply H2].
Qed.

Lemma buttons_safe_invoke (c : string) (a : list value) (k : continuation) :
  keeps buttons_safe (invoke c a k).
Proof. by intros w Hw. Qed.

Lemma buttons_safe_toggle (i : nat) : keeps buttons_safe (toggle i).
Proof. by intros w Hw. Qed.

Lemma buttons_safe_observable : observable buttons_safe.
Proof. by intros w l b Hw. Qed.

(** [updateModes] ends with [updateButtons], and nothing before that
    throws. *)
Lemma buttons_safe_updateModes : keeps buttons_safe updateModes.
Proof.
  intros w _. unfold updateModes. run_actions.
  match goal with |- buttons_safe (snd (updateButtons ?w1)) =>
    destruct (updateButtons_sets w1) as (Hst & Hc & Hs & _);
    unfold buttons_safe; rewrite Hst, Hc, Hs
  end.
  split; intros H; apply negb_false_iff in H; by apply canRun_truthy.
Qed.

Ltac buttons_safe_prim :=
  idtac;
  lazymatch goal with
  | |- keeps _ (log _ _ _) => apply buttons_safe_log
  | |- keeps _ updateButtons => apply buttons_safe_updateButtons
  | |- keeps _ updateModes => apply buttons_safe_updateModes
  | |- keeps _ (set _ _) => apply buttons_safe_set; discriminate
  | |- keeps _ (invoke _ _ _) => apply buttons_safe_invoke
  | |- keeps _ (toggle _) => apply buttons_safe_toggle
  | |- keeps _ listen => apply keeps_listen, buttons_safe_observable
  | |- keeps _ (modify_state _) =>
      apply buttons_safe_modify; intros ? [? ?]; by split
  end.

(** The script apart from [updateButtons] and [updateModes]. *)
Ltac unfold_handlers :=
  unfold resume, click, init, change_setting, set_option, change_mode,
    onLogMessage, onProgressUpdate,
    confirmSimulation, closeModal, showSimulationModal, sim_folder,
    showResult, show_errors, list_folders, list_errors,
    showResultPlaceholder, cancel, undo, categorize,
    simulate, selectFolder, checkUndo, hideProgress,
    showProgress, appendChild, read.

Lemma buttons_safe_handle (now : string) (ev : event) :
  keeps buttons_safe (handle B now ev).
Proof.
  destruct ev as [|b|i|which v|call o|data|data]; cbn [handle].
  - unfold_handlers. keeps_go buttons_safe_prim.
  - destruct b; unfold_handlers; keeps_go buttons_safe_prim.
  - unfold_handlers. keeps_go buttons_safe_prim.
  - unfold_handlers. keeps_go buttons_safe_prim.
  - apply keeps_settled; [apply buttons_safe_observable|].
    intros k v. unfold_handlers. keeps_go buttons_safe_prim.
  - unfold_handlers. keeps_go buttons_safe_prim.
  - unfold_handlers. keeps_go buttons_safe_prim.
Qed.

(** X9. Categorize and Simulate are never enabled without a folder and
    a mode.  If index.html starts the two buttons disabled, then in every
    run of the renderer, whenever one of them is enabled, [state.folder]
    is truthy and [state.modes] is not empty. *)
Theorem buttons_enabled_only_when_runnable (d : dom)
    (evs : list (string * event)) :
  disabled (elements d "categorizeBtn") = true ->
  disabled (elements d "simulateBtn") = true ->
  let w := exec B evs (start d) in
  (disabled (elements (page w) "categorizeBtn") = false -> runnable (st w)) /\
  (disabled (elements (page w) "simulateBtn") = false -> runnable (st w)).
Proof.
  intros Hc Hs w.
  apply (keeps_exec B buttons_safe).
  - apply buttons_safe_handle.
  - split; cbn; intros H; congruence.
Qed.

End Buttons.
Section UndoButton.
Variable B : browser.
Variable P : Main.platform.

Lemma get_last_operation_truthy (l : Main.logs_dir) :
  truthy (Main.get_last_operation P l) = true <->
  exists v, Main.latest_log P l v /\ truthy v = true.
Proof.
  unfold Main.get_last_operation, Main.latest_log.
  destruct (Main.entries l) as [names|] eqn:He.
  2: { split; [done|]. by intros (v & (? & ? & ? & ? & _) & _). }
  pose proof (MainFacts.greatest_after_sort_reverse
    (filter (fun f => Main.is_operation_log f = true) names)) as H.
  destruct (reverse _) as [|first tl].
  - split; [done|].
    intros (v & (names' & latest & text & Hn & Hin & Hname & _) & _).
    inversion Hn; subst names'.
    assert (Hf : latest ∈ filter (fun f => Main.is_operation_log f = true) names)
      by (apply list_elem_of_filter; split;
          [by apply MainFacts.is_operation_log_iff | done]).
    rewrite H in Hf. by apply elem_of_nil in Hf.
  - destruct H as [Hfirst Hmax].
    apply list_elem_of_filter in Hfirst as [Hlog Hfirst].
    apply MainFacts.is_operation_log_iff in Hlog.
    assert (Hmax' : forall f, f ∈ names -> Main.operation_log_name f ->
              (f ≤ first)%string).
    { intros f Hf Hname. apply Hmax, list_elem_of_filter.
      split; [by apply MainFacts.is_operation_log_iff | done]. }
    split.
    + intros Ht.
      destruct (Main.contents l _) as [text|] eqn:Hc; [| done].
      destruct (Main.JSON_parse P text) as [v|] eqn:Hv; [| done].
      exists v. split; [| exact Ht].
      exists names, first, text. by repeat split.
    + intros (v & (names' & latest & text & Hn & Hin & Hname & Hgreatest
               & Hc & Hv) & Ht).
      inversion Hn; subst names'.
      assert (latest = first) as ->.
      { apply (anti_symm String.le); [by apply Hmax' | by apply Hgreatest]. }
      by rewrite Hc, Hv.
Qed.

(** X10. Undo is offered exactly when the newest operation log is
    usable.  When the answer of 'get-last-operation' for the logs
    directory reaches [checkUndo], [state.hasUndo] becomes true and the
    Undo button enabled if the directory can be listed, holds a name of
    the form operation_*.json, and the greatest such name is a file that
    can be read and parses to a truthy value; otherwise [hasUndo] becomes
    false and the button disabled, also when older logs are intact. *)
Theorem undo_offered_iff_latest_log_usable (l : Main.logs_dir)
    (now : string) (call : nat) (w : world) :
  awaited call (suspended w) = Some after_getLastOperation ->
  let w' :=
    snd (settled B now call (Resolved (Main.get_last_operation P l)) w) in
  (hasUndo (st w') = true <-> exists v, Main.latest_log P l v /\ truthy v = true) /\
  disabled (elements (page w') "undoBtn") = negb (hasUndo (st w')).
Proof.
  intros Hk w'. subst w'. unfold settled. rewrite Hk.
  cbn [resume]. run_actions.
  match goal with |- context [updateButtons ?w1] =>
    destruct (updateButtons_sets w1) as (Hst & _ & _ & Hu)
  end.
  rewrite Hst, Hu. cbn [st with_st with_suspended hasUndo with_hasUndo].
  split; [apply get_last_operation_truthy | done].
Qed.

End UndoButton.
Section Failures.
Variable B : browser.

Lemma remove_excess_head (l : list node) (x : node) :
  is_element x = true ->
  head (remove_excess (length (x :: l)) (x :: l)) = Some x.
Proof.
  intros Hx.
  destruct (remove_excess_spec (length (x :: l)) (x :: l)) as (H1 & H2 & _);
    [done|].
  assert (Hc : children_length (x :: l) = S (children_length l)).
  { unfold children_length. rewrite filter_cons_True by done. done. }
  rewrite Hc in H2. destruct H1 as [rest Hrest].
  destruct (remove_excess _ _) as [|y l'].
  - cbn in H2. lia.
  - simpl in Hrest. by inversion Hrest.
Qed.

Lemma log_head (now : string) (message type : value) (w : world) :
  head (nodes (elements (page (snd (log now message type w))) "logContent"))
  = Some (log_entry now message type).
Proof.
  unfold log, set. cbn [snd page with_page elements].
  rewrite fn_lookup_alter. cbn [nodes with_nodes].
  by apply remove_excess_head.
Qed.

(** X11. A failed backend run is reported in the log.  When the answer
    [{success: false, error: message}] that the handlers of the main
    process give for a failed run reaches the function that awaits a scan,
    a simulation, a categorization or an undo, that function hides the
    progress bar and puts "<operation> error: <message>" with class
    "log-entry error" at the top of the log; it leaves [state], the
    result panel, the simulation modal and every other element but the
    three operation buttons as they are, and makes no further call, except
    that undo goes on to ask for the last operation. *)
Theorem failed_run_is_logged (now : string) (k : continuation)
    (label : string) (e : exn) (w : world) :
  error_label k = Some label ->
  let r := resume B now k (Main.failure e) w in
  fst r = Ok tt /\
  head (nodes (elements (page (snd r)) "logContent")) =
    Some (log_entry now (VStr (label +:+ message e)) (VStr "error")) /\
  hidden (elements (page (snd r)) "progressBar") = true /\
  st (snd r) = st w /\
  invoked (snd r) =
    invoked w ++
    match k with
    | after_undo => [("get-last-operation", [])]
    | _ => []
    end /\
  forall id,
    id <> "logContent" -> id <> "progressBar" -> id <> "categorizeBtn" ->
    id <> "simulateBtn" -> id <> "undoBtn" ->
    elements (page (snd r)) id = elements (page w) id.
Proof.
  intros Hk r. subst r.
  destruct k; inversion Hk; subst label;
    unfold resume, hideProgress, read, Main.failure, checkUndo, updateButtons;
    run_actions; cbn -[log alter];
    match goal with |- context [log ?n ?m ?t ?w1] =>
      pose proof (log_head n m t w1) as Hhead;
      destruct (log_frame n m t w1) as (Hst & Hinv & _ & _ & _ & Hframe);
      destruct (log n m t w1) as [res w2] eqn:Hlog;
      assert (Hres : res = Ok tt)
        by (unfold log, set in Hlog; by inversion Hlog);
      subst res; cbn [fst snd] in *;
      cbn [st page invoked with_page elements]
    end.
  - (* scan *)
    split; [done|]. rewrite !fn_lookup_alter_ne by discriminate.
    split; [exact Hhead|]. split.
    { rewrite Hframe by discriminate. cbn. by rewrite fn_lookup_alter. }
    split; [by rewrite Hst|]. split; [by rewrite Hinv, app_nil_r|].
    intros id H1 H2 H3 H4 H5.
    rewrite !fn_lookup_alter_ne by done. rewrite Hframe by done.
    cbn. by rewrite fn_lookup_alter_ne.
  - (* simulate *)
    split; [done|]. split; [exact Hhead|]. split.
    { rewrite Hframe by discriminate. cbn. by rewrite fn_lookup_alter. }
    split; [by rewrite Hst|]. split; [by rewrite Hinv, app_nil_r|].
    intros id H1 H2 H3 H4 H5. rewrite Hframe by done.
    cbn. by rewrite fn_lookup_alter_ne.
  - (* categorize *)
    split; [done|]. split; [exact Hhead|]. split.
    { rewrite Hframe by discriminate. cbn. by rewrite fn_lookup_alter. }
    split; [by rewrite Hst|]. split; [by rewrite Hinv, app_nil_r|].
    intros id H1 H2 H3 H4 H5. rewrite Hframe by done.
    cbn. by rewrite fn_lookup_alter_ne.
  - (* undo *)
    split; [done|]. split; [exact Hhead|]. split.
    { rewrite Hframe by discriminate. cbn. by rewrite fn_lookup_alter. }
    split; [by rewrite Hst|]. split; [by rewrite Hinv|].
    intros id H1 H2 H3 H4 H5. rewrite Hframe by done.
    cbn. by rewrite fn_lookup_alter_ne.
Qed.

End Failures.
Section Preview.
Variable B : browser.

Lemma sim_file_line (file : value) :
  file <> VUndefined -> file <> VNull ->
  sim_file B file = Ok (preview_line file).
Proof. intros H1 H2. by destruct file. Qed.

Lemma sim_files_lines (items : list value) :
  Forall (fun file => file <> VUndefined /\ file <> VNull) items ->
  sim_files B items = Ok (map preview_line items).
Proof.
  induction 1 as [|file items [H1 H2] _ IH]; [done|].
  cbn [sim_files]. rewrite sim_file_line by done.
  cbv [mbind result_bind]. by rewrite IH.
Qed.

Lemma sim_folder_appends (folder_ : string) (files : value) (w : world) :
  listable files ->
  sim_folder B folder_ files w =
    appendChild "simPreview" (preview_block (folder_, files)) w.
Proof.
  intros (items & -> & Hall). unfold sim_folder.
  cbv [slice_0_5 lift mbind action_bind].
  rewrite sim_files_lines by (by apply Forall_take).
  reflexivity.
Qed.

(** The loop over the entries of a plan whose folders are all listable:
    it appends one block for each, in order, and touches nothing else. *)
Lemma preview_loop (fields : list (string * value)) (w : world) :
  Forall (fun kv => listable (snd kv)) fields ->
  let r := for_each (fun kv : string * value =>
                       sim_folder B (fst kv) (snd kv)) fields w in
  fst r = Ok tt /\
  nodes (elements (page (snd r)) "simPreview") =
    nodes (elements (page w) "simPreview") ++ map preview_block fields /\
  (forall id, id <> "simPreview" ->
     elements (page (snd r)) id = elements (page w) id) /\
  st (snd r) = st w /\ invoked (snd r) = invoked w.
Proof.
  intros Hall. revert w.
  induction Hall as [|[folder_ files] fields Hkv _ IH]; intros w.
  - cbn. by rewrite app_nil_r.
  - cbn [for_each fst snd]. cbv [mbind action_bind].
    rewrite sim_folder_appends by done.
    cbv [appendChild set].
    specialize (IH (with_page
      {| elements := alter (fun e => with_nodes
                              (nodes e ++ [preview_block (folder_, files)]) e)
                       "simPreview" (elements (page w));
         modeCheckboxes := modeCheckboxes (page w) |} w)).
    cbv zeta in IH. destruct IH as (H1 & H2 & H3 & H4 & H5).
    split; [exact H1|]. split; [|split; [|split]].
    + rewrite H2. cbn [page with_page elements].
      rewrite fn_lookup_alter. cbn [nodes with_nodes map].
      by rewrite <- app_assoc.
    + intros id Hid. rewrite H3 by done. cbn [page with_page elements].
      by rewrite fn_lookup_alter_ne.
    + by rewrite H4.
    + by rewrite H5.
Qed.

(** X12. The simulation preview shows five files for a folder.  For a
    simulation result whose plan is an object that gives each folder an
    array of file names or file objects, [showSimulationModal] returns
    and opens the modal, with the number of folders in the folder
    counter and one block for each folder, in the order of the plan: a
    block lists the first five files of the folder, each by its name, in
    order, followed, when the folder has more than five, by one line
    that gives the number of the remaining files. *)
Theorem simulation_preview_lists_five_files (result : value)
    (fields : list (string * value)) (w : world) :
  get (type_error B) result "plan" = Ok (VObj fields) ->
  Forall (fun kv => listable (snd kv)) fields ->
  let r := showSimulationModal B result w in
  let blocks := nodes (elements (page (snd r)) "simPreview") in
  fst r = Ok tt /\
  hidden (elements (page (snd r)) "simulationModal") = false /\
  text (elements (page (snd r)) "simFolders")
    = VNum (pretty (length fields)) /\
  length blocks = length fields /\
  forall i folder_ items,
    fields !! i = Some (folder_, VArr items) ->
    exists lines,
      blocks !! i =
        Some (Element "sim-folder" (Some (sim_folder_name folder_)) None
                lines) /\
      length lines =
        min 5 (length items) + (if (5 <? length items)%nat then 1 else 0) /\
      (forall j file, j < 5 -> items !! j = Some file ->
         lines !! j = Some (preview_line file)) /\
      (5 < length items ->
         lines !! 5 =
           Some (Element "sim-file" None
                   (Some (VStr (corner +:+ " ... and " +:+
                               pretty (length items - 5) +:+ " more files")))
                   [])).
Proof.
  intros Hplan Hall r blocks.
  assert (Hnn : exists tf, get (type_error B) result "total_files" = Ok tf).
  { destruct result; try discriminate Hplan; by eexists. }
  destruct Hnn as [tf Htf].
  subst blocks r. unfold showSimulationModal, read.
  rewrite Htf, Hplan. run_actions. cbn [truthy or_else entries].
  match goal with |- context [for_each ?f fields ?w1] =>
    destruct (preview_loop fields w1 Hall) as (H1 & H2 & H3 & H4 & H5);
    destruct (for_each f fields w1) as [res w2]
  end.
  cbn [fst snd] in *. subst res. cbn [fst snd page with_page elements].
  cbn [page with_page elements] in H2, H3.
  rewrite fn_lookup_alter in H2. cbn [nodes with_nodes app] in H2.
  assert (Hblocks :
    nodes (alter (with_hidden false) "simulationModal" (elements (page w2))
             "simPreview") = map preview_block fields)
    by (by rewrite fn_lookup_alter_ne by discriminate).
  rewrite Hblocks.
  split; [done|]. split; [by rewrite fn_lookup_alter|]. split.
  { rewrite fn_lookup_alter_ne by discriminate.
    rewrite H3 by discriminate.
    rewrite fn_lookup_alter_ne by discriminate. by rewrite fn_lookup_alter. }
  split; [by rewrite length_map|].
  intros i folder_ items Hi.
  exists (map preview_line (take 5 items) ++ sim_more (length items)).
  split; [|split; [|split]].
  - by rewrite list_lookup_fmap, Hi.
  - rewrite length_app, length_map, length_take. unfold sim_more.
    destruct (5 <? length items)%nat; simpl; lia.
  - intros j file Hj Hfile.
    rewrite lookup_app_l by (rewrite length_map, length_take;
      apply lookup_lt_Some in Hfile; lia).
    rewrite list_lookup_fmap, lookup_take_lt by done. by rewrite Hfile.
  - intros Hlen.
    rewrite lookup_app_r by (rewrite length_map, length_take; lia).
    rewrite length_map, length_take.
    replace (5 - 5 `min` length items) with 0 by lia.
    unfold sim_more. by destruct (Nat.ltb_spec 5 (length items)); [|lia].
Qed.

End Preview.
Section PreviewFails.
Variable B : browser.

Lemma sim_folder_throws (folder_ : string) (files : value) (w : world) :
  (forall items, files <> VArr items) ->
  exists e, sim_folder B folder_ files w = (Throw e, w).
Proof.
  intros Hnot. unfold sim_folder. cbv [lift mbind action_bind].
  destruct files; cbn [slice_0_5]; try (by eexists).
  by destruct (Hnot items).
Qed.

Lemma for_each_app {A : Type} (f : A -> action unit) (l1 l2 : list A)
    (w : world) :
  for_each f (l1 ++ l2) w =
    match for_each f l1 w with
    | (Ok _, w1) => for_each f l2 w1
    | (Throw e, w1) => (Throw e, w1)
    end.
Proof.
  revert w. induction l1 as [|a l1 IH]; intros w.
  - reflexivity.
  - cbn [app for_each]. cbv [mbind action_bind].
    destruct (f a w) as [[[]|e] w1]; [apply IH | done].
Qed.

(** X13. A plan entry that is no array leaves the simulation unseen.
    When a simulation answers with success and a plan in which the files
    of some folder are not an array, the function that awaited it hides
    the progress bar and then throws while building the preview: the
    preview holds the blocks of the folders before that one, the modal
    keeps the visibility it had, and nothing is written to the log. *)
Theorem malformed_plan_leaves_modal_closed (now : string) (result success : value)
    (good rest : list (string * value)) (folder_ : string) (files : value)
    (w : world) :
  get (type_error B) result "success" = Ok success ->
  truthy success = true ->
  get (type_error B) result "plan"
    = Ok (VObj (good ++ (folder_, files) :: rest)) ->
  Forall (fun kv => listable (snd kv)) good ->
  (forall items, files <> VArr items) ->
  let r := resume B now after_simulate result w in
  (exists e, fst r = Throw e) /\
  hidden (elements (page (snd r)) "progressBar") = true /\
  hidden (elements (page (snd r)) "simulationModal")
    = hidden (elements (page w) "simulationModal") /\
  nodes (elements (page (snd r)) "simPreview") = map preview_block good /\
  nodes (elements (page (snd r)) "logContent")
    = nodes (elements (page w) "logContent").
Proof.
  intros Hsuccess Htruthy Hplan Hgood Hnot r. subst r.
  assert (Hnn : exists tf, get (type_error B) result "total_files" = Ok tf).
  { destruct result; try discriminate Hplan; by eexists. }
  destruct Hnn as [tf Htf].
  unfold resume, hideProgress, showSimulationModal, read.
  rewrite Hsuccess. run_actions. rewrite Htruthy.
  rewrite Htf, Hplan. run_actions. cbn [truthy or_else entries].
  match goal with |- context [for_each ?f _ ?w1] =>
    rewrite (for_each_app f good ((folder_, files) :: rest) w1);
    destruct (preview_loop B good w1 Hgood) as (H1 & H2 & H3 & _);
    destruct (for_each f good w1) as [res w2]
  end.
  cbn [fst snd] in *. subst res.
  cbn [for_each fst snd]. cbv [mbind action_bind].
  destruct (sim_folder_throws folder_ files w2 Hnot) as [e ->].
  cbn [fst snd]. cbn [page with_page elements] in H2, H3.
  rewrite fn_lookup_alter in H2. cbn [nodes with_nodes app] in H2.
  split; [by exists e|]. split.
  { rewrite H3 by discriminate.
    rewrite !fn_lookup_alter_ne by discriminate. by rewrite fn_lookup_alter. }
  split.
  { rewrite H3 by discriminate.
    by rewrite !fn_lookup_alter_ne by discriminate. }
  split; [exact H2|].
  rewrite H3 by discriminate.
  by rewrite !fn_lookup_alter_ne by discriminate.
Qed.

End PreviewFails.

Section FolderDialog.
Variable B : browser.

(** X14. Cancelling the folder dialog changes nothing.  The answer of
    'select-folder' is [null] for a cancelled dialog, undefined for one
    closed without a path, and the first chosen path otherwise.  When it
    reaches [selectFolder] and is not a non-empty path, the function
    returns with the state, the page and the calls as they were; for a
    non-empty path it stores the path in [state.folder] and the path
    field, logs "Folder selected: <path>", shows the progress bar with
    "Scanning folder..." at 0% and calls 'scan-folder' with the path. *)
Theorem folder_dialog_outcome (dialog : Main.open_dialog) (now : string)
    (call : nat) (w : world) :
  awaited call (suspended w) = Some after_selectFolder ->
  let r := settled B now call (Resolved (Main.select_folder dialog)) w in
  fst r = Ok tt /\
  match (if Main.canceled dialog then None else head (Main.filePaths dialog))
  with
  | Some (String c rest) =>
      let path := String c rest in
      st (snd r) = with_folder (VStr path) (st w) /\
      input_value (elements (page (snd r)) "folderPath") = VStr path /\
      head (nodes (elements (page (snd r)) "logContent")) =
        Some (log_entry now (VStr ("Folder selected: " +:+ path))
                (VStr "info")) /\
      hidden (elements (page (snd r)) "progressBar") = false /\
      text (elements (page (snd r)) "progressText")
        = VStr "Scanning folder..." /\
      width (elements (page (snd r)) "progressFill") = "0%" /\
      invoked (snd r) = invoked w ++ [("scan-folder", [VStr path])]
  | _ =>
      st (snd r) = st w /\ page (snd r) = page w /\
      invoked (snd r) = invoked w
  end.
Proof.
  intros Hk r. subst r. unfold settled. rewrite Hk.
  unfold Main.select_folder.
  destruct (Main.canceled dialog); [done|].
  destruct (Main.filePaths dialog) as [|[|c rest] more]; [done | done |].
  cbn [head resume truthy String.eqb negb].
  unfold showProgress. run_actions.
  match goal with |- context [log ?n ?m ?t ?w1] =>
    pose proof (log_head n m t w1) as Hhead;
    destruct (log_frame n m t w1) as (Hst & Hinv & _ & _ & _ & Hframe);
    destruct (log n m t w1) as [res w2] eqn:Hlog;
    assert (Hres : res = Ok tt)
      by (unfold log, set in Hlog; by inversion Hlog);
    subst res; cbn [fst snd] in *;
    cbn [st page invoked with_page elements]
  end.
  split; [done|]. split; [by rewrite Hst|]. split.
  { rewrite !fn_lookup_alter_ne by discriminate. rewrite Hframe by discriminate.
    cbn. by rewrite fn_lookup_alter. }
  split.
  { rewrite !fn_lookup_alter_ne by discriminate. exact Hhead. }
  split; [by rewrite fn_lookup_alter|]. split.
  { rewrite !fn_lookup_alter_ne by discriminate. by rewrite fn_lookup_alter. }
  split.
  { rewrite fn_lookup_alter_ne by discriminate. by rewrite fn_lookup_alter. }
  by rewrite Hinv.
Qed.

End FolderDialog.

Section StderrToLog.
Variable B : browser.
Variable P : Main.platform.

(** X15. What a child writes to stderr appears in the log as an error.
    While the window exists, a chunk of stderr of a spawned child is sent
    as one 'log-message' [{type: "error", message: chunk}], and the
    listener of the renderer puts the chunk, with class "log-entry error",
    at the top of the log and touches nothing else. *)
Theorem stderr_chunk_reaches_log (ms : Main.state) (p : nat) (r : Main.run)
    (data now : string) (w : world) :
  Main.runs ms !! p = Some r ->
  Main.window_ok ms = true ->
  let payload := VObj [("type", VStr "error"); ("message", VStr data)] in
  let w' := snd (handle B now (LogMessage payload) w) in
  Main.sent (Main.step P ms (Main.StderrData p data))
    = Main.sent ms ++ [("log-message", payload)] /\
  fst (handle B now (LogMessage payload) w) = Ok tt /\
  head (nodes (elements (page w') "logContent"))
    = Some (Element "log-entry error" None
              (Some (VStr ("[" +:+ now +:+ "] " +:+ data))) []) /\
  st w' = st w /\ invoked w' = invoked w /\
  forall id, id <> "logContent" ->
    elements (page w') id = elements (page w) id.
Proof.
  intros Hr Hw payload w'. subst w' payload. split.
  { cbn [Main.step]. unfold Main.on_stderr_data, Main.send. rewrite Hr.
    cbn. by rewrite Hw. }
  cbn [handle]. unfold onLogMessage, read. run_actions.
  cbn [get assoc String.eqb Ascii.eqb Bool.eqb default].
  match goal with |- context [log ?n ?m ?t ?w1] =>
    pose proof (log_head n m t w1) as Hhead;
    destruct (log_frame n m t w1) as (Hst & Hinv & _ & _ & _ & Hframe);
    destruct (log n m t w1) as [res w2] eqn:Hlog;
    assert (Hres : res = Ok tt)
      by (unfold log, set in Hlog; by inversion Hlog);
    subst res; cbn [fst snd] in *
  end.
  by repeat split.
Qed.

End StderrToLog.
Section PageExamples.
Import SamplePage.

Lemma buttons_enabled_only_when_runnable_witness :
  (disabled (elements (page (exec browser simulate_data (start index)))
               "categorizeBtn") = false ->
   runnable (st (exec browser simulate_data (start index)))) /\
  (disabled (elements (page (exec browser simulate_data (start index)))
               "simulateBtn") = false ->
   runnable (st (exec browser simulate_data (start index)))).
Proof.
  apply (buttons_enabled_only_when_runnable browser index
           simulate_data); reflexivity.
Defined.

Lemma undo_offered_iff_latest_log_usable_witness :
  hasUndo (st (snd (settled browser "09:00:01" 0
                      (Resolved (Main.get_last_operation Sample.platform
                                   Sample.some_logs)) loaded))) = true <->
  exists v, Main.latest_log Sample.platform Sample.some_logs v /\
    truthy v = true.
Proof.
  exact (proj1 (undo_offered_iff_latest_log_usable browser Sample.platform
                  Sample.some_logs "09:00:01" 0 loaded eq_refl)).
Defined.

Lemma failed_run_is_logged_witness :
  head (nodes (elements
         (page (snd (resume browser "09:01:00" after_categorize
                       (Main.failure (Error "Permission denied"))
                       (start index))))
         "logContent")) =
    Some (log_entry "09:01:00"
            (VStr ("Categorization error: " +:+ "Permission denied"))
            (VStr "error")).
Proof.
  exact (proj1 (proj2 (failed_run_is_logged browser "09:01:00"
                         after_categorize "Categorization error: "
                         (Error "Permission denied") (start index)
                         eq_refl))).
Defined.

Lemma listable_pictures : listable (VArr pictures).
Proof.
  exists pictures. split; [reflexivity|].
  repeat constructor; discriminate.
Qed.

Lemma simulation_preview_lists_five_files_witness :
  fst (showSimulationModal browser simulated (start index)) = Ok tt /\
  hidden (elements
            (page (snd (showSimulationModal browser simulated
                          (start index))))
            "simulationModal") = false.
Proof.
  assert (Hall : Forall (fun kv : string * value => listable (snd kv))
                   [("jpg", VArr pictures); ("pdf", VArr [VStr "report.pdf"])]).
  { constructor; [exact listable_pictures|].
    constructor; [|constructor].
    exists [VStr "report.pdf"]. split; [reflexivity|].
    repeat constructor; discriminate. }
  pose proof (simulation_preview_lists_five_files browser simulated _
                (start index) eq_refl Hall) as W.
  cbv zeta in W. destruct W as (W1 & W2 & _). by split.
Defined.

Lemma malformed_plan_leaves_modal_closed_witness :
  hidden (elements
            (page (snd (resume browser "09:02:00" after_simulate
                          simulated_badly (start index))))
            "simulationModal") = true /\
  nodes (elements
           (page (snd (resume browser "09:02:00" after_simulate
                         simulated_badly (start index))))
           "simPreview") = [preview_block ("jpg", VArr pictures)].
Proof.
  assert (Hgood : Forall (fun kv : string * value => listable (snd kv))
                    [("jpg", VArr pictures)])
    by (constructor; [exact listable_pictures | constructor]).
  pose proof (malformed_plan_leaves_modal_closed browser "09:02:00"
                simulated_badly (VBool true) [("jpg", VArr pictures)] []
                "pdf" (VStr "report.pdf") (start index)
                eq_refl eq_refl eq_refl Hgood
                ltac:(intros items; discriminate)) as W.
  cbv zeta in W. destruct W as (_ & _ & W3 & W4 & _).
  split; [exact W3 | exact W4].
Defined.

Lemma folder_dialog_outcome_witness :
  invoked (snd (settled browser "09:00:05" 1
                  (Resolved (Main.select_folder
                     {| Main.canceled := false;
                        Main.filePaths := ["/data"] |})) choosing))
  = invoked choosing ++ [("scan-folder", [VStr "/data"])].
Proof.
  pose proof (folder_dialog_outcome browser
                {| Main.canceled := false; Main.filePaths := ["/data"] |}
                "09:00:05" 1 choosing eq_refl) as W.
  cbv zeta in W. cbn [Main.canceled Main.filePaths head] in W.
  destruct W as (_ & _ & _ & _ & _ & _ & _ & W). exact W.
Defined.

Lemma stderr_chunk_reaches_log_witness :
  head (nodes (elements
         (page (snd (handle browser "09:03:00"
                       (LogMessage (VObj [("type", VStr "error");
                                          ("message", VStr "Traceback")]))
                       loaded)))
         "logContent"))
  = Some (Element "log-entry error" None
            (Some (VStr ("[" +:+ "09:03:00" +:+ "] " +:+ "Traceback"))) []).
Proof.
  pose proof (stderr_chunk_reaches_log browser Sample.platform
                (Main.handle Sample.platform Main.Undo VUndefined
                   (Main.init Sample.no_logs))
                0 _ "Traceback" "09:03:00" loaded eq_refl eq_refl) as W.
  cbv zeta in W. destruct W as (_ & _ & W & _). exact W.
Defined.

End PageExamples.

Section ResultPanel.
Variable B : browser.

Lemma pretty_N_go_ne_N (x : N) (s s' : string) :
  s <> "N" +:+ s' -> pretty_N_go x s <> "N" +:+ s'.
Proof.
  revert s. induction (N.lt_wf_0 x) as [x _ IH]; intros s Hs.
  destruct (decide (x = 0)%N) as [->|Hx].
  - by rewrite pretty_N_go_0.
  - rewrite pretty_N_go_step by lia. apply IH.
    + apply N.div_lt; lia.
    + unfold pretty_N_char. by repeat case_match.
Qed.

(** The rendering of a natural number is that of a positive number
    unless the number is 0. *)
Lemma positive_pretty (n : nat) : positive (pretty n) = (0 <? n)%nat.
Proof.
  destruct n as [|n]; [reflexivity|].
  change (0 <? S n)%nat with true. unfold positive.
  apply negb_true_iff, orb_false_iff. split; [apply orb_false_iff; split|].
  - apply String.eqb_neq. intros H.
    assert (H0 : pretty (S n) = pretty 0) by exact H.
    by apply (inj pretty) in H0.
  - apply String.eqb_neq. unfold pretty, pretty_nat, pretty, pretty_N.
    destruct (decide (N.of_nat (S n) = 0%N)); [lia|].
    by apply (pretty_N_go_ne_N _ "" "aN").
  - destruct (startsWith "-" (pretty (S n))) eqn:Hs; [|done].
    apply startsWith_iff in Hs as [rest Hs]. exfalso. revert Hs.
    unfold pretty, pretty_nat, pretty, pretty_N.
    destruct (decide (N.of_nat (S n) = 0%N)); [lia|].
    by apply pretty_N_go_ne_dash.
Qed.

(** A loop that appends one node for each item. *)
Lemma append_loop {A : Type} (id : string) (f : A -> node) (l : list A)
    (w : world) :
  let r := for_each (fun x => appendChild id (f x)) l w in
  fst r = Ok tt /\
  nodes (elements (page (snd r)) id)
    = nodes (elements (page w) id) ++ map f l /\
  (forall id', id' <> id ->
     elements (page (snd r)) id' = elements (page w) id') /\
  st (snd r) = st w /\ invoked (snd r) = invoked w.
Proof.
  revert w. induction l as [|x l IH]; intros w.
  - cbn. by rewrite app_nil_r.
  - cbn [for_each]. cbv [mbind action_bind appendChild set].
    specialize (IH (with_page
      {| elements := alter (fun e => with_nodes (nodes e ++ [f x]) e) id
                       (elements (page w));
         modeCheckboxes := modeCheckboxes (page w) |} w)).
    cbv zeta in IH. cbv [appendChild set] in IH.
    destruct IH as (H1 & H2 & H3 & H4 & H5).
    split; [exact H1|]. split; [|split; [|split]].
    + rewrite H2. cbn [page with_page elements].
      rewrite fn_lookup_alter. cbn [nodes with_nodes map].
      by rewrite <- app_assoc.
    + intros id' Hid. rewrite H3 by done. cbn [page with_page elements].
      by rewrite fn_lookup_alter_ne.
    + by rewrite H4.
    + by rewrite H5.
Qed.

Lemma get_defined (result : value) (k : string) (v : value) :
  get (type_error B) result k = Ok v ->
  forall k', exists v', get (type_error B) result k' = Ok v'.
Proof. intros H k'. destruct result; try discriminate H; by eexists. Qed.

Lemma list_folders_effect (breakdown : value) (w : world) :
  let r := list_folders breakdown w in
  fst r = Ok tt /\
  nodes (elements (page (snd r)) "folderList")
    = nodes (elements (page w) "folderList") ++
      (if truthy breakdown
       then map (fun kv : string * value => folder_item (fst kv) (snd kv))
              (entries breakdown)
       else []) /\
  (forall id, id <> "folderList" ->
     elements (page (snd r)) id = elements (page w) id) /\
  st (snd r) = st w /\ invoked (snd r) = invoked w.
Proof.
  unfold list_folders. destruct (truthy breakdown).
  - apply (append_loop "folderList"
             (fun kv : string * value => folder_item (fst kv) (snd kv))).
  - cbn. by rewrite app_nil_r.
Qed.

(** The block for the errors, for a missing list or an array. *)
Lemma show_errors_effect (errors : value) (items : list value) (w : world) :
  or_else errors (VArr []) = VArr items ->
  let r := show_errors B errors w in
  fst r = Ok tt /\
  hidden (elements (page (snd r)) "errorSection") = bool_decide (items = []) /\
  (items <> [] ->
   nodes (elements (page (snd r)) "errorList") = map error_item items) /\
  (forall id, id <> "errorSection" -> id <> "errorList" ->
     elements (page (snd r)) id = elements (page w) id) /\
  st (snd r) = st w /\ invoked (snd r) = invoked w.
Proof.
  intros Hitems. unfold show_errors, or_else in *.
  destruct (truthy errors) eqn:Ht.
  - subst errors. cbv [lift mbind action_bind]. cbn [get_length truthy andb].
    cbn [greater_than_zero]. rewrite positive_pretty.
    destruct items as [|err items].
    + cbn. rewrite fn_lookup_alter. split; [done|]. split; [done|].
      split; [done|]. split; [|done].
      intros id H1 H2. by rewrite fn_lookup_alter_ne.
    + change (0 <? length (err :: items))%nat with true. cbv iota.
      cbv [set]. cbn [list_errors].
      match goal with |- context [for_each ?f ?l ?w1] =>
        destruct (append_loop "errorList" error_item l w1)
          as (H1 & H2 & H3 & H4 & H5);
        destruct (for_each f l w1) as [res w2]
      end.
      cbn [fst snd] in *. cbn [page with_page elements st invoked] in *.
      split; [exact H1|]. split.
      { rewrite H3 by discriminate.
        rewrite fn_lookup_alter_ne by discriminate.
        by rewrite fn_lookup_alter. }
      split.
      { intros _. rewrite H2. by rewrite fn_lookup_alter. }
      split; [|done].
      intros id Hid1 Hid2. rewrite H3 by done.
      by rewrite !fn_lookup_alter_ne.
  - inversion Hitems; subst items.
    cbv [lift mbind action_bind mret action_ret set]. cbn [andb].
    cbn [fst snd page with_page elements st invoked].
    rewrite fn_lookup_alter. split; [done|]. split; [done|].
    split; [done|]. split; [|done].
    intros id H1 H2. by rewrite fn_lookup_alter_ne.
Qed.

(** X16. A successful categorization is shown, logged, and followed
    by a look for the last operation.  When the function that awaits a
    categorization gets a result with a truthy [success], a [duration]
    that is a number or missing, and [errors] that are an array or
    missing, it returns after it has hidden the progress bar, shown the
    result panel with the counters (0 for a missing one, the duration
    with two decimals), listed the folders of [folder_breakdown] and the
    errors, the error section being hidden exactly when there is no
    error, logged "Categorization completed: <moved_files> files moved."
    as a success, and called 'get-last-operation'. *)
Theorem categorization_result_is_shown (now : string)
    (result success moved duration errors breakdown : value)
    (repr : string) (items : list value) (w : world) :
  get (type_error B) result "success" = Ok success ->
  truthy success = true ->
  get (type_error B) result "moved_files" = Ok moved ->
  get (type_error B) result "duration" = Ok duration ->
  or_else duration (VNum "0") = VNum repr ->
  get (type_error B) result "errors" = Ok errors ->
  or_else errors (VArr []) = VArr items ->
  get (type_error B) result "folder_breakdown" = Ok breakdown ->
  let r := resume B now after_categorize result w in
  let d := elements (page (snd r)) in
  fst r = Ok tt /\
  hidden (d "progressBar") = true /\
  hidden (d "resultPlaceholder") = true /\
  hidden (d "resultContent") = false /\
  text (d "resultMoved") = or_else moved (VNum "0") /\
  text (d "resultErrors") = VNum (pretty (length items)) /\
  text (d "resultDuration") = VStr (toFixed_2 B repr) /\
  nodes (d "folderList") =
    (if truthy breakdown
     then map (fun kv : string * value => folder_item (fst kv) (snd kv))
            (entries breakdown)
     else []) /\
  hidden (d "errorSection") = bool_decide (items = []) /\
  (items <> [] -> nodes (d "errorList") = map error_item items) /\
  head (nodes (d "logContent")) =
    Some (log_entry now
            (VStr ("Categorization completed: " +:+ to_string moved +:+
                   " files moved.")) (VStr "success")) /\
  st (snd r) = st w /\
  invoked (snd r) = invoked w ++ [("get-last-operation", [])].
Proof.
  intros Hsuccess Htruthy Hmoved Hduration Hrepr Herrors Hitems Hbreakdown
    r d.
  subst d r.
  destruct (get_defined _ _ _ Hsuccess "total_files") as [total Htotal].
  destruct (get_defined _ _ _ Hsuccess "folders_created") as [created Hcreated].
  unfold resume, hideProgress, showResult, read, checkUndo.
  rewrite Hsuccess, Htotal, Hmoved, Hcreated, Herrors, Hduration, Hbreakdown.
  run_actions. rewrite Htruthy, Hitems, Hrepr. cbn [get_length toFixed].
  run_actions.
  match goal with |- context [list_folders ?b ?w1] =>
    destruct (list_folders_effect b w1) as (F1 & F2 & F3 & F4 & F5);
    destruct (list_folders b w1) as [res1 w2]
  end.
  cbn [fst snd] in *. subst res1.
  match goal with |- context [show_errors B ?e ?w1] =>
    destruct (show_errors_effect e items w1 Hitems)
      as (E1 & E2 & E3 & E4 & E5 & E6);
    destruct (show_errors B e w1) as [res2 w3]
  end.
  cbn [fst snd] in *. subst res2.
  match goal with |- context [log ?n ?m ?t ?w1] =>
    pose proof (log_head n m t w1) as Hhead;
    destruct (log_frame n m t w1) as (Hst & Hinv & _ & _ & _ & Hframe);
    destruct (log n m t w1) as [res w4] eqn:Hlog;
    assert (Hres : res = Ok tt)
      by (unfold log, set in Hlog; by inversion Hlog);
    subst res; cbn [fst snd] in *
  end.
  cbn [st page invoked with_page elements] in *.
  rewrite fn_lookup_alter in F2. cbn [nodes with_nodes app] in F2.
  assert (Hkeep : forall id, id <> "logContent" -> id <> "errorSection" ->
            id <> "errorList" -> id <> "folderList" ->
            elements (page w4) id =
              alter (with_nodes []) "folderList"
                (alter (with_text (VStr (toFixed_2 B repr))) "resultDuration"
                (alter (with_text (VNum (pretty (length items))))
                   "resultErrors"
                (alter (with_text (or_else created (VNum "0")))
                   "resultFolders"
                (alter (with_text (or_else moved (VNum "0"))) "resultMoved"
                (alter (with_text (or_else total (VNum "0"))) "resultTotal"
                (alter (with_hidden false) "resultContent"
                (alter (with_hidden true) "resultPlaceholder"
                (alter (with_hidden true) "progressBar"
                   (elements (page w)))))))))) id).
  { intros id H1 H2 H3 H4.
    by rewrite Hframe, E4, F3 by done. }
  split; [done|].
  repeat match goal with
         | |- _ (elements (page w4) ?id) = _ /\ _ =>
             split; [rewrite Hkeep by discriminate;
                     rewrite ?fn_lookup_alter_ne by discriminate;
                     by rewrite fn_lookup_alter |]
         end.
  split; [by rewrite Hframe, E4 by discriminate|].
  split; [by rewrite Hframe by discriminate|].
  split; [intros Hne; rewrite Hframe by discriminate; by apply E3|].
  split; [exact Hhead|].
  split; [by rewrite Hst, E5, F4 | by rewrite Hinv, E6, F5].
Qed.

End ResultPanel.

Section CancelReport.
Variable B : browser.
Variable P : Main.platform.

(** X17. Cancel is reported as done also when nothing was running.
    With no child referenced, 'cancel-operation' kills nothing and
    answers [{success: false, message: "No operation running"}]; the
    renderer does not look at the answer: it hides the progress bar and
    logs "Operation cancelled." as a warning. *)
Theorem cancel_reported_when_nothing_runs (ms : Main.state) (arg : value)
    (now : string) (w : world) :
  Main.pythonProcess ms = None ->
  let answer :=
    VObj [("success", VBool false);
          ("message", VStr "No operation running")] in
  let ms' := Main.handle P Main.CancelOperation arg ms in
  let r := resume B now after_cancelOperation answer w in
  Main.replies ms' = Main.replies ms ++ [(Main.invocations ms, answer)] /\
  Main.kills ms' = Main.kills ms /\
  fst r = Ok tt /\
  hidden (elements (page (snd r)) "progressBar") = true /\
  head (nodes (elements (page (snd r)) "logContent")) =
    Some (log_entry now (VStr "Operation cancelled.") (VStr "warning")) /\
  st (snd r) = st w /\ invoked (snd r) = invoked w.
Proof.
  intros Hnone answer ms' r. subst ms' r answer.
  unfold Main.handle, Main.cancel_operation.
  cbn [Main.pythonProcess Main.with_invocations]. rewrite Hnone.
  split; [done|]. split; [done|].
  unfold resume, hideProgress. run_actions.
  match goal with |- context [log ?n ?m ?t ?w1] =>
    pose proof (log_head n m t w1) as Hhead;
    destruct (log_frame n m t w1) as (Hst & Hinv & _ & _ & _ & Hframe);
    destruct (log n m t w1) as [res w2] eqn:Hlog;
    assert (Hres : res = Ok tt)
      by (unfold log, set in Hlog; by inversion Hlog);
    subst res; cbn [fst snd] in *
  end.
  split; [done|]. split.
  { rewrite Hframe by discriminate. cbn. by rewrite fn_lookup_alter. }
  by repeat split.
Qed.

End CancelReport.

Section MoreExamples.
Import SamplePage.

Lemma categorization_result_is_shown_witness :
  fst (resume browser "09:05:00" after_categorize categorized (start index))
    = Ok tt /\
  invoked (snd (resume browser "09:05:00" after_categorize categorized
                  (start index)))
    = [("get-last-operation", [])].
Proof.
  pose proof (categorization_result_is_shown browser "09:05:00" categorized
                (VBool true) (VNum "8") (VNum "2") VUndefined
                (VObj [("jpg", VNum "7"); ("pdf", VNum "1")]) "2" []
                (start index)
                eq_refl eq_refl eq_refl eq_refl eq_refl eq_refl eq_refl
                eq_refl) as W.
  cbv zeta in W. destruct W as (W1 & _ & _ & _ & _ & _ & _ & _ & _ & _ & _ & _ & W2).
  split; [exact W1 | exact W2].
Defined.

Lemma cancel_reported_when_nothing_runs_witness :
  head (nodes (elements
         (page (snd (resume browser "09:06:00" after_cancelOperation
                       (VObj [("success", VBool false);
                              ("message", VStr "No operation running")])
                       loaded)))
         "logContent"))
  = Some (log_entry "09:06:00" (VStr "Operation cancelled.") (VStr "warning")).
Proof.
  pose proof (cancel_reported_when_nothing_runs browser Sample.platform
                (Main.init Sample.no_logs) VUndefined "09:06:00" loaded
                eq_refl) as W.
  cbv zeta in W. destruct W as (_ & _ & _ & _ & W & _). exact W.
Defined.

End MoreExamples.

End UIFacts.
Module BackendFacts.
#[local] Set Warnings "-clear-no-such-hyp".
Import Backend.


























End BackendFacts.
Module SimilarityFacts.
Import Similarity.
Local Open Scope Z_scope.

Section Greedy.
Variable alg : algorithm.
(** What the clustering argument needs of a score: a stem reaches every
    threshold up to 100 against itself, and only against itself reaches
    100. *)
Hypothesis score_self :
  forall (s : string) (t : Z), t <= 100 -> reaches t (score alg s s) = true.
Hypothesis score_full :
  forall a b : string, reaches 100 (score alg a b) = true -> a = b.

Lemma best_Some (t : Z) (s : string) (cs : list cluster) (i : nat)
    (cur : option (nat * ratio)) (j : nat) :
  best alg t s cs i cur = Some j ->
  (exists r, cur = Some (j, r)) \/
  (exists c, cs !! (j - i)%nat = Some c /\ (i <= j)%nat /\
     reaches t (score alg s (representative c)) = true).
Proof.
  revert i cur. induction cs as [|c cs IH]; intros i cur H; cbn [best] in H.
  - destruct cur as [[j' r]|]; [| done]. injection H as <-. left. eauto.
  - destruct (reaches t (score alg s (representative c))) eqn:Hr; cbn [andb] in H.
    + assert (Hmove : forall cur', best alg t s cs (S i) cur' = Some j ->
                (exists r, cur' = Some (j, r)) \/
                exists c0, (c :: cs) !! (j - i)%nat = Some c0 /\ (i <= j)%nat /\
                  reaches t (score alg s (representative c0)) = true).
      { intros cur' H'. destruct (IH _ _ H') as [?|(c0 & Hc0 & Hle & Hr0)]; [by left|].
        right. exists c0. split; [| split; [lia | done]].
        replace (j - i)%nat with (S (j - S i)) by lia. done. }
      destruct (match cur with None => true | Some (_, r0) =>
                  better (score alg s (representative c)) r0 end).
      * destruct (Hmove _ H) as [[r Hcur]|?]; [| by right].
        injection Hcur as <- _. right. exists c.
        rewrite Nat.sub_diag. by repeat split.
      * destruct (Hmove _ H) as [?|?]; [by left | by right].
    + destruct (IH _ _ H) as [?|(c0 & Hc0 & Hle & Hr0)]; [by left|].
      right. exists c0. split; [| split; [lia | done]].
      replace (j - i)%nat with (S (j - S i)) by lia. done.
Qed.

Lemma best_None (t : Z) (s : string) (cs : list cluster) (i : nat)
    (cur : option (nat * ratio)) :
  best alg t s cs i cur = None ->
  cur = None /\
  forall c, c ∈ cs -> reaches t (score alg s (representative c)) = false.
Proof.
  revert i cur. induction cs as [|c cs IH]; intros i cur H; cbn [best] in H.
  - destruct cur; [done|]. split; [done|]. intros c Hc.
    by apply not_elem_of_nil in Hc.
  - destruct (reaches t (score alg s (representative c))) eqn:Hr; cbn [andb] in H.
    + destruct cur as [[j r0]|].
      * destruct (better _ r0); apply IH in H as [H _]; done.
      * apply IH in H as [H _]. done.
    + apply IH in H as [-> H]. split; [done|].
      intros c0 Hc0. apply elem_of_cons in Hc0 as [->|Hc0]; [done | by apply H].
Qed.

Lemma best_found (t : Z) (s : string) (cs : list cluster) (j : nat) :
  best alg t s cs 0 None = Some j ->
  exists c, cs !! j = Some c /\
    reaches t (score alg s (representative c)) = true.
Proof.
  intros H. destruct (best_Some _ _ _ _ _ _ H) as [[r ?]|(c & Hc & _ & Hr)]; [done|].
  rewrite Nat.sub_0_r in Hc. eauto.
Qed.

Lemma place_joined (t : Z) (cs : list cluster) (k : nat) (s : string) :
  absorbed alg t cs s ->
  exists j c, cs !! j = Some c /\
    reaches t (score alg s (representative c)) = true /\
    place alg t cs k s = alter (add_member k) j cs.
Proof.
  intros (c & Hc & Hr). unfold place.
  destruct (best alg t s cs 0 None) as [j|] eqn:Hb.
  - destruct (best_found _ _ _ _ Hb) as (c0 & Hc0 & Hr0). eauto.
  - apply best_None in Hb as [_ Hb]. rewrite (Hb c Hc) in Hr. done.
Qed.










End Greedy.


(** ** Levenshtein *)


Lemma levenshtein_nil_r (a : list ascii) : levenshtein a [] = length a.
Proof. by destruct a. Qed.





(** ** Longest common subsequence *)


Lemma lcs_nil_r (a : list ascii) : lcs a [] = 0%nat.
Proof. by destruct a. Qed.






(** ** Jaro-Winkler *)



Lemma count_true_app (f g : list bool) :
  count_true (f ++ g) = (count_true f + count_true g)%nat.
Proof. induction f as [|[] f IH]; simpl; lia. Qed.













(** ** The three algorithms *)






End SimilarityFacts.
